(** * kanban: a shallow embedding of the issue cache, the timeline resolver
      and the flow-metrics engine

    The development follows the Go packages of the repository:

    - [GoRuntime]  what the code takes from Go's runtime and standard library
                   (float64 arithmetic, [math.Round], [sort.Float64s],
                   [strings], [time.Duration.Hours], [fmt.Sprintf "%d"]);
    - [github]     internal/github/client.go: the event walk of
                   [GetIssueTimeline];
    - [db]         internal/db: the issues, status_transitions and cfd_data
                   tables with the queries of [UpsertIssue],
                   [UpdateIssueTimestamps], [RecalcCycleTime] and
                   [SaveCFDSnapshot], as explicit state passing;
    - [cmd]        cmd/kanban/cmd/metrics.go: [calculateTimeStats],
                   [identifyBottlenecks], [collectMetricsCached] and
                   [collectKanbanMetrics].

    float64 is Rocq's primitive binary64 [float], so every arithmetic
    step of the metrics code evaluates bit for bit as the Go code does.
    A Go map is a [gmap]; where the code ranges over a map, the order of
    the range is an explicit argument, since Go leaves it unspecified. *)

From Stdlib Require Import ZArith List Bool Lia Permutation Sorted.
From Stdlib Require Import Ascii String DecimalString DecimalPos.
From Stdlib Require Import Floats.
From stdpp Require Import base option list gmap strings.
From Equations Require Import Equations.

Import ListNotations.
Set Warnings "-inexact-float".
Local Open Scope Z_scope.

(* ===================================================================== *)
(** * Go runtime and standard library *)
(* ===================================================================== *)

Module GoRuntime.

(** ** float64 *)

(** [float64(n)] for an [int] n, |n| < 2^63. *)
Definition float64_of_int (z : Z) : float :=
  if z <? 0 then PrimFloat.opp (PrimFloat.of_uint63 (Uint63.of_Z (- z)))
  else PrimFloat.of_uint63 (Uint63.of_Z z).

(** The integer part of a binary64 value, towards zero. *)
Definition sf_trunc (f : spec_float) : Z :=
  match f with
  | S754_finite s m e =>
      let mag := if 0 <=? e then Z.pos m * 2 ^ e else Z.pos m / 2 ^ (- e) in
      if s then - mag else mag
  | _ => 0
  end.

(** [int(x)] for a float64 x: truncation towards zero.  Go leaves the
    result open when x is NaN, infinite or out of range; the model
    returns 0 for NaN and the infinities. *)
Definition int_of_float64 (x : float) : Z := sf_trunc (Prim2SF x).

(** [math.Round]: the nearest integer, halves away from zero; NaN, the
    infinities and the zeros are returned unchanged, and the sign of a
    value that rounds to zero is kept. *)
Definition Round (x : float) : float :=
  match Prim2SF x with
  | S754_finite s m e =>
      if 0 <=? e then x
      else
        let d := 2 ^ (- e) in
        let q := Z.pos m / d in
        let r := Z.pos m mod d in
        let k := if d <=? 2 * r then q + 1 else q in
        if s then PrimFloat.opp (float64_of_int k) else float64_of_int k
  | _ => x
  end.

(** [math.IsNaN]. *)
Definition IsNaN (x : float) : bool := negb (PrimFloat.eqb x x).

(** The order of [sort.Float64Slice]: [x < y], with NaN before every
    other value. *)
Definition lessFloat64 (x y : float) : bool :=
  PrimFloat.ltb x y || (IsNaN x && negb (IsNaN y)).

Fixpoint insertFloat64 (x : float) (l : list float) : list float :=
  match l with
  | [] => [x]
  | y :: l' => if lessFloat64 y x then y :: insertFloat64 x l' else x :: y :: l'
  end.

(** [sort.Float64s]: the slice in increasing order.  Go's algorithm
    (pattern-defeating quicksort) is not stable; the elements it may
    order either way compare equal as float64, so the model, an insertion
    sort under the same order, differs from it at most in where a -0 sits
    among +0s and in which NaN comes first. *)
Definition Float64s (l : list float) : list float :=
  fold_right insertFloat64 [] l.

(** Indexing a slice that is known to be long enough. *)
Definition at_index (l : list float) (i : Z) : float :=
  nth (Z.to_nat i) l 0%float.

(** ** strings

    Labels and statuses are ASCII text in this model: [ToLower] folds
    the letters A-Z and [TrimSpace] strips the ASCII white space, which
    is what Go's Unicode-aware functions do on ASCII input. *)

Definition lower_ascii (c : ascii) : ascii :=
  let n := N_of_ascii c in
  if ((65 <=? n) && (n <=? 90))%N then ascii_of_N (n + 32) else c.

Fixpoint ToLower (s : string) : string :=
  match s with
  | EmptyString => EmptyString
  | String c s' => String (lower_ascii c) (ToLower s')
  end.

Definition HasPrefix (s prefix : string) : bool := String.prefix prefix s.

Definition TrimPrefix (s prefix : string) : string :=
  if HasPrefix s prefix
  then String.substring (String.length prefix)
                        (String.length s - String.length prefix) s
  else s.

Definition is_space (c : ascii) : bool :=
  let n := N_of_ascii c in
  ((n =? 32) || ((9 <=? n) && (n <=? 13)))%N.

Fixpoint trim_left (s : string) : string :=
  match s with
  | String c s' => if is_space c then trim_left s' else s
  | EmptyString => EmptyString
  end.

Fixpoint trim_right (s : string) : string :=
  match s with
  | EmptyString => EmptyString
  | String c s' =>
      match trim_right s' with
      | EmptyString => if is_space c then EmptyString else String c EmptyString
      | t => String c t
      end
  end.

Definition TrimSpace (s : string) : string := trim_right (trim_left s).

(** [fmt.Sprintf("%d", n)]. *)
Definition Sprintf_d (n : Z) : string := NilZero.string_of_int (Z.to_int n).

(** ** time

    A [time.Time] is the instant it denotes: nanoseconds since Go's zero
    time (January 1 of year 1, 00:00 UTC), so that [IsZero] is a
    comparison with 0.  A [time.Duration] is an int64 of nanoseconds. *)

Definition Timestamp : Type := Z.
Definition Duration : Type := Z.

Definition IsZero (t : Timestamp) : bool := t =? 0.
Definition zeroTime : Timestamp := 0.

Definition minDuration : Duration := - 2 ^ 63.
Definition maxDuration : Duration := 2 ^ 63 - 1.
Definition Hour : Duration := 3600 * 1000000000.

(** [t.Sub(u)]: the difference, saturated to the range of an int64. *)
Definition Sub (t u : Timestamp) : Duration :=
  Z.max minDuration (Z.min maxDuration (t - u)).

(** [d.Hours()]: the whole hours and the remainder are converted
    separately, as in Go's time package. *)
Definition Hours (d : Duration) : float :=
  (float64_of_int (Z.quot d Hour) + float64_of_int (Z.rem d Hour) / 3600000000000)%float.

(** [t.After(u)]. *)
Definition After (t u : Timestamp) : bool := u <? t.

End GoRuntime.

Import GoRuntime.

(* ===================================================================== *)
(** * internal/github/client.go: the timeline resolver *)
(* ===================================================================== *)

Module github.

(** TimelineEvent: a label change event. *)
Record TimelineEvent := mkTimelineEvent {
  Event : string;          (* "labeled" or "unlabeled" *)
  Label : string;
  CreatedAt : Timestamp
}.

(** BlockedPeriod: [End] is the zero time while the issue is still
    blocked. *)
Record BlockedPeriod := mkBlockedPeriod {
  Start : Timestamp;
  End : Timestamp;
  Duration : float         (* hours *)
}.

Record TimelineResult := mkTimelineResult {
  Events : list TimelineEvent;
  StatusChanges : gmap string Timestamp;   (* status -> first time entered *)
  BlockedPeriods : list BlockedPeriod;
  TotalBlocked : float                     (* hours *)
}.

(** One decoded element of the timeline the API returned ([rawEvents]);
    [rawLabel] is [None] for an event that carries no label. *)
Record RawEvent := mkRawEvent {
  rawEvent : string;
  rawCreatedAt : Timestamp;
  rawLabel : option string
}.

(** extractStatus: the status name of a label such as "status: in-progress". *)
Definition extractStatus (label : string) : string :=
  let lower := ToLower label in
  if HasPrefix lower "status:" then TrimSpace (TrimPrefix lower "status:")
  else if HasPrefix lower "status " then TrimSpace (TrimPrefix lower "status ")
  else lower.

(** The body of the loop over [rawEvents]: the state is the result built
    so far and the local [blockedStart]. *)
Definition timelineStep (st : TimelineResult * Timestamp) (e : RawEvent)
  : TimelineResult * Timestamp :=
  let '(result, blockedStart) := st in
  match rawLabel e with
  | None => st
  | Some name =>
      let evt := mkTimelineEvent (rawEvent e) name (rawCreatedAt e) in
      let events := Events result ++ [evt] in
      (* Track status label changes (first entry only) *)
      let statusChanges :=
        if String.eqb (rawEvent e) "labeled" && HasPrefix (ToLower name) "status:"
        then
          let status := extractStatus name in
          match StatusChanges result !! status with
          | Some _ => StatusChanges result
          | None => <[status := rawCreatedAt e]> (StatusChanges result)
          end
        else StatusChanges result in
      (* Track blocked periods *)
      let blockedStart :=
        if String.eqb (rawEvent e) "labeled" && String.eqb (ToLower name) "blocked"
        then rawCreatedAt e else blockedStart in
      if String.eqb (rawEvent e) "unlabeled" && String.eqb (ToLower name) "blocked"
         && negb (IsZero blockedStart)
      then
        let period :=
          mkBlockedPeriod blockedStart (rawCreatedAt e)
                          (Hours (Sub (rawCreatedAt e) blockedStart)) in
        (mkTimelineResult events statusChanges
           (BlockedPeriods result ++ [period])
           (TotalBlocked result + Duration period)%float,
         zeroTime)
      else
        (mkTimelineResult events statusChanges
           (BlockedPeriods result) (TotalBlocked result),
         blockedStart)
  end.

Definition emptyTimeline : TimelineResult :=
  mkTimelineResult [] ∅ [] 0%float.

(** The loop of GetIssueTimeline over the decoded events. *)
Definition walkTimeline (rawEvents : list RawEvent) : TimelineResult * Timestamp :=
  fold_left timelineStep rawEvents (emptyTimeline, zeroTime).

(** GetIssueTimeline, from the decoded answer of the timeline API on:
    the call of the gh command and the JSON decoding are the collaborator's
    part, and their failures return an error before the walk starts.
    [now] is the clock reading of [time.Since]. *)
Definition GetIssueTimeline (now : Timestamp) (rawEvents : list RawEvent)
  : TimelineResult :=
  let '(result, blockedStart) := walkTimeline rawEvents in
  (* If still blocked, add open period *)
  if negb (IsZero blockedStart) then
    let period := mkBlockedPeriod blockedStart zeroTime (Hours (Sub now blockedStart)) in
    mkTimelineResult (Events result) (StatusChanges result)
      (BlockedPeriods result ++ [period])
      (TotalBlocked result + Duration period)%float
  else result.

(** ** The records the live metrics read *)

Module BoardIssue.
Record t := mk {
  Number : Z;
  Title : string;
  Labels : list string;
  Assignee : string
}.
End BoardIssue.

Module IssueDetails.
Record t := mk {
  Number : Z;
  Title : string;
  State : string;
  CreatedAt : Timestamp;
  UpdatedAt : Timestamp;
  ClosedAt : Timestamp;
  Labels : list string;
  Assignee : string
}.
End IssueDetails.

Module IssueWithTimes.
Record t := mk {
  Number : Z;
  Title : string;
  State : string;
  CreatedAt : Timestamp;
  ClosedAt : Timestamp;
  InProgressAt : Timestamp;
  ReadyAt : Timestamp;
  Labels : list string;
  BlockedDuration : float
}.
End IssueWithTimes.

End github.

(* ===================================================================== *)
(** * internal/db: the issue cache, the transition ledger, the snapshots *)
(* ===================================================================== *)

Module db.

(** ** Models (models.go) *)

(** Issue, the Go struct handed to the store.  An absent classification is
    the empty string, an absent time a nil pointer. *)
Record Issue := mkIssue {
  ID : Z;
  RepoID : Z;
  Number : Z;
  Title : string;
  State : string;
  GHCreatedAt : Timestamp;
  GHUpdatedAt : Timestamp;
  GHClosedAt : option Timestamp;
  CurrentStatus : string;
  CurrentPriority : string;
  CurrentType : string;
  CurrentSize : string;
  IsBlocked : bool;
  Assignee : string;
  EnteredReadyAt : option Timestamp;
  EnteredProgressAt : option Timestamp;
  EnteredReviewAt : option Timestamp;
  EnteredTestingAt : option Timestamp;
  EnteredDoneAt : option Timestamp;
  LeadTimeHours : float;
  CycleTimeHours : float;
  BlockedTimeHours : float
}.

Definition with_ID (issue : Issue) (new_id : Z) : Issue :=
  mkIssue new_id (RepoID issue) (Number issue) (Title issue) (State issue)
    (GHCreatedAt issue) (GHUpdatedAt issue) (GHClosedAt issue)
    (CurrentStatus issue) (CurrentPriority issue) (CurrentType issue)
    (CurrentSize issue) (IsBlocked issue) (Assignee issue)
    (EnteredReadyAt issue) (EnteredProgressAt issue) (EnteredReviewAt issue)
    (EnteredTestingAt issue) (EnteredDoneAt issue)
    (LeadTimeHours issue) (CycleTimeHours issue) (BlockedTimeHours issue).

(** ** Schema (schema.go)

    A row of each table, a column that admits NULL as an [option].

    A DATETIME column holds text, and the text comes in two forms.  A Go
    [time.Time] bound to a statement is written by the driver in the form
    of [time.Time.String], "2006-01-02 15:04:05 +0000 UTC" for the UTC
    times the issue tracker reports; CURRENT_TIMESTAMP is written by
    SQLite as "2006-01-02 15:04:05".  As the note in RecalcCycleTime
    records, SQLite's date functions read the second form and not the
    zone suffix of the first. *)
Inductive datetime : Type :=
| GoText (t : Timestamp)      (* a Go time in UTC, as the driver writes it *)
| SqlText (t : Timestamp).    (* the form SQLite writes and reads *)

(** The instant a stored text denotes. *)
Definition instant (x : datetime) : Timestamp :=
  match x with GoText t | SqlText t => t end.

Record issues_row := mk_issues_row {
  id : Z;
  repo_id : Z;
  number : Z;
  title : string;
  state : string;
  gh_created_at : datetime;
  gh_updated_at : datetime;
  gh_closed_at : option datetime;
  current_status : option string;
  current_priority : option string;
  current_type : option string;
  current_size : option string;
  is_blocked : bool;
  assignee : option string;
  entered_ready_at : option datetime;
  entered_progress_at : option datetime;
  entered_review_at : option datetime;
  entered_testing_at : option datetime;
  entered_done_at : option datetime;
  lead_time_hours : option float;
  cycle_time_hours : option float;
  blocked_time_hours : option float;
  created_at : datetime;
  updated_at : datetime
}.

Record status_transitions_row := mk_status_transitions_row {
  st_id : Z;
  st_issue_id : Z;
  from_status : option string;
  to_status : string;
  transitioned_at : datetime;
  st_created_at : datetime
}.

(** cfd_data carries UNIQUE(repo_id, snapshot_date, status). *)
Record cfd_data_row := mk_cfd_data_row {
  cfd_id : Z;
  cfd_repo_id : Z;
  snapshot_date : string;
  status : string;
  cumulative_count : Z;
  cfd_created_at : datetime
}.

Record blocked_periods_row := mk_blocked_periods_row {
  bp_id : Z;
  bp_issue_id : Z;
  blocked_at : option datetime;
  unblocked_at : option datetime;
  duration_hours : float;
  reason : option string;
  bp_created_at : datetime
}.

(** The database: each table in insertion order, with the last rowid its
    AUTOINCREMENT key has handed out. *)
Record DB := mkDB {
  issues : list issues_row;
  issues_seq : Z;
  status_transitions : list status_transitions_row;
  status_transitions_seq : Z;
  cfd_data : list cfd_data_row;
  cfd_data_seq : Z;
  blocked_periods : list blocked_periods_row;
  blocked_periods_seq : Z
}.

Definition emptyDB : DB := mkDB [] 0 [] 0 [] 0 [] 0.

Definition with_issues (d : DB) (t : list issues_row) (seq : Z) : DB :=
  mkDB t seq (status_transitions d) (status_transitions_seq d)
       (cfd_data d) (cfd_data_seq d) (blocked_periods d) (blocked_periods_seq d).

(** The two clocks a query reads: Go's [time.Now()] and SQLite's
    CURRENT_TIMESTAMP. *)
Record Clock := mkClock {
  time_Now : Timestamp;
  CURRENT_TIMESTAMP : Timestamp
}.

(** UPDATE t SET ... WHERE cond. *)
Definition sql_update {R : Type} (cond : R -> bool) (set : R -> R) (t : list R) : list R :=
  map (fun r => if cond r then set r else r) t.

(** COALESCE(a, b). *)
Definition COALESCE {A : Type} (a b : option A) : option A :=
  match a with Some _ => a | None => b end.

(** x IS NULL. *)
Definition IS_NULL {A : Type} (a : option A) : bool :=
  match a with Some _ => false | None => true end.

(** nullString: the empty string is stored as NULL. *)
Definition nullString (s : string) : option string :=
  if String.eqb s "" then None else Some s.

(** The statuses that have an entered_*_at column. *)
Inductive tracked := Ready | InProgress | Review | Testing | Done.

#[global] Instance tracked_eq_dec : EqDecision tracked.
Proof. solve_decision. Defined.

Definition tracked_of (status : string) : option tracked :=
  if String.eqb status "ready" then Some Ready
  else if String.eqb status "in-progress" then Some InProgress
  else if String.eqb status "review" then Some Review
  else if String.eqb status "testing" then Some Testing
  else if String.eqb status "done" then Some Done
  else None.

(** The value of the column entered_<status>_at. *)
Definition entered (c : tracked) (r : issues_row) : option datetime :=
  match c with
  | Ready => entered_ready_at r
  | InProgress => entered_progress_at r
  | Review => entered_review_at r
  | Testing => entered_testing_at r
  | Done => entered_done_at r
  end.

(** SET entered_<status>_at = v, every other column as it is. *)
Definition set_entered (c : tracked) (v : option datetime) (r : issues_row) : issues_row :=
  mk_issues_row (id r) (repo_id r) (number r) (title r) (state r)
    (gh_created_at r) (gh_updated_at r) (gh_closed_at r)
    (current_status r) (current_priority r) (current_type r) (current_size r)
    (is_blocked r) (assignee r)
    (match c with Ready => v | _ => entered_ready_at r end)
    (match c with InProgress => v | _ => entered_progress_at r end)
    (match c with Review => v | _ => entered_review_at r end)
    (match c with Testing => v | _ => entered_testing_at r end)
    (match c with Done => v | _ => entered_done_at r end)
    (lead_time_hours r) (cycle_time_hours r) (blocked_time_hours r)
    (created_at r) (updated_at r).

(** ** Queries (queries.go)

    A query runs against the database value and returns the new one; a
    failure of the storage layer itself (a closed file, a full disk) is
    outside the model, so every query succeeds. *)

(** RecordStatusTransition. *)
Definition RecordStatusTransition (clk : Clock) (d : DB)
    (issueID : Z) (fromStatus toStatus : string) (transitionedAt : Timestamp) : DB :=
  let new_id := status_transitions_seq d + 1 in
  mkDB (issues d) (issues_seq d)
       (status_transitions d ++
          [mk_status_transitions_row new_id issueID (nullString fromStatus)
             toStatus (GoText transitionedAt) (SqlText (CURRENT_TIMESTAMP clk))])
       new_id
       (cfd_data d) (cfd_data_seq d) (blocked_periods d) (blocked_periods_seq d).

(** updateStatusTimestamp: UPDATE issues SET <column> = CURRENT_TIMESTAMP
    WHERE id = ? AND <column> IS NULL, for the column of a tracked status. *)
Definition updateStatusTimestamp (clk : Clock) (d : DB) (issueID : Z) (status : string) : DB :=
  match tracked_of status with
  | Some column =>
      with_issues d
        (sql_update (fun r => (id r =? issueID) && IS_NULL (entered column r))
                    (set_entered column (Some (SqlText (CURRENT_TIMESTAMP clk))))
                    (issues d))
        (issues_seq d)
  | None => d
  end.

(** The row INSERT INTO issues writes for [issue] under rowid [new_id]. *)
Definition inserted_row (clk : Clock) (new_id : Z) (issue : Issue) : issues_row :=
  mk_issues_row new_id (RepoID issue) (Number issue) (Title issue) (State issue)
    (GoText (GHCreatedAt issue)) (GoText (GHUpdatedAt issue))
    (GoText <$> GHClosedAt issue)
    (nullString (CurrentStatus issue)) (nullString (CurrentPriority issue))
    (nullString (CurrentType issue)) (nullString (CurrentSize issue))
    (IsBlocked issue) (nullString (Assignee issue))
    (GoText <$> EnteredReadyAt issue) (GoText <$> EnteredProgressAt issue)
    (GoText <$> EnteredReviewAt issue) (GoText <$> EnteredTestingAt issue)
    (GoText <$> EnteredDoneAt issue)
    (Some (LeadTimeHours issue)) (Some (CycleTimeHours issue))
    (Some (BlockedTimeHours issue))
    (SqlText (CURRENT_TIMESTAMP clk)) (SqlText (CURRENT_TIMESTAMP clk)).

(** The SET clause of UpsertIssue's UPDATE: the entered_*_at columns,
    gh_created_at and the key are not among the assigned columns. *)
Definition updated_row (clk : Clock) (issue : Issue) (r : issues_row) : issues_row :=
  mk_issues_row (id r) (repo_id r) (number r) (Title issue) (State issue)
    (gh_created_at r) (GoText (GHUpdatedAt issue)) (GoText <$> GHClosedAt issue)
    (nullString (CurrentStatus issue)) (nullString (CurrentPriority issue))
    (nullString (CurrentType issue)) (nullString (CurrentSize issue))
    (IsBlocked issue) (nullString (Assignee issue))
    (entered_ready_at r) (entered_progress_at r) (entered_review_at r)
    (entered_testing_at r) (entered_done_at r)
    (Some (LeadTimeHours issue)) (Some (CycleTimeHours issue))
    (Some (BlockedTimeHours issue))
    (created_at r) (SqlText (CURRENT_TIMESTAMP clk)).

(** SELECT id, current_status FROM issues WHERE repo_id = ? AND number = ?
    (QueryRow: the first row, if any). *)
Definition select_issue (d : DB) (repoID num : Z) : option issues_row :=
  find (fun r => (repo_id r =? repoID) && (number r =? num)) (issues d).

(** UpsertIssue inserts or updates an issue.  The result is the new
    database and the caller's struct, whose ID the function sets. *)
Definition UpsertIssue (clk : Clock) (d : DB) (issue : Issue) : DB * Issue :=
  match select_issue d (RepoID issue) (Number issue) with
  | None =>
      (* Insert new issue *)
      let new_id := issues_seq d + 1 in
      let d := with_issues d (issues d ++ [inserted_row clk new_id issue]) new_id in
      let issue := with_ID issue new_id in
      (* Record initial status transition *)
      let d :=
        if negb (String.eqb (CurrentStatus issue) "")
        then RecordStatusTransition clk d (ID issue) "" (CurrentStatus issue)
                                    (GHUpdatedAt issue)
        else d in
      (d, issue)
  | Some existing =>
      (* Update existing issue *)
      let issue := with_ID issue (id existing) in
      (* Check for status change *)
      let oldStatus := default ""%string (current_status existing) in
      let d :=
        if negb (String.eqb oldStatus (CurrentStatus issue))
        then
          let d := RecordStatusTransition clk d (ID issue) oldStatus
                     (CurrentStatus issue) (time_Now clk) in
          (* Update entered_*_at timestamps *)
          updateStatusTimestamp clk d (ID issue) (CurrentStatus issue)
        else d in
      let d := with_issues d
                 (sql_update (fun r => id r =? ID issue) (updated_row clk issue) (issues d))
                 (issues_seq d) in
      (d, issue)
  end.

(** UpdateIssueBlockedTime. *)
Definition UpdateIssueBlockedTime (d : DB) (issueID : Z) (totalHours : float) : DB :=
  with_issues d
    (sql_update (fun r => id r =? issueID)
       (fun r =>
          mk_issues_row (id r) (repo_id r) (number r) (title r) (state r)
            (gh_created_at r) (gh_updated_at r) (gh_closed_at r)
            (current_status r) (current_priority r) (current_type r) (current_size r)
            (PrimFloat.ltb 0 totalHours) (assignee r)
            (entered_ready_at r) (entered_progress_at r) (entered_review_at r)
            (entered_testing_at r) (entered_done_at r)
            (lead_time_hours r) (cycle_time_hours r) (Some totalHours)
            (created_at r) (updated_at r))
       (issues d))
    (issues_seq d).

(** RecordBlockedPeriod. *)
Definition RecordBlockedPeriod (clk : Clock) (d : DB) (issueID : Z)
    (blockedAt unblockedAt : option Timestamp) (why : string) : DB :=
  let duration :=
    match unblockedAt, blockedAt with
    | Some u, Some b => Hours (Sub u b)
    | _, _ => 0%float
    end in
  let new_id := blocked_periods_seq d + 1 in
  mkDB (issues d) (issues_seq d) (status_transitions d) (status_transitions_seq d)
       (cfd_data d) (cfd_data_seq d)
       (blocked_periods d ++
          [mk_blocked_periods_row new_id issueID (GoText <$> blockedAt)
             (GoText <$> unblockedAt) duration
             (nullString why) (SqlText (CURRENT_TIMESTAMP clk))])
       new_id.

(** UpdateIssueTimestamps updates the entered_*_at timestamps from
    timeline data: each column is set to COALESCE(?, column), the
    parameter first. *)
Definition UpdateIssueTimestamps (clk : Clock) (d : DB) (issueID : Z)
    (ready progress review testing done : option Timestamp) : DB :=
  with_issues d
    (sql_update (fun r => id r =? issueID)
       (fun r =>
          mk_issues_row (id r) (repo_id r) (number r) (title r) (state r)
            (gh_created_at r) (gh_updated_at r) (gh_closed_at r)
            (current_status r) (current_priority r) (current_type r) (current_size r)
            (is_blocked r) (assignee r)
            (COALESCE (GoText <$> ready) (entered_ready_at r))
            (COALESCE (GoText <$> progress) (entered_progress_at r))
            (COALESCE (GoText <$> review) (entered_review_at r))
            (COALESCE (GoText <$> testing) (entered_testing_at r))
            (COALESCE (GoText <$> done) (entered_done_at r))
            (lead_time_hours r) (cycle_time_hours r) (blocked_time_hours r)
            (created_at r) (SqlText (CURRENT_TIMESTAMP clk)))
       (issues d))
    (issues_seq d).

Section Sqlite.

(** The day number SQLite's [julianday] returns for the instant of a
    text it can read: days, with their fraction, as a REAL.  The function
    belongs to SQLite and is taken as given. *)
Variable dayNumber : Timestamp -> float.

(** [julianday(x)]: NULL for NULL and for a text the date functions do
    not read. *)
Definition julianday (x : option datetime) : option float :=
  match x with
  | Some (SqlText t) => Some (dayNumber t)
  | Some (GoText _) => None
  | None => None
  end.

(** [REPLACE(REPLACE(x, ' +0000 UTC', ''), ' UTC', '')]: strips Go time
    format suffix for SQLite julianday compatibility. *)
Definition REPLACE_zone (x : option datetime) : option datetime :=
  match x with
  | Some (GoText t) => Some (SqlText t)
  | other => other
  end.

(** Arithmetic on REAL operands: NULL if an operand is NULL. *)
Definition sql_sub (a b : option float) : option float :=
  match a, b with
  | Some x, Some y => Some (x - y)%float
  | _, _ => None
  end.

Definition sql_mul (a b : option float) : option float :=
  match a, b with
  | Some x, Some y => Some (x * y)%float
  | _, _ => None
  end.

(** The two CASE expressions of RecalcCycleTime. *)
Definition recalc_cycle_time (r : issues_row) : option float :=
  if negb (IS_NULL (entered_progress_at r))
     && (negb (IS_NULL (entered_done_at r)) || negb (IS_NULL (gh_closed_at r)))
  then
    sql_sub
      (sql_mul
         (sql_sub
            (julianday (REPLACE_zone (COALESCE (entered_done_at r) (gh_closed_at r))))
            (julianday (REPLACE_zone (entered_progress_at r))))
         (Some 24%float))
      (COALESCE (blocked_time_hours r) (Some 0%float))
  else None.

Definition recalc_lead_time (r : issues_row) : option float :=
  if negb (IS_NULL (entered_done_at r)) || negb (IS_NULL (gh_closed_at r))
  then
    sql_mul
      (sql_sub
         (julianday (REPLACE_zone (COALESCE (entered_done_at r) (gh_closed_at r))))
         (julianday (Some (gh_created_at r))))
      (Some 24%float)
  else None.

(** RecalcCycleTime recalculates cycle time from timestamps.
    Cycle time: only calculated when issue went through in-progress.
    Lead time: calculated for all closed issues (creation -> done). *)
Definition RecalcCycleTime (d : DB) (issueID : Z) : DB :=
  with_issues d
    (sql_update (fun r => id r =? issueID)
       (fun r =>
          mk_issues_row (id r) (repo_id r) (number r) (title r) (state r)
            (gh_created_at r) (gh_updated_at r) (gh_closed_at r)
            (current_status r) (current_priority r) (current_type r) (current_size r)
            (is_blocked r) (assignee r)
            (entered_ready_at r) (entered_progress_at r) (entered_review_at r)
            (entered_testing_at r) (entered_done_at r)
            (recalc_lead_time r) (recalc_cycle_time r) (blocked_time_hours r)
            (created_at r) (updated_at r))
       (issues d))
    (issues_seq d).

(** [date.Format("2006-01-02")]: the calendar day of an instant in its
    time zone, taken as given. *)
Variable formatDate : Timestamp -> string.

(** INSERT OR REPLACE INTO cfd_data (repo_id, snapshot_date, status,
    cumulative_count): the rows that hold the same UNIQUE key are deleted
    and the new row is inserted under a fresh rowid. *)
Definition insert_or_replace_cfd (clk : Clock) (d : DB)
    (repoID : Z) (day st : string) (count : Z) : DB :=
  let new_id := cfd_data_seq d + 1 in
  let kept :=
    List.filter (fun r => negb ((cfd_repo_id r =? repoID) && String.eqb (snapshot_date r) day
                           && String.eqb (status r) st))
           (cfd_data d) in
  mkDB (issues d) (issues_seq d) (status_transitions d) (status_transitions_seq d)
       (kept ++ [mk_cfd_data_row new_id repoID day st count
                   (SqlText (CURRENT_TIMESTAMP clk))])
       new_id
       (blocked_periods d) (blocked_periods_seq d).

(** SaveCFDSnapshot saves CFD data for a date.  [statusCounts] is the
    map in the order the range statement yields it: every key once, in an
    order Go does not specify. *)
Definition SaveCFDSnapshot (clk : Clock) (d : DB) (repoID : Z) (date : Timestamp)
    (statusCounts : list (string * Z)) : DB :=
  fold_left
    (fun d '(st, count) => insert_or_replace_cfd clk d repoID (formatDate date) st count)
    statusCounts d.

End Sqlite.

(** ** Rows of the views and reports the metrics read (models.go) *)

Module BoardIssue.
Record t := mk {
  Repo : string;
  Number : Z;
  Title : string;
  Status : string;
  Priority : string;
  Type_ : string;
  Assignee : string;
  IsBlocked : bool;
  BlockedTimeHours : float;
  AgeHours : float;
  CreatedAt : Timestamp;
  UpdatedAt : Timestamp
}.
End BoardIssue.

Module WIPSummary.
Record t := mk {
  Repo : string;
  Status : string;
  Count : Z;
  AvgAgeHours : float
}.
End WIPSummary.

Module ClosedIssueStats.
Record t := mk {
  Number : Z;
  Title : string;
  CreatedAt : Timestamp;
  ClosedAt : Timestamp;
  LeadTimeHours : float;
  CycleTimeHours : float
}.
End ClosedIssueStats.

End db.

(* ===================================================================== *)
(** * cmd/kanban/cmd/metrics.go: the metrics engine *)
(* ===================================================================== *)

Module cmd.

Record TimeStats := mkTimeStats {
  Average : float;
  Median : float;
  P85 : float;
  Min : float;
  Max : float;
  StdDev : float;
  Count : Z
}.

(** [TimeStats{}]. *)
Definition zeroTimeStats : TimeStats := mkTimeStats 0 0 0 0 0 0 0.

Record RateStats := mkRateStats {
  Total : Z;
  PerDay : float;
  PerWeek : float
}.

Record LittlesLaw_t := mkLittlesLaw {
  CalculatedWIP : float;
  ActualWIP : Z;
  Variance : float
}.

Module AgingIssue.
Record t := mk {
  Repo : string;
  Number : Z;
  Title : string;
  Status : string;
  Assignee : string;
  AgeDays : float;
  BlockedHours : float;
  IsBlocked : bool
}.
End AgingIssue.

(** KanbanMetrics holds all kanban metrics. *)
Record KanbanMetrics := mkKanbanMetrics {
  Repo : string;
  Generated : Timestamp;
  Period : Z;
  (* Flow Metrics *)
  LeadTime : TimeStats;
  CycleTime : TimeStats;
  Throughput : RateStats;
  FlowEfficiency : float;
  (* WIP Metrics *)
  WIP : gmap string Z;
  WIPLimits : gmap string Z;
  WIPAge : TimeStats;
  LittlesLaw : LittlesLaw_t;
  (* Rate Metrics *)
  ArrivalRate : float;
  DepartureRate : float;
  BlockedTime : float;
  (* Distribution *)
  FlowLoad : Z;
  Density : gmap string float;
  (* Aging Issues *)
  AgingIssues : list AgingIssue.t;
  (* Bottlenecks *)
  Bottlenecks : list string
}.

Definition with_Bottlenecks (m : KanbanMetrics) (b : list string) : KanbanMetrics :=
  mkKanbanMetrics (Repo m) (Generated m) (Period m) (LeadTime m) (CycleTime m)
    (Throughput m) (FlowEfficiency m) (WIP m) (WIPLimits m) (WIPAge m)
    (LittlesLaw m) (ArrivalRate m) (DepartureRate m) (BlockedTime m)
    (FlowLoad m) (Density m) (AgingIssues m) b.

(** [m[key]] on a Go map of ints: zero for a missing key. *)
Definition at_key (m : gmap string Z) (key : string) : Z := default 0 (m !! key).

(** [math.Round(x*10) / 10]. *)
Definition round1 (x : float) : float := (Round (x * 10) / 10)%float.

(** The sum and the sum of squared deviations, accumulated left to
    right as the two loops of calculateTimeStats do. *)
Definition sumFloat64 (values : list float) : float :=
  fold_left (fun sum v => (sum + v)%float) values 0%float.

Definition sumSquaresFloat64 (mean : float) (values : list float) : float :=
  fold_left (fun acc v => (acc + (v - mean) * (v - mean))%float) values 0%float.

(** The index of the 85th percentile among n sorted values. *)
Definition p85index (n : Z) : Z :=
  let p85idx := int_of_float64 (float64_of_int n * 0.85)%float in
  if n <=? p85idx then n - 1 else p85idx.

Definition calculateTimeStats (values : list float) : TimeStats :=
  match values with
  | [] => zeroTimeStats
  | _ :: _ =>
      let values := Float64s values in
      let n := Z.of_nat (length values) in
      (* Sum and mean *)
      let sum := sumFloat64 values in
      let mean := (sum / float64_of_int n)%float in
      (* Standard deviation *)
      let sumSquares := sumSquaresFloat64 mean values in
      let stdDev := PrimFloat.sqrt (sumSquares / float64_of_int n) in
      (* Percentiles *)
      let p50idx := n / 2 in
      let p85idx := p85index n in
      mkTimeStats
        (round1 mean)
        (if n mod 2 =? 0
         then round1 ((at_index values (p50idx - 1) + at_index values p50idx) / 2)
         else round1 (at_index values p50idx))
        (round1 (at_index values p85idx))
        (round1 (at_index values 0))
        (round1 (at_index values (n - 1)))
        (round1 stdDev)
        n
  end.

(** truncate (board.go). *)
Definition truncate (s : string) (maxLen : Z) : string :=
  if Z.of_nat (String.length s) <=? maxLen then s
  else (String.substring 0 (Z.to_nat (maxLen - 3)) s ++ "...")%string.

(** [sort.Slice(m.AgingIssues, ...)] with the comparison
    [AgeDays[i] > AgeDays[j]]: oldest first.  The model is an insertion
    sort; Go's sort may order issues of equal age either way. *)
Fixpoint insertAging (x : AgingIssue.t) (l : list AgingIssue.t) : list AgingIssue.t :=
  match l with
  | [] => [x]
  | y :: l' =>
      if PrimFloat.ltb (AgingIssue.AgeDays x) (AgingIssue.AgeDays y)
      then y :: insertAging x l'
      else x :: y :: l'
  end.

Definition sortAging (l : list AgingIssue.t) : list AgingIssue.t :=
  fold_right insertAging [] l.

(** Sort aging (oldest first) and limit. *)
Definition sortAndLimitAging (l : list AgingIssue.t) : list AgingIssue.t :=
  let l := sortAging l in
  if (10 <? length l)%nat then firstn 10 l else l.

Definition statuses : list string :=
  ["backlog"; "ready"; "in-progress"; "review"; "testing"; "done"]%string.

(** The outcome of a function that returns a value and an [error]. *)
Inductive result (A : Type) : Type :=
| Ok (value : A)
| Err (msg : string).
Arguments Ok {A} value.
Arguments Err {A} msg.

Section Engine.

(** The order in which [range m.WIP] yields the entries of the map on
    this run: Go leaves it unspecified. *)
Variable rangeWIP : gmap string Z -> list (string * Z).

(** [fmt.Sprintf] of a float64 under "%.1f" and under "%.0f". *)
Variable Sprintf_f1 : float -> string.
Variable Sprintf_f0 : float -> string.

(** The number of aging issues older than 14 days. *)
Definition staleCount (l : list AgingIssue.t) : Z :=
  fold_left (fun n issue => if PrimFloat.ltb 14 (AgingIssue.AgeDays issue) then n + 1 else n)
            l 0.

Definition identifyBottlenecks (m : KanbanMetrics) : list string :=
  let bottlenecks : list string := [] in
  (* WIP limit violations *)
  let bottlenecks :=
    fold_left
      (fun bottlenecks '(status, count) =>
         match WIPLimits m !! ("status: " ++ status)%string with
         | Some limit =>
             if limit <? count
             then bottlenecks ++
                    [("WIP LIMIT: " ++ status ++ " has " ++ Sprintf_d count
                      ++ " items (limit: " ++ Sprintf_d limit ++ ")")%string]
             else bottlenecks
         | None => bottlenecks
         end)
      (rangeWIP (WIP m)) bottlenecks in
  (* Arrival > Departure (system overload) *)
  let bottlenecks :=
    if PrimFloat.ltb (DepartureRate m * 1.5) (ArrivalRate m)
       && PrimFloat.ltb 0.5 (ArrivalRate m)
    then bottlenecks ++
           [("OVERLOAD: Arrival rate (" ++ Sprintf_f1 (ArrivalRate m)
             ++ "/day) > Departure rate (" ++ Sprintf_f1 (DepartureRate m)
             ++ "/day)")%string]
    else bottlenecks in
  (* Review bottleneck *)
  let bottlenecks :=
    if (at_key (WIP m) "in-progress" * 2 <? at_key (WIP m) "review")
       && (2 <? at_key (WIP m) "review")
    then bottlenecks ++ ["REVIEW BOTTLENECK: Consider prioritizing code reviews"%string]
    else bottlenecks in
  (* Testing bottleneck *)
  let bottlenecks :=
    if (at_key (WIP m) "review" * 2 <? at_key (WIP m) "testing")
       && (2 <? at_key (WIP m) "testing")
    then bottlenecks ++ ["TESTING BOTTLENECK: Consider prioritizing QA"%string]
    else bottlenecks in
  (* Stale items *)
  let stale := staleCount (AgingIssues m) in
  let bottlenecks :=
    if 0 <? stale
    then bottlenecks ++
           [("STALE ITEMS: " ++ Sprintf_d stale ++ " issues stuck >14 days")%string]
    else bottlenecks in
  (* Little's Law variance *)
  let bottlenecks :=
    if PrimFloat.ltb 50 (PrimFloat.abs (Variance (LittlesLaw m)))
    then bottlenecks ++
           [("FLOW INSTABILITY: Actual WIP deviates "
             ++ Sprintf_f0 (Variance (LittlesLaw m)) ++ "% from predicted")%string]
    else bottlenecks in
  bottlenecks.

(** ** Cached mode *)

(** The order in which [range repoWIP] yields the repositories. *)
Variable rangeRepos : gmap string (gmap string Z) -> list (string * gmap string Z).

(** Group by repo: [repoWIP[w.Repo][w.Status] = w.Count]. *)
Definition groupWIP (wipSummary : list db.WIPSummary.t) : gmap string (gmap string Z) :=
  fold_left
    (fun repoWIP w =>
       <[db.WIPSummary.Repo w :=
           <[db.WIPSummary.Status w := db.WIPSummary.Count w]>
             (default ∅ (repoWIP !! db.WIPSummary.Repo w))]> repoWIP)
    wipSummary ∅.

(** Group issues by repo. *)
Definition groupIssues (boardIssues : list db.BoardIssue.t)
  : gmap string (list db.BoardIssue.t) :=
  fold_left
    (fun repoIssues issue =>
       <[db.BoardIssue.Repo issue :=
           default [] (repoIssues !! db.BoardIssue.Repo issue) ++ [issue]]> repoIssues)
    boardIssues ∅.

(** The issues that count for aging: neither done nor backlog nor
    without a status. *)
Definition isActive (issue : db.BoardIssue.t) : bool :=
  negb (String.eqb (db.BoardIssue.Status issue) "done")
  && negb (String.eqb (db.BoardIssue.Status issue) "backlog")
  && negb (String.eqb (db.BoardIssue.Status issue) "").

Definition agingOfBoardIssue (repoShort : string) (issue : db.BoardIssue.t) : AgingIssue.t :=
  let age := (db.BoardIssue.AgeHours issue / 24)%float in
  AgingIssue.mk repoShort (db.BoardIssue.Number issue)
    (truncate (db.BoardIssue.Title issue) 35) (db.BoardIssue.Status issue)
    (db.BoardIssue.Assignee issue) (round1 age)
    (db.BoardIssue.BlockedTimeHours issue) (db.BoardIssue.IsBlocked issue).

(** The three slices the flow metrics are computed from, in days. *)
Definition leadTimesOf (closedIssues : list db.ClosedIssueStats.t) : list float :=
  map (fun issue => (db.ClosedIssueStats.LeadTimeHours issue / 24)%float)
      (List.filter (fun issue => PrimFloat.ltb 0 (db.ClosedIssueStats.LeadTimeHours issue))
              closedIssues).

Definition cycleTimesOf (closedIssues : list db.ClosedIssueStats.t) : list float :=
  map (fun issue => (db.ClosedIssueStats.CycleTimeHours issue / 24)%float)
      (List.filter (fun issue => PrimFloat.ltb 0 (db.ClosedIssueStats.CycleTimeHours issue))
              closedIssues).

(** Lead time of the issues that have a cycle time (for flow efficiency). *)
Definition workflowLeadTimesOf (closedIssues : list db.ClosedIssueStats.t) : list float :=
  map (fun issue => (db.ClosedIssueStats.LeadTimeHours issue / 24)%float)
      (List.filter (fun issue => PrimFloat.ltb 0 (db.ClosedIssueStats.CycleTimeHours issue)
                            && PrimFloat.ltb 0 (db.ClosedIssueStats.LeadTimeHours issue))
              closedIssues).

(** [calculateTimeStats] under the guard [len(values) > 0]. *)
Definition statsIfAny (values : list float) : TimeStats :=
  match values with
  | [] => zeroTimeStats
  | _ :: _ => calculateTimeStats values
  end.

(** Flow Efficiency: compare cycle/lead for SAME issues only. *)
Definition flowEfficiencyCached (closedIssues : list db.ClosedIssueStats.t) : float :=
  match cycleTimesOf closedIssues, workflowLeadTimesOf closedIssues with
  | _ :: _, _ :: _ =>
      let cycle := calculateTimeStats (cycleTimesOf closedIssues) in
      let workflowLead := calculateTimeStats (workflowLeadTimesOf closedIssues) in
      if PrimFloat.ltb 0 (Average workflowLead)
      then Round (Average cycle / Average workflowLead * 100)
      else 0%float
  | _, _ => 0%float
  end.

(** The body of the loop of collectMetricsCached for one repository.
    [closed] is the answer of GetClosedIssuesInPeriod, [None] when the
    query returned an error. *)
Definition repoMetricsCached (now : Timestamp) (organization : string) (days : Z)
    (wipLimits : gmap string Z)
    (repoIssues : gmap string (list db.BoardIssue.t))
    (arrivalByRepo : gmap string Z)
    (closed : option (list db.ClosedIssueStats.t))
    (repoName : string) (wip : gmap string Z) : KanbanMetrics :=
  let repoShort := TrimPrefix repoName (organization ++ "/") in
  (* Calculate metrics from cached data *)
  let active := List.filter isActive (default [] (repoIssues !! repoName)) in
  let allAges := map (fun issue => (db.BoardIssue.AgeHours issue / 24)%float) active in
  let aging := sortAndLimitAging (map (agingOfBoardIssue repoShort) active) in
  (* Calculate WIP Age *)
  let wipAge := statsIfAny allAges in
  (* Calculate Flow Load and Density *)
  let flowLoad := fold_left (fun load st => load + at_key wip st) statuses 0 in
  let density : gmap string float :=
    if 0 <? flowLoad
    then (fun count => (Round (float64_of_int count / float64_of_int flowLoad * 1000) / 10)%float)
           <$> wip
    else ∅ in
  (* Calculate flow metrics from cached data *)
  let closedIssues :=
    match closed with
    | Some (issue :: rest) => issue :: rest
    | _ => []
    end in
  let perDay :=
    match closedIssues with
    | [] => 0%float
    | _ => (float64_of_int (Z.of_nat (length closedIssues)) / float64_of_int days)%float
    end in
  let throughput :=
    match closedIssues with
    | [] => mkRateStats 0 0 0
    | _ => mkRateStats (Z.of_nat (length closedIssues)) perDay (perDay * 7)
    end in
  let leadTime := statsIfAny (leadTimesOf closedIssues) in
  let cycleTime := statsIfAny (cycleTimesOf closedIssues) in
  let flowEfficiency := flowEfficiencyCached closedIssues in
  (* Arrival Rate (new issues created in period) *)
  let arrivalRate :=
    match arrivalByRepo !! repoName with
    | Some arrivalCount => (float64_of_int arrivalCount / float64_of_int days)%float
    | None => 0%float
    end in
  let m :=
    mkKanbanMetrics repoShort now days leadTime cycleTime throughput flowEfficiency
      wip wipLimits wipAge (mkLittlesLaw 0 0 0) arrivalRate perDay 0
      flowLoad density aging [] in
  (* Identify bottlenecks based on WIP *)
  with_Bottlenecks m (identifyBottlenecks m).

(** collectMetricsCached collects metrics from the local database.  Its
    arguments after [wipLimits] are what the queries GetWIPSummary,
    GetBoardIssues, GetArrivalByRepo and GetClosedIssuesInPeriod answered
    (the last one [None] on an error, which the code tolerates); a
    database that cannot be opened or queried makes the function return
    that error before any of this runs. *)
Definition collectMetricsCached (now : Timestamp) (organization : string) (days : Z)
    (wipLimits : gmap string Z)
    (wipSummary : list db.WIPSummary.t)
    (boardIssues : list db.BoardIssue.t)
    (arrivalByRepo : gmap string Z)
    (GetClosedIssuesInPeriod : string -> option (list db.ClosedIssueStats.t))
  : result (list KanbanMetrics) :=
  let repoWIP := groupWIP wipSummary in
  let repoIssues := groupIssues boardIssues in
  let allMetrics :=
    map (fun '(repoName, wip) =>
           repoMetricsCached now organization days wipLimits repoIssues arrivalByRepo
             (GetClosedIssuesInPeriod repoName) repoName wip)
        (rangeRepos repoWIP) in
  match allMetrics with
  | [] => Err "no data found. Run 'kanban sync' first to populate the database"
  | _ :: _ => Ok allMetrics
  end.

(** ** Live mode *)

(** The answers of the issue-tracker client for one repository and one
    window, [None] where the call returned an error. *)
Record Client := mkClient {
  ListIssuesForBoard : string -> option (list github.BoardIssue.t);   (* by label *)
  GetIssueDetails : Z -> option github.IssueDetails.t;                (* by number *)
  ListClosedIssuesWithTimes : option (list github.IssueWithTimes.t);
  ListAllIssues : option (list github.IssueDetails.t)
}.

(** [t.AddDate(0, 0, d)]: calendar arithmetic in the time zone of [t]. *)
Variable AddDate_days : Timestamp -> Z -> Timestamp.

(** Collect WIP and aging for each status: the state of the loop is
    m.WIP, allAges and m.AgingIssues. *)
Definition collectStatus (client : Client) (now : Timestamp) (repo : string)
    (st : gmap string Z * list float * list AgingIssue.t) (status : string)
  : gmap string Z * list float * list AgingIssue.t :=
  let '(wip, allAges, aging) := st in
  match ListIssuesForBoard client ("status: " ++ status) with
  | None => st
  | Some issues =>
      let wip := <[status := Z.of_nat (length issues)]> wip in
      (* Collect aging for active items *)
      if negb (String.eqb status "done") && negb (String.eqb status "backlog")
      then
        let '(allAges, aging) :=
          fold_left
            (fun '(allAges, aging) issue =>
               match GetIssueDetails client (github.BoardIssue.Number issue) with
               | None => (allAges, aging)
               | Some details =>
                   let age := (Hours (Sub now (github.IssueDetails.CreatedAt details)) / 24)%float in
                   (allAges ++ [age],
                    aging ++ [AgingIssue.mk repo (github.BoardIssue.Number issue)
                                (truncate (github.BoardIssue.Title issue) 35) status
                                (github.BoardIssue.Assignee issue) (round1 age) 0 false])
               end)
            issues (allAges, aging) in
        (wip, allAges, aging)
      else (wip, allAges, aging)
  end.

(** Lead Time (creation -> closed), in days, of the closed issues. *)
Definition liveLeadTimes (closedIssues : list github.IssueWithTimes.t) : list float :=
  fold_left
    (fun leadTimes issue =>
       if negb (IsZero (github.IssueWithTimes.ClosedAt issue))
          && negb (IsZero (github.IssueWithTimes.CreatedAt issue))
       then
         let lt := (Hours (Sub (github.IssueWithTimes.ClosedAt issue)
                               (github.IssueWithTimes.CreatedAt issue)) / 24)%float in
         if PrimFloat.ltb 0 lt then leadTimes ++ [lt] else leadTimes
       else leadTimes)
    closedIssues [].

(** Little's Law: WIP = Throughput x Lead Time. *)
Definition littlesLawCheck (wip : gmap string Z) (perDay leadAverage : float) : LittlesLaw_t :=
  let activeWIP := at_key wip "ready" + at_key wip "in-progress"
                   + at_key wip "review" + at_key wip "testing" in
  if PrimFloat.ltb 0 perDay && PrimFloat.ltb 0 leadAverage
  then
    let calculatedWIP := (perDay * leadAverage)%float in
    mkLittlesLaw calculatedWIP activeWIP
      (if PrimFloat.ltb 0 calculatedWIP
       then (Round ((float64_of_int activeWIP - calculatedWIP) / calculatedWIP * 1000) / 10)%float
       else 0%float)
  else mkLittlesLaw 0 0 0.

(** collectKanbanMetrics: the metrics of one repository from the
    client's answers.  The function has no failing path: its error result
    is always nil. *)
Definition collectKanbanMetrics (client : Client) (now : Timestamp) (repo : string)
    (days : Z) (wipLimits : gmap string Z) : KanbanMetrics :=
  (* Collect WIP and aging for each status *)
  let '(wip, allAges, aging) :=
    fold_left (collectStatus client now repo) statuses (∅, [], []) in
  (* Sort aging (oldest first) and limit *)
  let aging := sortAndLimitAging aging in
  (* Calculate WIP Age *)
  let wipAge := statsIfAny allAges in
  (* Calculate Flow Load and Density *)
  let flowLoad := map_fold (fun _ count load => load + count) 0 wip in
  let density : gmap string float :=
    if 0 <? flowLoad
    then (fun count => (Round (float64_of_int count / float64_of_int flowLoad * 1000) / 10)%float)
           <$> wip
    else ∅ in
  (* Get closed issues for throughput and lead time *)
  let closedIssues :=
    match ListClosedIssuesWithTimes client with
    | Some (issue :: rest) => issue :: rest
    | _ => []
    end in
  let perDay :=
    match closedIssues with
    | [] => 0%float
    | _ => (float64_of_int (Z.of_nat (length closedIssues)) / float64_of_int days)%float
    end in
  let throughput :=
    match closedIssues with
    | [] => mkRateStats 0 0 0
    | _ => mkRateStats (Z.of_nat (length closedIssues)) perDay (perDay * 7)
    end in
  let leadTime := statsIfAny (liveLeadTimes closedIssues) in
  (* Cycle time not available in live mode - requires timeline data *)
  let cycleTime := zeroTimeStats in
  (* Arrival Rate (new issues created in period) *)
  let arrivalRate :=
    match ListAllIssues client with
    | Some allIssues =>
        let cutoff := AddDate_days now (- days) in
        let newCount :=
          Z.of_nat (length (List.filter (fun issue => After (github.IssueDetails.CreatedAt issue) cutoff)
                                   allIssues)) in
        (float64_of_int newCount / float64_of_int days)%float
    | None => 0%float
    end in
  (* Flow Efficiency (only when we have real cycle time data) *)
  let flowEfficiency :=
    if PrimFloat.ltb 0 (Average leadTime) && (0 <? Count cycleTime)
    then (Round (Average cycleTime / Average leadTime * 1000) / 10)%float
    else 0%float in
  (* Little's Law: WIP = Throughput x Lead Time *)
  let littlesLaw := littlesLawCheck wip perDay (Average leadTime) in
  let m :=
    mkKanbanMetrics repo now days leadTime cycleTime throughput flowEfficiency
      wip wipLimits wipAge littlesLaw arrivalRate perDay 0
      flowLoad density aging [] in
  (* Identify bottlenecks *)
  with_Bottlenecks m (identifyBottlenecks m).

End Engine.

End cmd.

(* ===================================================================== *)
(** * Properties of the issue cache *)
(* ===================================================================== *)

Section StoreProperties.

Import db.

Variable dayNumber : Timestamp -> float.
Variable formatDate : Timestamp -> string.

(** ** First-entry timestamps *)

(** The timing columns of [r'] keep every value that is set in [r]. *)
Definition entered_kept (r r' : issues_row) : Prop :=
  id r' = id r /\ forall c t, entered c r = Some t -> entered c r' = Some t.

(** Row by row, the table [t'] keeps the set timing columns of [t]; it may
    hold more rows. *)
Definition table_kept (t t' : list issues_row) : Prop :=
  forall (i : nat) r, t !! i = Some r -> exists r', t' !! i = Some r' /\ entered_kept r r'.

(** The operations the sync issues against the store. *)
Inductive Op : Type :=
| OpUpsertIssue (clk : Clock) (issue : Issue)
| OpRecordStatusTransition (clk : Clock) (issueID : Z) (fromStatus toStatus : string)
                           (transitionedAt : Timestamp)
| OpRecordBlockedPeriod (clk : Clock) (issueID : Z) (blockedAt unblockedAt : option Timestamp)
                        (why : string)
| OpUpdateIssueBlockedTime (issueID : Z) (totalHours : float)
| OpRecalcCycleTime (issueID : Z)
| OpSaveCFDSnapshot (clk : Clock) (repoID : Z) (date : Timestamp)
                    (statusCounts : list (string * Z))
| OpUpdateIssueTimestamps (clk : Clock) (issueID : Z)
                          (ready progress review testing done : option Timestamp).

Definition run (d : DB) (op : Op) : DB :=
  match op with
  | OpUpsertIssue clk issue => fst (UpsertIssue clk d issue)
  | OpRecordStatusTransition clk i f t at_ => RecordStatusTransition clk d i f t at_
  | OpRecordBlockedPeriod clk i b u why => RecordBlockedPeriod clk d i b u why
  | OpUpdateIssueBlockedTime i h => UpdateIssueBlockedTime d i h
  | OpRecalcCycleTime i => RecalcCycleTime dayNumber d i
  | OpSaveCFDSnapshot clk repoID date counts =>
      SaveCFDSnapshot formatDate clk d repoID date counts
  | OpUpdateIssueTimestamps clk i ready progress review testing done =>
      UpdateIssueTimestamps clk d i ready progress review testing done
  end.

Definition is_backfill (op : Op) : bool :=
  match op with
  | OpUpdateIssueTimestamps _ _ _ _ _ _ _ => true
  | _ => false
  end.

(** The timeline value UpdateIssueTimestamps is given for a column. *)
Definition supplied (ready progress review testing done : option Timestamp)
    (c : tracked) : option Timestamp :=
  match c with
  | Ready => ready
  | InProgress => progress
  | Review => review
  | Testing => testing
  | Done => done
  end.

Lemma entered_kept_refl r : entered_kept r r.
Proof. split; auto. Qed.

Lemma entered_kept_trans r1 r2 r3 :
  entered_kept r1 r2 -> entered_kept r2 r3 -> entered_kept r1 r3.
Proof.
  intros [Hid12 H12] [Hid23 H23]. split; [congruence|].
  intros c t Hc. apply H23, H12, Hc.
Qed.

Lemma table_kept_refl t : table_kept t t.
Proof. intros i r Hi. exists r. split; [done | apply entered_kept_refl]. Qed.

Lemma table_kept_trans t1 t2 t3 :
  table_kept t1 t2 -> table_kept t2 t3 -> table_kept t1 t3.
Proof.
  intros H12 H23 i r Hi.
  destruct (H12 i r Hi) as (r2 & Hi2 & K12).
  destruct (H23 i r2 Hi2) as (r3 & Hi3 & K23).
  exists r3. split; [done | by eapply entered_kept_trans].
Qed.

Lemma table_kept_app t new : table_kept t (t ++ new).
Proof.
  intros i r Hi. exists r. split; [|apply entered_kept_refl].
  by apply lookup_app_l_Some.
Qed.

Lemma table_kept_update cond set t :
  (forall r, cond r = true -> entered_kept r (set r)) ->
  table_kept t (sql_update cond set t).
Proof.
  intros Hset i r Hi. unfold sql_update.
  rewrite list_lookup_fmap, Hi. simpl.
  destruct (cond r) eqn:Hc; eexists; split; try reflexivity.
  - by apply Hset.
  - apply entered_kept_refl.
Qed.

Lemma entered_set_entered c c' v r :
  entered c (set_entered c' v r) = if decide (c = c') then v else entered c r.
Proof. destruct c, c'; reflexivity. Qed.

Lemma updateStatusTimestamp_kept clk d issueID st :
  table_kept (issues d) (issues (updateStatusTimestamp clk d issueID st)).
Proof.
  unfold updateStatusTimestamp.
  destruct (tracked_of st) as [column|]; [|apply table_kept_refl].
  simpl. apply table_kept_update. intros r Hcond.
  apply andb_prop in Hcond as [_ Hnull].
  split; [reflexivity|]. intros c t Hc.
  rewrite entered_set_entered. destruct (decide (c = column)) as [->|]; [|done].
  rewrite Hc in Hnull. discriminate.
Qed.

Lemma UpsertIssue_kept clk d issue :
  table_kept (issues d) (issues (fst (UpsertIssue clk d issue))).
Proof.
  unfold UpsertIssue.
  destruct (select_issue d (RepoID issue) (Number issue)) as [existing|]; simpl.
  - eapply table_kept_trans; [|apply table_kept_update].
    + destruct (negb _); [|apply table_kept_refl].
      apply (updateStatusTimestamp_kept clk (RecordStatusTransition clk d _ _ _ _)).
    + intros r _. split; [reflexivity|]. by intros [] t.
  - destruct (negb _); simpl; apply table_kept_app.
Qed.

Lemma run_kept d op :
  is_backfill op = false -> table_kept (issues d) (issues (run d op)).
Proof.
  destruct op; simpl; try discriminate; intros _.
  - apply UpsertIssue_kept.
  - apply table_kept_refl.
  - apply table_kept_refl.
  - apply table_kept_update. intros r _. split; [reflexivity|]. by intros [] t.
  - apply table_kept_update. intros r _. split; [reflexivity|]. by intros [] t.
  - unfold SaveCFDSnapshot.
    revert d. induction statusCounts as [|[st n] l IH]; intros d; simpl.
    + apply table_kept_refl.
    + eapply table_kept_trans; [|apply IH]. apply table_kept_refl.
Qed.

Lemma fold_run_kept ops : forall d,
  forallb (fun op => negb (is_backfill op)) ops = true ->
  table_kept (issues d) (issues (fold_left run ops d)).
Proof.
  induction ops as [|op ops IH]; intros d Hops; simpl.
  - apply table_kept_refl.
  - simpl in Hops. apply andb_prop in Hops as [Hop Hrest].
    eapply table_kept_trans; [apply run_kept | apply IH, Hrest].
    by destruct (is_backfill op).
Qed.

Lemma UpdateIssueTimestamps_effect clk d issueID ready progress review testing done
    (i : nat) r :
  issues d !! i = Some r ->
  exists r',
    issues (UpdateIssueTimestamps clk d issueID ready progress review testing done) !! i
      = Some r'
    /\ id r' = id r
    /\ forall c, entered c r' =
         if id r =? issueID
         then COALESCE (GoText <$> supplied ready progress review testing done c)
                       (entered c r)
         else entered c r.
Proof.
  intros Hi. unfold UpdateIssueTimestamps, sql_update. simpl.
  rewrite list_lookup_fmap, Hi. simpl.
  destruct (id r =? issueID); eexists; (split; [reflexivity|]); split; try reflexivity.
  intros []; reflexivity.
Qed.

(** C1 (as amended).  A timing column entered_<status>_at that is set
    keeps its value through every sequence of the writes a sync makes to
    the store that holds no timeline backfill: UpsertIssue (whose
    stamping UPDATE requires the column to be NULL),
    RecordStatusTransition, RecordBlockedPeriod, UpdateIssueBlockedTime,
    RecalcCycleTime and SaveCFDSnapshot, in any number and order.  The
    statement is about these operations and no others.  The backfill
    UpdateIssueTimestamps sets each column of the addressed issue to
    COALESCE(supplied, stored): the supplied timeline value when there is
    one, set or not the column, and the stored value only when none is
    supplied; rows of other issues keep their columns. *)
Theorem entered_at_kept_except_timeline_backfill :
  (forall (ops : list Op) (d : DB),
     forallb (fun op => negb (is_backfill op)) ops = true ->
     table_kept (issues d) (issues (fold_left run ops d)))
  /\
  (forall clk d issueID ready progress review testing done (i : nat) r,
     issues d !! i = Some r ->
     exists r',
       issues (UpdateIssueTimestamps clk d issueID ready progress review testing done) !! i
         = Some r'
       /\ id r' = id r
       /\ forall c, entered c r' =
            if id r =? issueID
            then COALESCE (GoText <$> supplied ready progress review testing done c)
                          (entered c r)
            else entered c r).
Proof.
  split.
  - intros ops d Hops. by apply fold_run_kept.
  - intros. by apply UpdateIssueTimestamps_effect.
Qed.

(** ** The transition ledger under UpsertIssue *)

Lemma default_nullString s : default ""%string (nullString s) = s.
Proof.
  unfold nullString. destruct (String.eqb_spec s ""); simpl; congruence.
Qed.

Lemma find_map_inv {A} (p : A -> bool) (f : A -> A) (l : list A) :
  (forall a, p (f a) = p a) -> find p (map f l) = f <$> find p l.
Proof.
  intros Hp. induction l as [|a l IH]; simpl; [reflexivity|].
  rewrite Hp. destruct (p a); [reflexivity | apply IH].
Qed.

Lemma find_app_None {A} (p : A -> bool) (l : list A) (a : A) :
  find p l = None -> p a = true -> find p (l ++ [a]) = Some a.
Proof.
  intros Hl Ha. induction l as [|b l IH]; simpl in *.
  - by rewrite Ha.
  - destruct (p b); [discriminate | by apply IH].
Qed.

Lemma find_some_holds {A} (p : A -> bool) (l : list A) (a : A) :
  find p l = Some a -> p a = true.
Proof. intros H. by apply find_some in H as [_ H]. Qed.

(** What the second of two upserts finds: a row of the same key whose
    status column holds the status of the first. *)
Lemma select_after_UpsertIssue clk d issue :
  exists r,
    select_issue (fst (UpsertIssue clk d issue)) (RepoID issue) (Number issue) = Some r
    /\ current_status r = nullString (CurrentStatus issue).
Proof.
  unfold UpsertIssue.
  destruct (select_issue d (RepoID issue) (Number issue)) as [existing|] eqn:Hsel.
  - simpl. unfold select_issue in *. simpl.
    set (d1 := if negb _ then _ else d).
    assert (exists g, issues d1 = map g (issues d)
                            /\ forall r, repo_id (g r) = repo_id r /\ number (g r) = number r
                                         /\ id (g r) = id r) as (g & Hg & Hkey).
    { subst d1. destruct (negb _).
      - unfold updateStatusTimestamp. destruct (tracked_of _) as [column|]; simpl.
        + eexists. split; [reflexivity|]. intros r. simpl.
          by destruct (andb _ _).
        + exists (fun r => r). by rewrite map_id.
      - exists (fun r => r). by rewrite map_id. }
    unfold sql_update. rewrite Hg, map_map, find_map_inv.
    + rewrite Hsel. simpl. eexists. split; [reflexivity|].
      destruct (Hkey existing) as (_ & _ & ->). by rewrite Z.eqb_refl.
    + intros r. destruct (Hkey r) as (H1 & H2 & H3).
      destruct (id (g r) =? id existing); simpl; by rewrite H1, H2.
  - exists (inserted_row clk (issues_seq d + 1) issue). split; [|reflexivity].
    unfold select_issue in *.
    destruct (negb _); simpl; apply find_app_None; auto; simpl; by rewrite !Z.eqb_refl.
Qed.

Lemma UpsertIssue_same_status clk d issue r :
  select_issue d (RepoID issue) (Number issue) = Some r ->
  current_status r = nullString (CurrentStatus issue) ->
  status_transitions (fst (UpsertIssue clk d issue)) = status_transitions d.
Proof.
  intros Hsel Hst. unfold UpsertIssue. rewrite Hsel. simpl.
  rewrite Hst, default_nullString, String.eqb_refl. reflexivity.
Qed.

Lemma updateStatusTimestamp_ledger clk d issueID st :
  status_transitions (updateStatusTimestamp clk d issueID st) = status_transitions d.
Proof. unfold updateStatusTimestamp. by destruct (tracked_of st). Qed.

(** C2.  A second UpsertIssue of a record with the same key and the same
    status as the first appends no StatusTransition row; the upsert of a
    record whose key is not in the table and whose status is not empty
    appends exactly one row, from NULL (no status) to that status, dated
    by the record's update time; the upsert of a record whose status
    differs from the stored one appends exactly one row, from the stored
    to the incoming status, dated by the processing time. *)
Theorem UpsertIssue_ledger :
  (forall clk clk' d issue issue',
     RepoID issue' = RepoID issue ->
     Number issue' = Number issue ->
     CurrentStatus issue' = CurrentStatus issue ->
     status_transitions (fst (UpsertIssue clk' (fst (UpsertIssue clk d issue)) issue'))
       = status_transitions (fst (UpsertIssue clk d issue)))
  /\
  (forall clk d issue,
     select_issue d (RepoID issue) (Number issue) = None ->
     CurrentStatus issue <> ""%string ->
     status_transitions (fst (UpsertIssue clk d issue))
       = status_transitions d ++
           [mk_status_transitions_row (status_transitions_seq d + 1) (issues_seq d + 1)
              None (CurrentStatus issue) (GoText (GHUpdatedAt issue))
              (SqlText (CURRENT_TIMESTAMP clk))])
  /\
  (forall clk d issue existing,
     select_issue d (RepoID issue) (Number issue) = Some existing ->
     default ""%string (current_status existing) <> CurrentStatus issue ->
     status_transitions (fst (UpsertIssue clk d issue))
       = status_transitions d ++
           [mk_status_transitions_row (status_transitions_seq d + 1) (id existing)
              (nullString (default ""%string (current_status existing)))
              (CurrentStatus issue) (GoText (time_Now clk))
              (SqlText (CURRENT_TIMESTAMP clk))]).
Proof.
  split; [|split].
  - intros clk clk' d issue issue' Hrepo Hnum Hst.
    destruct (select_after_UpsertIssue clk d issue) as (r & Hsel & Hcur).
    apply UpsertIssue_same_status with (r := r); congruence.
  - intros clk d issue Hsel Hne. unfold UpsertIssue. rewrite Hsel. simpl.
    destruct (String.eqb_spec (CurrentStatus issue) ""); [done|]. reflexivity.
  - intros clk d issue existing Hsel Hne. unfold UpsertIssue. rewrite Hsel. simpl.
    destruct (String.eqb_spec (default ""%string (current_status existing))
                              (CurrentStatus issue)); [done|].
    simpl. by rewrite updateStatusTimestamp_ledger.
Qed.

(** ** Lead and cycle time *)

(** A text of either form denotes its instant once the zone suffix is
    stripped. *)
Lemma julianday_REPLACE_zone x :
  julianday dayNumber (REPLACE_zone (Some x)) = Some (dayNumber (instant x)).
Proof. by destruct x. Qed.

(** X1, the cycle-time half of C7.  For a closed issue, RecalcCycleTime
    stores NULL as cycle time when entered_progress_at is NULL, and
    otherwise the hours from entered_progress_at to
    COALESCE(entered_done_at, gh_closed_at) minus
    COALESCE(blocked_time_hours, 0). *)
Lemma RecalcCycleTime_cycle_time d issueID (i : nat) r closed :
  issues d !! i = Some r ->
  id r = issueID ->
  gh_closed_at r = Some closed ->
  exists r',
    issues (RecalcCycleTime dayNumber d issueID) !! i = Some r'
    /\ (entered_progress_at r = None -> cycle_time_hours r' = None)
    /\ (forall progress,
          entered_progress_at r = Some progress ->
          cycle_time_hours r'
          = Some ((dayNumber (instant (default closed (entered_done_at r)))
                   - dayNumber (instant progress)) * 24
                  - default 0 (blocked_time_hours r))%float).
Proof.
  intros Hi Hid Hclosed.
  unfold RecalcCycleTime, sql_update. simpl.
  rewrite list_lookup_fmap, Hi. simpl.
  rewrite Hid, Z.eqb_refl. eexists. split; [reflexivity|]. simpl.
  unfold recalc_cycle_time. rewrite Hclosed. split.
  - by intros ->.
  - intros progress ->.
    replace (negb (IS_NULL (Some progress))
             && (negb (IS_NULL (entered_done_at r)) || negb (IS_NULL (Some closed))))
      with true by (simpl; by rewrite orb_true_r).
    destruct (entered_done_at r) as [finished|]; cbn [COALESCE default];
      rewrite !julianday_REPLACE_zone; cbn [sql_sub sql_mul];
      by destruct (blocked_time_hours r).
Qed.

(** The lead-time half of C7 fails on the code.  The key columns and
    gh_created_at of a row are written once, by the INSERT of UpsertIssue,
    from a Go time; the lead-time expression of RecalcCycleTime hands
    gh_created_at to julianday as it is stored, without the REPLACE calls
    that take the zone suffix off its other operand, so its difference is
    NULL and the stored lead time becomes NULL. *)
Lemma RecalcCycleTime_lead_time_null d issueID (i : nat) r created :
  issues d !! i = Some r ->
  id r = issueID ->
  gh_created_at r = GoText created ->
  exists r',
    issues (RecalcCycleTime dayNumber d issueID) !! i = Some r'
    /\ lead_time_hours r' = None.
Proof.
  intros Hi Hid Hcreated.
  unfold RecalcCycleTime, sql_update. simpl.
  rewrite list_lookup_fmap, Hi. simpl.
  rewrite Hid, Z.eqb_refl. eexists. split; [reflexivity|]. simpl.
  unfold recalc_lead_time. rewrite Hcreated.
  destruct (negb _ || negb _); [|reflexivity].
  by destruct (julianday _ _).
Qed.

(** Every row of a store that is filled through UpsertIssue holds
    gh_created_at in the form the driver writes. *)
Definition created_by_driver (d : DB) : Prop :=
  Forall (fun r => exists created, gh_created_at r = GoText created) (issues d).

Lemma UpsertIssue_created_by_driver clk d issue :
  created_by_driver d -> created_by_driver (fst (UpsertIssue clk d issue)).
Proof.
  unfold created_by_driver, UpsertIssue. intros Hd.
  destruct (select_issue d (RepoID issue) (Number issue)) as [existing|]; simpl.
  - unfold sql_update. apply Forall_fmap.
    assert (Hstamped : Forall (fun r => exists created, gh_created_at r = GoText created)
                         (issues (if negb (String.eqb (default ""%string (current_status existing))
                                                      (CurrentStatus issue))
                                  then updateStatusTimestamp clk
                                         (RecordStatusTransition clk d (id existing)
                                            (default ""%string (current_status existing))
                                            (CurrentStatus issue) (time_Now clk))
                                         (id existing) (CurrentStatus issue)
                                  else d))).
    { destruct (negb _); [|exact Hd]. unfold updateStatusTimestamp.
      destruct (tracked_of _) as [column|]; [|exact Hd]. simpl.
      unfold sql_update. apply Forall_fmap. eapply Forall_impl; [exact Hd|].
      intros r Hr. simpl. by destruct (andb _ _). }
    eapply Forall_impl; [exact Hstamped|].
    intros r Hr. simpl. by destruct (id r =? id existing).
  - assert (Hnew : Forall (fun r => exists created, gh_created_at r = GoText created)
                     (issues d ++ [inserted_row clk (issues_seq d + 1) issue])).
    { apply Forall_app. split; [exact Hd|]. constructor; [|constructor]. by eexists. }
    by destruct (negb _).
Qed.

(** ** Snapshots *)

(** The rows of cfd_data under one UNIQUE key. *)
Definition cfd_has_key (repoID : Z) (day st : string) (r : cfd_data_row) : bool :=
  (cfd_repo_id r =? repoID) && String.eqb (snapshot_date r) day && String.eqb (status r) st.

Definition rows_of (d : DB) (repoID : Z) (day st : string) : list cfd_data_row :=
  List.filter (cfd_has_key repoID day st) (cfd_data d).

(** The UNIQUE constraint, as a property of the table. *)
Definition cfd_unique (d : DB) : Prop :=
  forall repoID day st, (length (rows_of d repoID day st) <= 1)%nat.

Lemma cfd_has_key_eq repoID day st repoID' day' st' r :
  cfd_has_key repoID day st r = true ->
  cfd_has_key repoID' day' st' r = true ->
  repoID = repoID' /\ day = day' /\ st = st'.
Proof.
  unfold cfd_has_key. intros H H'.
  apply andb_prop in H as [H H3]. apply andb_prop in H as [H1 H2].
  apply andb_prop in H' as [H' H3']. apply andb_prop in H' as [H1' H2'].
  apply Z.eqb_eq in H1, H1'. apply String.eqb_eq in H2, H2', H3, H3'.
  repeat split; congruence.
Qed.

Lemma cfd_has_key_refl written new_id repoID day st n :
  cfd_has_key repoID day st (mk_cfd_data_row new_id repoID day st n written) = true.
Proof. unfold cfd_has_key. simpl. by rewrite Z.eqb_refl, !String.eqb_refl. Qed.

Lemma filter_filter_negb {A} (p : A -> bool) (l : list A) :
  List.filter p (List.filter (fun a => negb (p a)) l) = [].
Proof.
  induction l as [|a l IH]; simpl; [reflexivity|].
  destruct (p a) eqn:Hp; simpl; [apply IH|]. by rewrite Hp.
Qed.

Lemma filter_filter_other {A} (p q : A -> bool) (l : list A) :
  (forall a, q a = true -> p a = false) ->
  List.filter q (List.filter (fun a => negb (p a)) l) = List.filter q l.
Proof.
  intros Hpq. induction l as [|a l IH]; simpl; [reflexivity|].
  destruct (p a) eqn:Hp; simpl.
  - destruct (q a) eqn:Hq; [|apply IH]. apply Hpq in Hq. congruence.
  - destruct (q a); by rewrite IH.
Qed.

Lemma insert_rows_same clk d repoID day st n :
  rows_of (insert_or_replace_cfd clk d repoID day st n) repoID day st
  = [mk_cfd_data_row (cfd_data_seq d + 1) repoID day st n
       (SqlText (CURRENT_TIMESTAMP clk))].
Proof.
  unfold rows_of, insert_or_replace_cfd. simpl.
  rewrite List.filter_app. fold (cfd_has_key repoID day st).
  rewrite (filter_filter_negb (cfd_has_key repoID day st)). simpl.
  by rewrite cfd_has_key_refl.
Qed.

Lemma insert_rows_other clk d repoID day st n repoID' day' st' :
  (repoID', day', st') <> (repoID, day, st) ->
  rows_of (insert_or_replace_cfd clk d repoID day st n) repoID' day' st'
  = rows_of d repoID' day' st'.
Proof.
  intros Hne. unfold rows_of, insert_or_replace_cfd. simpl.
  rewrite List.filter_app. fold (cfd_has_key repoID day st).
  rewrite (filter_filter_other (cfd_has_key repoID day st)).
  - simpl. destruct (cfd_has_key repoID' day' st' _) eqn:Hk; [|by rewrite app_nil_r].
    exfalso. apply Hne.
    pose proof (cfd_has_key_refl (SqlText (CURRENT_TIMESTAMP clk)) (cfd_data_seq d + 1)
                  repoID day st n) as Hk'.
    destruct (cfd_has_key_eq _ _ _ _ _ _ _ Hk Hk') as (-> & -> & ->). reflexivity.
  - intros r Hq. destruct (cfd_has_key repoID day st r) eqn:Hp; [|reflexivity].
    exfalso. apply Hne.
    destruct (cfd_has_key_eq _ _ _ _ _ _ _ Hq Hp) as (-> & -> & ->). reflexivity.
Qed.

Lemma SaveCFDSnapshot_rows_other clk repoID date counts repoID' day' st' : forall d,
  (repoID' = repoID -> day' = formatDate date -> st' ∉ counts.*1) ->
  rows_of (SaveCFDSnapshot formatDate clk d repoID date counts) repoID' day' st'
  = rows_of d repoID' day' st'.
Proof.
  unfold SaveCFDSnapshot.
  induction counts as [|[st n] counts IH]; intros d Hnot; simpl; [reflexivity|].
  rewrite IH.
  - apply insert_rows_other. intros [= -> -> ->].
    apply (Hnot eq_refl eq_refl). simpl. apply elem_of_cons. by left.
  - intros H1 H2 Hin. apply (Hnot H1 H2). simpl. apply elem_of_cons. by right.
Qed.

Lemma SaveCFDSnapshot_rows_written clk repoID date counts st n : forall d,
  NoDup (counts.*1) ->
  (st, n) ∈ counts ->
  cumulative_count <$> rows_of (SaveCFDSnapshot formatDate clk d repoID date counts)
                               repoID (formatDate date) st
  = [n].
Proof.
  unfold SaveCFDSnapshot.
  induction counts as [|[st0 n0] counts IH]; intros d Hnd Hin; simpl.
  - by apply elem_of_nil in Hin.
  - simpl in Hnd. apply NoDup_cons in Hnd as [Hnotin Hnd].
    apply elem_of_cons in Hin as [[= -> ->]|Hin].
    + fold (SaveCFDSnapshot formatDate clk
              (insert_or_replace_cfd clk d repoID (formatDate date) st0 n0) repoID date counts).
      rewrite SaveCFDSnapshot_rows_other by auto.
      by rewrite insert_rows_same.
    + by apply IH.
Qed.

Lemma SaveCFDSnapshot_unique clk repoID date counts d :
  NoDup (counts.*1) ->
  cfd_unique d ->
  cfd_unique (SaveCFDSnapshot formatDate clk d repoID date counts).
Proof.
  intros Hnd Huniq repoID' day' st'.
  destruct (decide (repoID' = repoID /\ day' = formatDate date /\ st' ∈ counts.*1))
    as [(-> & -> & Hin)|Hno].
  - apply list_elem_of_fmap in Hin as ([st n] & -> & Hin). simpl.
    pose proof (SaveCFDSnapshot_rows_written clk repoID date counts st n d Hnd Hin) as Hrows.
    apply (f_equal length) in Hrows. rewrite length_fmap in Hrows. simpl in Hrows. lia.
  - rewrite SaveCFDSnapshot_rows_other; [apply Huniq|].
    intros -> -> Hin. apply Hno. auto.
Qed.

(** C8.  After two calls of SaveCFDSnapshot for one repository and two
    dates of the same calendar day, whatever the table held before and in
    whatever order the two maps were ranged over: a status of the second
    map has exactly one row under (repository, day, status), holding the
    count of the second call; a status of the first map only has exactly
    one row, holding the count of the first call; and a table that
    satisfied the UNIQUE constraint satisfies it still. *)
Theorem SaveCFDSnapshot_twice_last_write_wins :
  forall clk1 clk2 d repoID date1 date2 (counts1 counts2 : list (string * Z)),
    formatDate date1 = formatDate date2 ->
    NoDup (counts1.*1) ->
    NoDup (counts2.*1) ->
    let d2 := SaveCFDSnapshot formatDate clk2
                (SaveCFDSnapshot formatDate clk1 d repoID date1 counts1)
                repoID date2 counts2 in
    (forall st n, (st, n) ∈ counts2 ->
       cumulative_count <$> rows_of d2 repoID (formatDate date2) st = [n])
    /\ (forall st n, st ∉ counts2.*1 -> (st, n) ∈ counts1 ->
       cumulative_count <$> rows_of d2 repoID (formatDate date2) st = [n])
    /\ (cfd_unique d -> cfd_unique d2).
Proof.
  intros clk1 clk2 d repoID date1 date2 counts1 counts2 Hday Hnd1 Hnd2 d2.
  split; [|split].
  - intros st n Hin. by apply SaveCFDSnapshot_rows_written.
  - intros st n Hnotin Hin. subst d2.
    rewrite SaveCFDSnapshot_rows_other by auto.
    rewrite <- Hday. by apply SaveCFDSnapshot_rows_written.
  - intros Huniq. subst d2. by repeat apply SaveCFDSnapshot_unique.
Qed.

End StoreProperties.

(** ** The store on a small history *)

Module StoreExamples.
Import db.

(** Instants by the hour, a clock that reads [h] hours, SQLite's day
    number and the calendar day of an instant in UTC. *)
Definition hour (h : Z) : Timestamp := h * Hour.
Definition clock_at (h : Z) : Clock := mkClock (hour h) (hour h).
Definition dayNumber_utc (t : Timestamp) : float :=
  (1721425.5 + float64_of_int t / 86400000000000)%float.
Definition day_utc (t : Timestamp) : string := Sprintf_d (t / (24 * Hour)).

(** Issue 42 of repository 1 as three successive syncs fetch it: in the
    backlog, then in progress, then closed. *)
Definition fetched (st state_ : string) (updated : Z) (closed : option Timestamp)
    (lead : float) : Issue :=
  mkIssue 0 1 42 "Fix login" state_ (hour 0) (hour updated) closed
          st "high" "" "" false "ana" None None None None None lead 0 0.

Definition issue_backlog : Issue := fetched "backlog" "open" 1 None 0.
Definition issue_in_progress : Issue := fetched "in-progress" "open" 6 None 0.
Definition issue_closed : Issue := fetched "done" "closed" 48 (Some (hour 48)) 48.

Definition after_first_sync : DB := fst (UpsertIssue (clock_at 5) emptyDB issue_backlog).
Definition after_second_sync : DB :=
  fst (UpsertIssue (clock_at 24) after_first_sync issue_in_progress).
Definition after_third_sync : DB :=
  fst (UpsertIssue (clock_at 72) after_second_sync issue_closed).

(** C1, the claim as stated fails: the second sync stamps
    entered_progress_at with its own clock, 24h; a timeline that dates
    the label at 6h then replaces the stored value through
    UpdateIssueTimestamps. *)
Lemma timeline_backfill_overwrites_set_column :
  entered InProgress <$> issues after_second_sync !! 0%nat
    = Some (Some (SqlText (hour 24)))
  /\ entered InProgress <$>
       issues (UpdateIssueTimestamps (clock_at 25) after_second_sync 1
                 None (Some (hour 6)) None None None) !! 0%nat
     = Some (Some (GoText (hour 6)))
  /\ hour 6 <> hour 24.
Proof. repeat split; try reflexivity. discriminate. Qed.

Lemma entered_at_kept_witness :
  table_kept (issues after_second_sync)
    (issues (fold_left (run dayNumber_utc day_utc)
               [OpUpsertIssue (clock_at 72) issue_closed;
                OpRecalcCycleTime 1;
                OpUpdateIssueBlockedTime 1 3;
                OpSaveCFDSnapshot (clock_at 73) 1 (hour 73) [("done"%string, 1)]]
               after_second_sync))
  /\ exists r',
       issues (UpdateIssueTimestamps (clock_at 25) after_second_sync 1
                 None (Some (hour 6)) None None None) !! 0%nat = Some r'
       /\ entered InProgress r' = Some (GoText (hour 6))
       /\ entered Ready r' = None.
Proof.
  destruct (entered_at_kept_except_timeline_backfill dayNumber_utc day_utc) as [Hkept Hfill].
  split.
  - apply Hkept. reflexivity.
  - destruct (Hfill (clock_at 25) after_second_sync 1 None (Some (hour 6)) None None None
                    0%nat _ eq_refl) as (r' & Hr' & _ & Hcols).
    exists r'. split; [exact Hr'|]. split.
    + rewrite (Hcols InProgress). reflexivity.
    + rewrite (Hcols Ready). reflexivity.
Defined.

Lemma UpsertIssue_ledger_witness :
  status_transitions (fst (UpsertIssue (clock_at 6) after_first_sync issue_backlog))
    = status_transitions after_first_sync
  /\ status_transitions after_first_sync
     = [mk_status_transitions_row 1 1 None "backlog" (GoText (hour 1)) (SqlText (hour 5))]
  /\ status_transitions after_second_sync
     = [mk_status_transitions_row 1 1 None "backlog" (GoText (hour 1)) (SqlText (hour 5));
        mk_status_transitions_row 2 1 (Some "backlog"%string) "in-progress"
          (GoText (hour 24)) (SqlText (hour 24))].
Proof.
  destruct UpsertIssue_ledger as (Hsame & Hnew & Hchange).
  split; [|split].
  - apply (Hsame (clock_at 5) (clock_at 6) emptyDB issue_backlog issue_backlog); reflexivity.
  - apply (Hnew (clock_at 5) emptyDB issue_backlog); [reflexivity | discriminate].
  - unfold after_second_sync.
    rewrite (Hchange (clock_at 24) after_first_sync issue_in_progress _ eq_refl);
      [reflexivity | discriminate].
Defined.

(** C7, on the code: issue 42, created at 0h and closed at 48h, is
    synced three times and RecalcCycleTime is run as the sync does for a
    closed issue.  The cycle time comes out as the 48 hours from the stamp
    of in-progress (24h) to the stamp of done (72h); the lead time, which
    the third sync had stored as 48 hours, is replaced by NULL. *)
Theorem RecalcCycleTime_nulls_lead_time_of_synced_issue :
  lead_time_hours <$> issues after_third_sync !! 0%nat = Some (Some 48%float)
  /\ lead_time_hours <$> issues (RecalcCycleTime dayNumber_utc after_third_sync 1) !! 0%nat
     = Some None
  /\ cycle_time_hours <$> issues (RecalcCycleTime dayNumber_utc after_third_sync 1) !! 0%nat
     = Some (Some 48%float).
Proof. repeat split; vm_compute; reflexivity. Qed.

Lemma SaveCFDSnapshot_twice_witness :
  let d2 := SaveCFDSnapshot day_utc (clock_at 80)
              (SaveCFDSnapshot day_utc (clock_at 73) after_third_sync 1 (hour 73)
                 [("done"%string, 1); ("review"%string, 4)])
              1 (hour 80) [("review"%string, 5); ("done"%string, 2)] in
  cumulative_count <$> rows_of d2 1 (day_utc (hour 80)) "review" = [5]
  /\ cumulative_count <$> rows_of d2 1 (day_utc (hour 80)) "done" = [2]
  /\ length (cfd_data d2) = 2%nat.
Proof.
  destruct (SaveCFDSnapshot_twice_last_write_wins day_utc (clock_at 73) (clock_at 80)
              after_third_sync 1 (hour 73) (hour 80)
              [("done"%string, 1); ("review"%string, 4)]
              [("review"%string, 5); ("done"%string, 2)])
    as (Hsecond & _ & _).
  - reflexivity.
  - simpl. apply (bool_decide_unpack (NoDup _)). vm_compute. exact I.
  - simpl. apply (bool_decide_unpack (NoDup _)). vm_compute. exact I.
  - split; [|split].
    + apply Hsecond. apply elem_of_cons. by left.
    + apply Hsecond. apply elem_of_cons. right. apply elem_of_cons. by left.
    + reflexivity.
Defined.

End StoreExamples.

(* ===================================================================== *)
(** * Properties of the timeline resolver *)
(* ===================================================================== *)

Section TimelineProperties.

Import github.

(** The event adds a status label that names [status]. *)
Definition entersStatus (status : string) (e : RawEvent) : bool :=
  match rawLabel e with
  | Some name =>
      String.eqb (rawEvent e) "labeled" && HasPrefix (ToLower name) "status:"
      && String.eqb (extractStatus name) status
  | None => false
  end.

(** The time of the first event that adds the status, if any. *)
Definition firstEntered (status : string) (rawEvents : list RawEvent) : option Timestamp :=
  rawCreatedAt <$> List.find (entersStatus status) rawEvents.

(** The event adds or removes the label "blocked". *)
Definition blocks (e : RawEvent) : bool :=
  match rawLabel e with
  | Some name => String.eqb (rawEvent e) "labeled" && String.eqb (ToLower name) "blocked"
  | None => false
  end.

Definition unblocks (e : RawEvent) : bool :=
  match rawLabel e with
  | Some name => String.eqb (rawEvent e) "unlabeled" && String.eqb (ToLower name) "blocked"
  | None => false
  end.

(** The start of the interval the event list leaves open: the time of
    the last event on the label "blocked" when that event adds it, and the
    zero time otherwise. *)
Definition openSince (rawEvents : list RawEvent) : Timestamp :=
  match List.find (fun e => blocks e || unblocks e) (rev rawEvents) with
  | Some e => if blocks e then rawCreatedAt e else zeroTime
  | None => zeroTime
  end.

(** The labelled events, as the result lists them. *)
Definition labelled (e : RawEvent) : option TimelineEvent :=
  (fun name => mkTimelineEvent (rawEvent e) name (rawCreatedAt e)) <$> rawLabel e.

(** The sum of the durations, accumulated in the order of the list. *)
Definition totalDuration (periods : list BlockedPeriod) : float :=
  fold_left (fun total p => (total + Duration p)%float) periods 0%float.

(** A closed interval: it starts at a non-zero time and lasts from its
    start to its end. *)
Definition closedPeriod (p : BlockedPeriod) : Prop :=
  IsZero (Start p) = false /\ Duration p = Hours (Sub (End p) (Start p)).

Lemma timelineStep_labelled result blockedStart e :
  Events (fst (timelineStep (result, blockedStart) e))
  = Events result ++ option_list (labelled e).
Proof.
  unfold timelineStep, labelled. destruct (rawLabel e) as [name|]; simpl.
  - by destruct (_ && negb _).
  - by rewrite app_nil_r.
Qed.

Lemma timelineStep_status result blockedStart e status :
  StatusChanges (fst (timelineStep (result, blockedStart) e)) !! status
  = match StatusChanges result !! status with
    | Some t => Some t
    | None => if entersStatus status e then Some (rawCreatedAt e) else None
    end.
Proof.
  unfold timelineStep, entersStatus. destruct (rawLabel e) as [name|]; simpl.
  - assert (forall (sc : gmap string Timestamp) a b c d bs,
              StatusChanges (fst (if (a : bool)
                                  then (mkTimelineResult b sc c d, zeroTime)
                                  else (mkTimelineResult b sc (BlockedPeriods result)
                                          (TotalBlocked result), bs))) = sc) as Hproj
      by (by intros sc []).
    rewrite Hproj. clear Hproj.
    destruct (String.eqb (rawEvent e) "labeled" && HasPrefix (ToLower name) "status:"); simpl.
    + destruct (StatusChanges result !! extractStatus name) as [t0|] eqn:Hold.
      * destruct (StatusChanges result !! status) as [t|] eqn:Hs; [reflexivity|].
        destruct (String.eqb_spec (extractStatus name) status); [congruence | reflexivity].
      * rewrite lookup_insert.
        destruct (String.eqb_spec (extractStatus name) status) as [Heq|Hne].
        -- rewrite decide_True by done. rewrite Heq in Hold. by rewrite Hold.
        -- rewrite decide_False by done. by destruct (StatusChanges result !! status).
    + by destruct (StatusChanges result !! status).
  - by destruct (StatusChanges result !! status).
Qed.

Lemma timelineStep_blockedStart result blockedStart e :
  snd (timelineStep (result, blockedStart) e)
  = if blocks e then rawCreatedAt e
    else if unblocks e then zeroTime
    else blockedStart.
Proof.
  unfold timelineStep, blocks, unblocks. destruct (rawLabel e) as [name|]; simpl; [|reflexivity].
  destruct (String.eqb_spec (rawEvent e) "labeled") as [Hl|Hl]; simpl.
  - rewrite Hl. simpl. by destruct (String.eqb (ToLower name) "blocked").
  - destruct (String.eqb (rawEvent e) "unlabeled"); simpl; [|reflexivity].
    destruct (String.eqb (ToLower name) "blocked"); simpl; [|reflexivity].
    unfold IsZero, zeroTime. destruct (Z.eqb_spec blockedStart 0); simpl; congruence.
Qed.

Lemma walk_labelled rawEvents : forall st,
  Events (fst (fold_left timelineStep rawEvents st))
  = Events (fst st) ++ omap labelled rawEvents.
Proof.
  induction rawEvents as [|e l IH]; intros [result blockedStart]; cbn [fold_left].
  - simpl. by rewrite app_nil_r.
  - rewrite IH, timelineStep_labelled. cbn [fst omap list_omap].
    destruct (labelled e); simpl; by rewrite <- app_assoc.
Qed.

Lemma walk_status status rawEvents : forall st,
  StatusChanges (fst (fold_left timelineStep rawEvents st)) !! status
  = match StatusChanges (fst st) !! status with
    | Some t => Some t
    | None => firstEntered status rawEvents
    end.
Proof.
  unfold firstEntered.
  induction rawEvents as [|e l IH]; intros [result blockedStart]; cbn [fold_left].
  - simpl. by destruct (StatusChanges result !! status).
  - rewrite IH, timelineStep_status. cbn [fst List.find].
    destruct (StatusChanges result !! status); [reflexivity|].
    by destruct (entersStatus status e).
Qed.

Lemma walkTimeline_snoc rawEvents e :
  walkTimeline (rawEvents ++ [e]) = timelineStep (walkTimeline rawEvents) e.
Proof. unfold walkTimeline. by rewrite fold_left_app. Qed.

Lemma walk_openSince rawEvents : snd (walkTimeline rawEvents) = openSince rawEvents.
Proof.
  induction rawEvents as [|e l IH] using rev_ind; [reflexivity|].
  rewrite walkTimeline_snoc. destruct (walkTimeline l) as [result blockedStart].
  rewrite timelineStep_blockedStart. simpl in IH. subst blockedStart.
  unfold openSince. rewrite rev_app_distr. cbn [rev app List.find]. cbv beta.
  destruct (blocks e) eqn:Hb; simpl; [by rewrite Hb|].
  destruct (unblocks e); simpl; [by rewrite Hb | reflexivity].
Qed.

Lemma totalDuration_snoc periods p :
  totalDuration (periods ++ [p]) = (totalDuration periods + Duration p)%float.
Proof. unfold totalDuration. by rewrite fold_left_app. Qed.

(** What the walk maintains: every recorded interval is closed, and the
    running total is the sum of their durations. *)
Definition ledger_ok (result : TimelineResult) : Prop :=
  Forall closedPeriod (BlockedPeriods result)
  /\ TotalBlocked result = totalDuration (BlockedPeriods result).

Lemma timelineStep_ledger_ok result blockedStart e :
  ledger_ok result -> ledger_ok (fst (timelineStep (result, blockedStart) e)).
Proof.
  intros [Hclosed Htotal]. unfold timelineStep.
  destruct (rawLabel e) as [name|]; simpl; [|by split].
  destruct (_ && negb _) eqn:Hcond; simpl; [|by split].
  apply andb_prop in Hcond as [_ Hnz]. apply negb_true_iff in Hnz.
  split; simpl.
  - apply Forall_app. split; [done|]. constructor; [|constructor]. by split.
  - rewrite totalDuration_snoc. simpl. by rewrite Htotal.
Qed.

Lemma walk_ledger_ok rawEvents : ledger_ok (fst (walkTimeline rawEvents)).
Proof.
  induction rawEvents as [|e l IH] using rev_ind.
  - split; [constructor | reflexivity].
  - rewrite walkTimeline_snoc. destruct (walkTimeline l) as [result blockedStart].
    by apply timelineStep_ledger_ok.
Qed.

(** The interval a removal of the label "blocked" closes: it runs from
    the start of the interval the events before the removal leave open
    (the last addition of the label, with no removal after it) to the
    removal.  A removal that meets no open interval closes nothing. *)
Definition closesAt (rawEvents : list RawEvent) (k : nat) : list BlockedPeriod :=
  match rawEvents !! k with
  | Some e =>
      let start := openSince (take k rawEvents) in
      if unblocks e && negb (IsZero start)
      then [mkBlockedPeriod start (rawCreatedAt e) (Hours (Sub (rawCreatedAt e) start))]
      else []
  | None => []
  end.

(** The closed intervals of an event list, in the order of the removals
    that close them. *)
Definition closedIntervals (rawEvents : list RawEvent) : list BlockedPeriod :=
  flat_map (closesAt rawEvents) (seq 0 (length rawEvents)).

Lemma timelineStep_periods result blockedStart e :
  BlockedPeriods (fst (timelineStep (result, blockedStart) e))
  = BlockedPeriods result
    ++ (if unblocks e && negb (IsZero blockedStart)
        then [mkBlockedPeriod blockedStart (rawCreatedAt e)
                (Hours (Sub (rawCreatedAt e) blockedStart))]
        else []).
Proof.
  unfold timelineStep, unblocks.
  destruct (rawLabel e) as [name|]; simpl; [|by rewrite app_nil_r].
  destruct (String.eqb_spec (rawEvent e) "labeled") as [Hl|Hl]; simpl.
  - rewrite Hl. simpl. destruct (String.eqb (ToLower name) "blocked"); simpl;
      by rewrite app_nil_r.
  - destruct (String.eqb (rawEvent e) "unlabeled" && String.eqb (ToLower name) "blocked"
              && negb (IsZero blockedStart)); simpl; [reflexivity | by rewrite app_nil_r].
Qed.

Lemma closedIntervals_snoc rawEvents e :
  closedIntervals (rawEvents ++ [e])
  = closedIntervals rawEvents
    ++ (if unblocks e && negb (IsZero (openSince rawEvents))
        then [mkBlockedPeriod (openSince rawEvents) (rawCreatedAt e)
                (Hours (Sub (rawCreatedAt e) (openSince rawEvents)))]
        else []).
Proof.
  unfold closedIntervals.
  rewrite length_app. simpl length. rewrite Nat.add_1_r, seq_S, flat_map_app. simpl.
  rewrite app_nil_r. f_equal.
  - rewrite !flat_map_concat_map. f_equal. apply map_ext_in.
    intros k Hk. apply in_seq in Hk. unfold closesAt.
    rewrite lookup_app_l by lia. by rewrite take_app_le by lia.
  - unfold closesAt. rewrite list_lookup_middle by reflexivity.
    by rewrite take_app_length.
Qed.

Lemma walk_closedIntervals rawEvents :
  BlockedPeriods (fst (walkTimeline rawEvents)) = closedIntervals rawEvents.
Proof.
  induction rawEvents as [|e l IH] using rev_ind; [reflexivity|].
  rewrite walkTimeline_snoc, closedIntervals_snoc, <- IH, <- walk_openSince.
  destruct (walkTimeline l) as [result blockedStart]. apply timelineStep_periods.
Qed.

(** GetIssueTimeline in terms of the walk and of the interval left open. *)
Lemma GetIssueTimeline_unfold now rawEvents :
  GetIssueTimeline now rawEvents
  = let result := fst (walkTimeline rawEvents) in
    if IsZero (openSince rawEvents) then result
    else mkTimelineResult (Events result) (StatusChanges result)
           (BlockedPeriods result
              ++ [mkBlockedPeriod (openSince rawEvents) zeroTime
                    (Hours (Sub now (openSince rawEvents)))])
           (TotalBlocked result + Hours (Sub now (openSince rawEvents)))%float.
Proof.
  unfold GetIssueTimeline. rewrite <- walk_openSince.
  destruct (walkTimeline rawEvents) as [result blockedStart]. simpl.
  by destruct (IsZero blockedStart).
Qed.

(** C9 (as amended).  The result of GetIssueTimeline is determined by
    the event list and by the clock reading taken when the walk ends.
    Independent of the clock: the status map holds, for each status, the
    time of the first event that adds a label of that status; the listed
    events are the labelled events in order; the total is the sum of the
    durations of the listed intervals.  When the list leaves no interval
    open (its last event on the label "blocked", if any, removes it), the
    whole result is the same at every clock reading and every interval is
    a closed one.  When it leaves one open, the result lists the closed
    intervals followed by the open one, whose end is the zero time and
    whose duration is measured against the clock.  The closed intervals
    are those of the events on the label "blocked", at every clock
    reading: one for each removal of the label that meets an open
    interval, from the last addition of the label before it to the
    removal, in the order of the removals. *)
Theorem GetIssueTimeline_events_and_clock :
  (forall now rawEvents status,
     StatusChanges (GetIssueTimeline now rawEvents) !! status
     = firstEntered status rawEvents)
  /\ (forall now rawEvents,
        Events (GetIssueTimeline now rawEvents) = omap labelled rawEvents)
  /\ (forall now rawEvents,
        TotalBlocked (GetIssueTimeline now rawEvents)
        = totalDuration (BlockedPeriods (GetIssueTimeline now rawEvents)))
  /\ (forall now1 now2 rawEvents,
        openSince rawEvents = zeroTime ->
        GetIssueTimeline now1 rawEvents = GetIssueTimeline now2 rawEvents
        /\ Forall closedPeriod (BlockedPeriods (GetIssueTimeline now1 rawEvents)))
  /\ (forall rawEvents,
        openSince rawEvents <> zeroTime ->
        exists closed,
          Forall closedPeriod closed
          /\ forall now,
               BlockedPeriods (GetIssueTimeline now rawEvents)
               = closed ++ [mkBlockedPeriod (openSince rawEvents) zeroTime
                              (Hours (Sub now (openSince rawEvents)))])
  /\ (forall now rawEvents,
        BlockedPeriods (GetIssueTimeline now rawEvents)
        = closedIntervals rawEvents
          ++ (if IsZero (openSince rawEvents) then []
              else [mkBlockedPeriod (openSince rawEvents) zeroTime
                      (Hours (Sub now (openSince rawEvents)))]))
  /\ (forall before e,
        closedIntervals (before ++ [e])
        = closedIntervals before
          ++ (if unblocks e && negb (IsZero (openSince before))
              then [mkBlockedPeriod (openSince before) (rawCreatedAt e)
                      (Hours (Sub (rawCreatedAt e) (openSince before)))]
              else [])).
Proof.
  split; [|split; [|split; [|split; [|split; [|split]]]]].
  - intros now rawEvents status. rewrite GetIssueTimeline_unfold. simpl.
    transitivity (StatusChanges (fst (walkTimeline rawEvents)) !! status).
    + by destruct (IsZero (openSince rawEvents)).
    + unfold walkTimeline. rewrite walk_status. simpl. by rewrite lookup_empty.
  - intros now rawEvents. rewrite GetIssueTimeline_unfold. simpl.
    transitivity (Events (fst (walkTimeline rawEvents))).
    + by destruct (IsZero (openSince rawEvents)).
    + unfold walkTimeline. by rewrite walk_labelled.
  - intros now rawEvents. rewrite GetIssueTimeline_unfold. simpl.
    destruct (walk_ledger_ok rawEvents) as [_ Htotal].
    destruct (IsZero (openSince rawEvents)); simpl; [done|].
    rewrite totalDuration_snoc. simpl. by rewrite Htotal.
  - intros now1 now2 rawEvents Hnone.
    rewrite !GetIssueTimeline_unfold. simpl. rewrite Hnone. simpl.
    split; [reflexivity | apply walk_ledger_ok].
  - intros rawEvents Hopen. exists (BlockedPeriods (fst (walkTimeline rawEvents))).
    split; [apply walk_ledger_ok|]. intros now.
    rewrite GetIssueTimeline_unfold. simpl.
    unfold IsZero, zeroTime in *. by destruct (Z.eqb_spec (openSince rawEvents) 0).
  - intros now rawEvents. rewrite GetIssueTimeline_unfold. simpl.
    rewrite <- walk_closedIntervals.
    destruct (IsZero (openSince rawEvents)); simpl; [by rewrite app_nil_r | reflexivity].
  - exact closedIntervals_snoc.
Qed.

End TimelineProperties.

(** ** The resolver on a small timeline *)

Module TimelineExamples.
Import github.
Import StoreExamples.

(** An issue that is marked ready at 1h, blocked from 2h to 4h, marked
    ready a second time at 5h, and blocked again at 6h; the event at 3h
    carries no label. *)
Definition unblocked_timeline : list RawEvent :=
  [mkRawEvent "labeled" (hour 1) (Some "Status: Ready"%string);
   mkRawEvent "labeled" (hour 2) (Some "blocked"%string);
   mkRawEvent "assigned" (hour 3) None;
   mkRawEvent "unlabeled" (hour 4) (Some "Blocked"%string);
   mkRawEvent "labeled" (hour 5) (Some "status: ready"%string)].

Definition blocked_timeline : list RawEvent :=
  unblocked_timeline ++ [mkRawEvent "labeled" (hour 6) (Some "blocked"%string)].

(** C9, the claim as stated fails: over one and the same event list
    that ends while the issue is blocked, a run at 8h and a run at 10h
    report different total blocked hours. *)
Lemma still_blocked_total_depends_on_clock :
  TotalBlocked (GetIssueTimeline (hour 8) blocked_timeline) = 4%float
  /\ TotalBlocked (GetIssueTimeline (hour 10) blocked_timeline) = 6%float
  /\ GetIssueTimeline (hour 8) blocked_timeline
     <> GetIssueTimeline (hour 10) blocked_timeline.
Proof.
  split; [vm_compute; reflexivity|]. split; [vm_compute; reflexivity|].
  intros Heq.
  apply (f_equal (fun result => PrimFloat.eqb (TotalBlocked result) 4)) in Heq.
  vm_compute in Heq. discriminate.
Qed.

Lemma GetIssueTimeline_witness :
  StatusChanges (GetIssueTimeline (hour 8) blocked_timeline) !! "ready"%string
    = Some (hour 1)
  /\ GetIssueTimeline (hour 8) unblocked_timeline
     = GetIssueTimeline (hour 10) unblocked_timeline
  /\ (exists closed,
        Forall closedPeriod closed
        /\ BlockedPeriods (GetIssueTimeline (hour 8) blocked_timeline)
           = closed ++ [mkBlockedPeriod (hour 6) zeroTime 2%float])
  /\ BlockedPeriods (GetIssueTimeline (hour 8) unblocked_timeline)
     = [mkBlockedPeriod (hour 2) (hour 4) 2%float]
  /\ BlockedPeriods (GetIssueTimeline (hour 8) blocked_timeline)
     = [mkBlockedPeriod (hour 2) (hour 4) 2%float;
        mkBlockedPeriod (hour 6) zeroTime 2%float].
Proof.
  destruct GetIssueTimeline_events_and_clock
    as (Hstatus & _ & _ & Hclosed & Hopen & Hperiods & _).
  split; [|split; [|split; [|split]]].
  - rewrite Hstatus. reflexivity.
  - apply (Hclosed (hour 8) (hour 10) unblocked_timeline). reflexivity.
  - destruct (Hopen blocked_timeline) as (closed & Hall & Hlisted).
    + vm_compute. discriminate.
    + exists closed. split; [exact Hall|]. rewrite Hlisted. reflexivity.
  - rewrite Hperiods. reflexivity.
  - rewrite Hperiods. reflexivity.
Defined.

End TimelineExamples.

(* ===================================================================== *)
(** * The order of float64 and sort.Float64s *)
(* ===================================================================== *)

Section Float64Order.

(** A float64 value as a point of the lexicographic order on triples of
    integers: NaN first, then the negative infinity, the negative finite
    values, the zeros, the positive finite values, the positive infinity. *)
Definition rank (f : spec_float) : Z * Z * Z :=
  match f with
  | S754_nan => (-3, 0, 0)
  | S754_infinity true => (-2, 0, 0)
  | S754_finite true m e => (-1, - e, - Z.pos m)
  | S754_zero _ => (0, 0, 0)
  | S754_finite false m e => (1, e, Z.pos m)
  | S754_infinity false => (2, 0, 0)
  end.

Definition lex_ltb (a b : Z * Z * Z) : bool :=
  let '(a1, a2, a3) := a in
  let '(b1, b2, b3) := b in
  (a1 <? b1) || ((a1 =? b1) && ((a2 <? b2) || ((a2 =? b2) && (a3 <? b3)))).

Definition rank64 (x : float) : Z * Z * Z := rank (Prim2SF x).

(** [a] may stand before [b] in an increasing slice: [b] is not less. *)
Definition notAfter (a b : float) : Prop := lessFloat64 b a = false.

Lemma lex_ltb_lt a1 a2 a3 b1 b2 b3 :
  lex_ltb (a1, a2, a3) (b1, b2, b3) = true
  <-> a1 < b1 \/ (a1 = b1 /\ (a2 < b2 \/ (a2 = b2 /\ a3 < b3))).
Proof.
  unfold lex_ltb.
  rewrite !orb_true_iff, !andb_true_iff, !orb_true_iff, !andb_true_iff.
  rewrite !Z.ltb_lt, !Z.eqb_eq. tauto.
Qed.

Lemma lex_ltb_asym a b : lex_ltb a b = true -> lex_ltb b a = false.
Proof.
  destruct a as [[a1 a2] a3], b as [[b1 b2] b3]. intros H.
  apply lex_ltb_lt in H. apply not_true_iff_false. rewrite lex_ltb_lt. lia.
Qed.

Lemma lex_ltb_irrefl a : lex_ltb a a = false.
Proof.
  destruct a as [[a1 a2] a3]. apply not_true_iff_false. rewrite lex_ltb_lt. lia.
Qed.

Lemma lex_ltb_negtrans a b c :
  lex_ltb b a = false -> lex_ltb c b = false -> lex_ltb c a = false.
Proof.
  destruct a as [[a1 a2] a3], b as [[b1 b2] b3], c as [[c1 c2] c3].
  rewrite <- !not_true_iff_false, !lex_ltb_lt. lia.
Qed.

Lemma SFltb_rank f1 f2 :
  f1 <> S754_nan -> f2 <> S754_nan ->
  SFltb f1 f2 = lex_ltb (rank f1) (rank f2).
Proof.
  intros H1 H2.
  destruct f1 as [s1|s1| |s1 m1 e1], f2 as [s2|s2| |s2 m2 e2]; try congruence;
    try (by destruct s1, s2).
  destruct s1, s2; try reflexivity; unfold SFltb, SFcompare, rank, lex_ltb.
  - unfold Z.ltb. rewrite !Z.eqb_compare, !Z.compare_opp, (Z.compare_antisym e1 e2). simpl.
    rewrite (Pos.compare_antisym m1 m2).
    change (PosDef.Pos.compare_cont Eq m1 m2) with (Pos.compare m1 m2).
    destruct (e1 ?= e2); simpl; try reflexivity;
      by destruct (Pos.compare m1 m2).
  - unfold Z.ltb. rewrite !Z.eqb_compare. simpl.
    change (PosDef.Pos.compare_cont Eq m1 m2) with (Pos.compare m1 m2).
    destruct (e1 ?= e2); simpl; try reflexivity;
      by destruct (Pos.compare m1 m2).
Qed.

Lemma SFeqb_refl f : SFeqb f f = match f with S754_nan => false | _ => true end.
Proof.
  destruct f as [s|s| |s m e]; try reflexivity; try (by destruct s).
  unfold SFeqb, SFcompare. rewrite Z.compare_refl.
  fold (Pos.compare m m). rewrite Pos.compare_refl. by destruct s.
Qed.

Lemma lessFloat64_rank x y : lessFloat64 x y = lex_ltb (rank64 x) (rank64 y).
Proof.
  unfold lessFloat64, IsNaN, rank64.
  rewrite FloatAxioms.ltb_spec, !FloatAxioms.eqb_spec, !SFeqb_refl.
  destruct (Prim2SF x) as [s1|s1| |s1 m1 e1] eqn:Hx;
    destruct (Prim2SF y) as [s2|s2| |s2 m2 e2] eqn:Hy;
    try (rewrite SFltb_rank by congruence; simpl negb; simpl andb;
         by rewrite orb_false_r);
    try reflexivity; try (by destruct s1); try (by destruct s2).
Qed.

Lemma lessFloat64_asym x y : lessFloat64 x y = true -> lessFloat64 y x = false.
Proof. rewrite !lessFloat64_rank. apply lex_ltb_asym. Qed.

Lemma notAfter_refl x : notAfter x x.
Proof. unfold notAfter. rewrite lessFloat64_rank. apply lex_ltb_irrefl. Qed.

Lemma notAfter_trans x y z : notAfter x y -> notAfter y z -> notAfter x z.
Proof. unfold notAfter. rewrite !lessFloat64_rank. apply lex_ltb_negtrans. Qed.

(** ** sort.Float64s *)

Lemma insertFloat64_perm x l : insertFloat64 x l ≡ₚ x :: l.
Proof.
  induction l as [|y l IH]; simpl; [reflexivity|].
  destruct (lessFloat64 y x); [|reflexivity].
  rewrite IH. apply Permutation_swap.
Qed.

Lemma Float64s_perm l : Float64s l ≡ₚ l.
Proof.
  induction l as [|x l IH]; simpl; [reflexivity|].
  rewrite insertFloat64_perm. by rewrite IH.
Qed.

Lemma Float64s_length l : length (Float64s l) = length l.
Proof. apply Permutation_length, Float64s_perm. Qed.

Lemma insertFloat64_sorted x l :
  StronglySorted notAfter l -> StronglySorted notAfter (insertFloat64 x l).
Proof.
  induction l as [|y l IH]; intros Hs; simpl.
  - repeat constructor.
  - apply StronglySorted_inv in Hs as [Hl Hy].
    destruct (lessFloat64 y x) eqn:Hyx.
    + constructor; [by apply IH|].
      rewrite insertFloat64_perm. constructor; [|done].
      by apply lessFloat64_asym.
    + constructor; [by constructor|].
      constructor; [done|].
      eapply Forall_impl; [exact Hy|]. intros z Hz.
      by apply notAfter_trans with y.
Qed.

Lemma Float64s_sorted l : StronglySorted notAfter (Float64s l).
Proof.
  induction l as [|x l IH]; simpl; [constructor|]. by apply insertFloat64_sorted.
Qed.

End Float64Order.

(* ===================================================================== *)
(** * Properties of the metrics engine *)
(* ===================================================================== *)

Section PercentileIndex.

Import cmd.

(** [test] holds on the 2^k integers from [lo] on. *)
Fixpoint all_in_block (test : Z -> bool) (k : nat) (lo : Z) : bool :=
  match k with
  | O => test lo
  | S k' => all_in_block test k' lo && all_in_block test k' (lo + 2 ^ Z.of_nat k')
  end.

Lemma all_in_block_spec test k : forall lo,
  all_in_block test k lo = true ->
  forall n, lo <= n < lo + 2 ^ Z.of_nat k -> test n = true.
Proof.
  induction k as [|k IH]; intros lo Hall n Hn.
  - simpl in *. assert (n = lo) as -> by lia. exact Hall.
  - cbn [all_in_block] in Hall. apply andb_prop in Hall as [Hlow Hhigh].
    rewrite Nat2Z.inj_succ, Z.pow_succ_r in Hn by lia.
    destruct (Z.lt_ge_cases n (lo + 2 ^ Z.of_nat k)).
    + apply (IH lo Hlow). lia.
    + apply (IH _ Hhigh). lia.
Qed.

(** The index the code computes in float64 is the integer part of
    85n/100, below n. *)
Definition p85index_agrees (n : Z) : bool :=
  p85index n =? Z.min (85 * n / 100) (n - 1).

Lemma p85index_floor n :
  0 <= n < 2 ^ 16 -> p85index n = Z.min (85 * n / 100) (n - 1).
Proof.
  intros Hn. apply Z.eqb_eq. fold (p85index_agrees n).
  apply (all_in_block_spec p85index_agrees 16 0); [|exact Hn].
  vm_compute. reflexivity.
Qed.

End PercentileIndex.

Section TimeStatsProperties.

Import cmd.

Lemma sorted_bounds l :
  StronglySorted notAfter l ->
  forall v, v ∈ l ->
    notAfter (nth 0 l 0%float) v /\ notAfter v (nth (length l - 1) l 0%float).
Proof.
  induction 1 as [|a l Hl IH Ha]; intros v Hv; [by apply elem_of_nil in Hv|].
  split.
  - simpl. apply elem_of_cons in Hv as [->|Hv]; [apply notAfter_refl|].
    rewrite Forall_forall in Ha. by apply Ha.
  - destruct l as [|b l'].
    + simpl. apply elem_of_cons in Hv as [->|Hv]; [apply notAfter_refl|].
      by apply elem_of_nil in Hv.
    + replace (length (a :: b :: l') - 1)%nat with (S (length l')) by (simpl; lia).
      change (nth (S (length l')) (a :: b :: l') 0%float)
        with (nth (length l') (b :: l') 0%float).
      assert (Hlast : nth (length l') (b :: l') 0%float ∈ b :: l').
      { apply list_elem_of_In, nth_In. simpl. lia. }
      apply elem_of_cons in Hv as [->|Hv].
      * rewrite Forall_forall in Ha. by apply Ha.
      * destruct (IH v Hv) as [_ Hmax].
        replace (length (b :: l') - 1)%nat with (length l') in Hmax by (simpl; lia).
        exact Hmax.
Qed.

(** What calculateTimeStats returns on a non-empty slice, field by field. *)
Lemma calculateTimeStats_fields values :
  values <> [] ->
  let sorted := Float64s values in
  let n := Z.of_nat (length values) in
  let mean := (sumFloat64 sorted / float64_of_int n)%float in
  calculateTimeStats values
  = mkTimeStats
      (round1 mean)
      (if n mod 2 =? 0
       then round1 ((at_index sorted (n / 2 - 1) + at_index sorted (n / 2)) / 2)
       else round1 (at_index sorted (n / 2)))
      (round1 (at_index sorted (p85index n)))
      (round1 (at_index sorted 0))
      (round1 (at_index sorted (n - 1)))
      (round1 (PrimFloat.sqrt (sumSquaresFloat64 mean sorted / float64_of_int n)))
      n.
Proof.
  intros Hne. destruct values as [|v values]; [done|].
  unfold calculateTimeStats. rewrite Float64s_length. reflexivity.
Qed.

(** C3 (as amended).  On a non-empty slice, calculateTimeStats sorts
    the values into increasing order (a permutation of the input, no value
    less than an earlier one) and returns the sample count together with,
    each rounded to one decimal by math.Round(x*10)/10: the arithmetic
    mean; the median, which is the mean of the two middle values for an
    even count and the middle value for an odd one; the value at index
    int(float64(n)*0.85), lowered to n-1 if it is not below n, which for
    fewer than 2^16 values is the integer part of 85n/100 and lies within
    the slice; the first value, which no value is less than; the last
    value, which is less than no value; and the population standard
    deviation.  For the input 1,2,3,4,5 the average is 3, the median 3,
    the 85th percentile 5, the minimum 1 and the maximum 5. *)
Theorem calculateTimeStats_rounded_statistics :
  forall values : list float,
    values <> [] ->
    let sorted := Float64s values in
    let n := Z.of_nat (length values) in
    let mean := (sumFloat64 sorted / float64_of_int n)%float in
    let stats := calculateTimeStats values in
    sorted ≡ₚ values
    /\ StronglySorted notAfter sorted
    /\ Count stats = n
    /\ Average stats = round1 mean
    /\ Median stats
       = (if n mod 2 =? 0
          then round1 ((at_index sorted (n / 2 - 1) + at_index sorted (n / 2)) / 2)
          else round1 (at_index sorted (n / 2)))
    /\ P85 stats = round1 (at_index sorted (p85index n))
    /\ (n < 2 ^ 16 -> p85index n = 85 * n / 100 /\ 0 <= p85index n <= n - 1)
    /\ Min stats = round1 (at_index sorted 0)
    /\ Max stats = round1 (at_index sorted (n - 1))
    /\ StdDev stats
       = round1 (PrimFloat.sqrt (sumSquaresFloat64 mean sorted / float64_of_int n))
    /\ (forall v, v ∈ values ->
          notAfter (at_index sorted 0) v /\ notAfter v (at_index sorted (n - 1)))
    /\ calculateTimeStats [1; 2; 3; 4; 5]%float = mkTimeStats 3 3 5 1 5 1.4 5.
Proof.
  intros values Hne sorted n mean stats.
  assert (Hn : 1 <= n).
  { subst n. destruct values; [done|]. simpl length. lia. }
  subst stats. rewrite (calculateTimeStats_fields values Hne). simpl.
  fold sorted. fold n. fold mean.
  split; [apply Float64s_perm|]. split; [apply Float64s_sorted|].
  do 4 (split; [reflexivity|]).
  split.
  { intros Hsmall. rewrite p85index_floor by lia.
    assert (85 * n / 100 <= n - 1).
    { apply Z.lt_succ_r. apply Z.div_lt_upper_bound; lia. }
    assert (0 <= 85 * n / 100) by (apply Z.div_pos; lia).
    lia. }
  do 3 (split; [reflexivity|]).
  split; [|vm_compute; reflexivity].
  intros v Hv.
  assert (Hin : v ∈ sorted) by (subst sorted; by rewrite Float64s_perm).
  destruct (sorted_bounds sorted (Float64s_sorted values) v Hin) as [Hmin Hmax].
  unfold at_index. split; [exact Hmin|].
  replace (Z.to_nat (n - 1)) with (length sorted - 1)%nat; [exact Hmax|].
  subst sorted n. rewrite Float64s_length. lia.
Qed.

End TimeStatsProperties.

Section FlowEfficiencyProperties.

Import cmd.

Variable rangeWIP : gmap string Z -> list (string * Z).
Variable Sprintf_f1 : float -> string.
Variable Sprintf_f0 : float -> string.
Variable rangeRepos : gmap string (gmap string Z) -> list (string * gmap string Z).



(** The arithmetic mean as calculateTimeStats computes it: the sum of
    the sorted values over their number. *)
Definition meanOf (values : list float) : float :=
  (sumFloat64 (Float64s values) / float64_of_int (Z.of_nat (length values)))%float.


(** The closed issues the loop body works on: none when the query
    failed. *)
Definition closedOf (closed : option (list db.ClosedIssueStats.t))
  : list db.ClosedIssueStats.t := default [] closed.







End FlowEfficiencyProperties.

Section LittlesLawProperties.

Import cmd.

Variable rangeWIP : gmap string Z -> list (string * Z).
Variable Sprintf_f1 : float -> string.
Variable Sprintf_f0 : float -> string.
Variable AddDate_days : Timestamp -> Z -> Timestamp.

(** The columns that count as active work. *)
Definition activeColumns : list string :=
  ["ready"; "in-progress"; "review"; "testing"]%string.

Definition activeWIP (wip : gmap string Z) : Z :=
  at_key wip "ready" + at_key wip "in-progress" + at_key wip "review" + at_key wip "testing".

(** The variance of the amended claim: the deviation of the actual from
    the predicted WIP, as a percentage with one decimal. *)
Definition variancePercent (actual : Z) (predicted : float) : float :=
  (Round ((float64_of_int actual - predicted) / predicted * 1000) / 10)%float.

Lemma at_key_insert_ne (wip : gmap string Z) k v key :
  k <> key -> at_key (<[k := v]> wip) key = at_key wip key.
Proof. intros Hne. unfold at_key. by rewrite lookup_insert_ne. Qed.

Lemma activeWIP_insert_other wip k v :
  k ∉ activeColumns -> activeWIP (<[k := v]> wip) = activeWIP wip.
Proof.
  intros Hk. unfold activeWIP.
  rewrite !at_key_insert_ne; [reflexivity|..]; intros ->; apply Hk;
    unfold activeColumns; set_solver.
Qed.

Lemma collectKanbanMetrics_LittlesLaw client now repo days wipLimits :
  let m := collectKanbanMetrics rangeWIP Sprintf_f1 Sprintf_f0 AddDate_days
             client now repo days wipLimits in
  LittlesLaw m = littlesLawCheck (WIP m) (PerDay (Throughput m)) (Average (LeadTime m)).
Proof.
  unfold collectKanbanMetrics.
  destruct (fold_left _ statuses _) as [[wip allAges] aging].
  simpl. by destruct (ListClosedIssuesWithTimes client) as [[|issue rest]|].
Qed.

(** C5 (as amended).  In live mode (collectKanbanMetrics) the Little's
    Law check is made when throughput per day and the reported average
    lead time are both positive: predicted WIP is their product, actual
    WIP is the sum of the ready, in-progress, review and testing columns,
    and the variance is (actual - predicted) / predicted as a percentage
    rounded to one decimal, math.Round(x*1000)/10; when predicted WIP is
    not positive no division is made and the variance is 0, and when
    either factor is not positive all three fields are 0.  The backlog,
    done and any other column have no part in it.  For a throughput of 2
    per day, an average lead time of 5 days and 12 active items the
    predicted WIP is 10 and the variance 20 (percent). *)
Theorem littles_law_check :
  (forall client now repo days wipLimits,
     let m := collectKanbanMetrics rangeWIP Sprintf_f1 Sprintf_f0 AddDate_days
                client now repo days wipLimits in
     let perDay := PerDay (Throughput m) in
     let leadAverage := Average (LeadTime m) in
     LittlesLaw m
     = if PrimFloat.ltb 0 perDay && PrimFloat.ltb 0 leadAverage
       then mkLittlesLaw (perDay * leadAverage) (activeWIP (WIP m))
              (if PrimFloat.ltb 0 (perDay * leadAverage)
               then variancePercent (activeWIP (WIP m)) (perDay * leadAverage)
               else 0%float)
       else mkLittlesLaw 0 0 0)
  /\ (forall wip perDay leadAverage k v,
        k ∉ activeColumns ->
        littlesLawCheck (<[k := v]> wip) perDay leadAverage
        = littlesLawCheck wip perDay leadAverage)
  /\ (forall wip,
        activeWIP wip = 12 ->
        littlesLawCheck wip 2 5 = mkLittlesLaw 10 12 20).
Proof.
  split; [|split].
  - intros client now repo days wipLimits m perDay leadAverage.
    subst perDay leadAverage. subst m. rewrite collectKanbanMetrics_LittlesLaw.
    reflexivity.
  - intros wip perDay leadAverage k v Hk. unfold littlesLawCheck.
    fold (activeWIP (<[k := v]> wip)). fold (activeWIP wip).
    by rewrite activeWIP_insert_other.
  - intros wip Hactive. unfold littlesLawCheck. fold (activeWIP wip).
    rewrite Hactive. vm_compute. reflexivity.
Qed.

End LittlesLawProperties.

Section BottleneckProperties.

Import cmd.

Variable Sprintf_f1 : float -> string.
Variable Sprintf_f0 : float -> string.

(** The six rules, each on its own: the signals it contributes. *)
Definition wipLimitSignal (m : KanbanMetrics) (entry : string * Z) : list string :=
  let '(status, count) := entry in
  match WIPLimits m !! ("status: " ++ status)%string with
  | Some limit =>
      if limit <? count
      then [("WIP LIMIT: " ++ status ++ " has " ++ Sprintf_d count
             ++ " items (limit: " ++ Sprintf_d limit ++ ")")%string]
      else []
  | None => []
  end.

Definition overloadSignal (m : KanbanMetrics) : list string :=
  if PrimFloat.ltb (DepartureRate m * 1.5) (ArrivalRate m)
     && PrimFloat.ltb 0.5 (ArrivalRate m)
  then [("OVERLOAD: Arrival rate (" ++ Sprintf_f1 (ArrivalRate m)
         ++ "/day) > Departure rate (" ++ Sprintf_f1 (DepartureRate m)
         ++ "/day)")%string]
  else [].

Definition reviewSignal (m : KanbanMetrics) : list string :=
  if (at_key (WIP m) "in-progress" * 2 <? at_key (WIP m) "review")
     && (2 <? at_key (WIP m) "review")
  then ["REVIEW BOTTLENECK: Consider prioritizing code reviews"%string]
  else [].

Definition testingSignal (m : KanbanMetrics) : list string :=
  if (at_key (WIP m) "review" * 2 <? at_key (WIP m) "testing")
     && (2 <? at_key (WIP m) "testing")
  then ["TESTING BOTTLENECK: Consider prioritizing QA"%string]
  else [].

Definition staleSignal (m : KanbanMetrics) : list string :=
  if 0 <? staleCount (AgingIssues m)
  then [("STALE ITEMS: " ++ Sprintf_d (staleCount (AgingIssues m))
         ++ " issues stuck >14 days")%string]
  else [].

Definition instabilitySignal (m : KanbanMetrics) : list string :=
  if PrimFloat.ltb 50 (PrimFloat.abs (Variance (LittlesLaw m)))
  then [("FLOW INSTABILITY: Actual WIP deviates "
         ++ Sprintf_f0 (Variance (LittlesLaw m)) ++ "% from predicted")%string]
  else [].

(** The signals of the rules 2 to 6, in their order. *)
Definition laterSignals (m : KanbanMetrics) : list string :=
  overloadSignal m ++ reviewSignal m ++ testingSignal m ++ staleSignal m
  ++ instabilitySignal m.

Lemma fold_left_append {A B} (g : A -> list B) (step : list B -> A -> list B) l :
  (forall acc a, step acc a = acc ++ g a) ->
  forall init, fold_left step l init = init ++ flat_map g l.
Proof.
  intros Hstep. induction l as [|a l IH]; intros init; simpl.
  - by rewrite app_nil_r.
  - by rewrite IH, Hstep, <- app_assoc.
Qed.

Lemma identifyBottlenecks_by_rule rangeWIP m :
  identifyBottlenecks rangeWIP Sprintf_f1 Sprintf_f0 m
  = flat_map (wipLimitSignal m) (rangeWIP (WIP m)) ++ laterSignals m.
Proof.
  unfold identifyBottlenecks, laterSignals.
  rewrite (fold_left_append (wipLimitSignal m)).
  - unfold overloadSignal, reviewSignal, testingSignal, staleSignal, instabilitySignal.
    simpl app at 1.
    repeat match goal with
           | |- context [if ?c then _ ++ [_] else _] => destruct c
           end;
      rewrite ?app_nil_r, <- ?app_assoc; reflexivity.
  - intros acc [status count]. unfold wipLimitSignal.
    destruct (WIPLimits m !! _) as [limit|]; [|by rewrite app_nil_r].
    destruct (limit <? count); [reflexivity | by rewrite app_nil_r].
Qed.

Lemma flat_map_perm {A B} (g : A -> list B) (l1 l2 : list A) :
  l1 ≡ₚ l2 -> flat_map g l1 ≡ₚ flat_map g l2.
Proof.
  induction 1 as [|a l1 l2 _ IH|a b l|l1 l2 l3 _ IH1 _ IH2]; simpl.
  - reflexivity.
  - by rewrite IH.
  - rewrite !app_assoc. f_equiv. apply Permutation_app_comm.
  - by rewrite IH1.
Qed.

Lemma range_split (wip : gmap string Z) (order : list (string * Z)) status count :
  order ≡ₚ map_to_list wip ->
  wip !! status = Some count ->
  exists before after,
    order = before ++ (status, count) :: after
    /\ (status ∉ before.*1) /\ (status ∉ after.*1).
Proof.
  intros Hperm Hlook.
  assert (Hin : (status, count) ∈ order).
  { rewrite Hperm. by apply elem_of_map_to_list. }
  apply list_elem_of_split in Hin as (before & after & ->).
  exists before, after. split; [reflexivity|].
  assert (Hnd : NoDup ((before ++ (status, count) :: after).*1)).
  { rewrite Hperm. apply NoDup_fst_map_to_list. }
  rewrite fmap_app, fmap_cons in Hnd. simpl in Hnd.
  apply NoDup_app in Hnd as (_ & Hdisj & Hnd).
  apply NoDup_cons in Hnd as [Hafter _].
  split; [|exact Hafter].
  intros Hbefore. apply (Hdisj _ Hbefore). apply elem_of_cons. by left.
Qed.

Lemma wipLimitSignal_review m :
  WIPLimits m !! "status: review"%string = Some 5 ->
  wipLimitSignal m ("review"%string, 6) = ["WIP LIMIT: review has 6 items (limit: 5)"%string].
Proof.
  intros Hlimit. unfold wipLimitSignal.
  change ("status: " ++ "review")%string with "status: review"%string.
  rewrite Hlimit. reflexivity.
Qed.

(** C6 (as amended).  identifyBottlenecks returns the signals of the six
    rules in the fixed order WIP limits, overload (arrival above 1.5 times
    departure and above 0.5 per day), review (review WIP above twice the
    in-progress WIP and above 2), testing (testing WIP above twice the
    review WIP and above 2), stale items (aging issues older than 14
    days), flow instability (variance beyond 50 percent in magnitude);
    each rule contributes by its own condition alone, whatever the others
    do.  The WIP-limit signals, one per status over its limit, come in the
    order in which the WIP map is ranged over: two orders of the same map
    give the same signals of the rules 2 to 6 and the same WIP-limit
    signals up to their order.  A status review with limit 5 and count 6
    yields, among the signals of the other statuses, exactly the one
    signal "WIP LIMIT: review has 6 items (limit: 5)". *)
Theorem bottleneck_rules_in_fixed_order :
  (forall rangeWIP m,
     identifyBottlenecks rangeWIP Sprintf_f1 Sprintf_f0 m
     = flat_map (wipLimitSignal m) (rangeWIP (WIP m))
       ++ overloadSignal m ++ reviewSignal m ++ testingSignal m
       ++ staleSignal m ++ instabilitySignal m)
  /\ (forall rangeWIP1 rangeWIP2 m,
        rangeWIP1 (WIP m) ≡ₚ rangeWIP2 (WIP m) ->
        exists limits1 limits2,
          identifyBottlenecks rangeWIP1 Sprintf_f1 Sprintf_f0 m = limits1 ++ laterSignals m
          /\ identifyBottlenecks rangeWIP2 Sprintf_f1 Sprintf_f0 m = limits2 ++ laterSignals m
          /\ limits1 ≡ₚ limits2)
  /\ (forall rangeWIP m,
        rangeWIP (WIP m) ≡ₚ map_to_list (WIP m) ->
        WIP m !! "review"%string = Some 6 ->
        WIPLimits m !! "status: review"%string = Some 5 ->
        exists before after,
          rangeWIP (WIP m) = before ++ ("review"%string, 6) :: after
          /\ ("review"%string ∉ before.*1)
          /\ ("review"%string ∉ after.*1)
          /\ identifyBottlenecks rangeWIP Sprintf_f1 Sprintf_f0 m
             = flat_map (wipLimitSignal m) before
               ++ ["WIP LIMIT: review has 6 items (limit: 5)"%string]
               ++ flat_map (wipLimitSignal m) after
               ++ laterSignals m).
Proof.
  split; [|split].
  - intros rangeWIP m. apply identifyBottlenecks_by_rule.
  - intros rangeWIP1 rangeWIP2 m Hperm.
    exists (flat_map (wipLimitSignal m) (rangeWIP1 (WIP m))),
           (flat_map (wipLimitSignal m) (rangeWIP2 (WIP m))).
    rewrite !identifyBottlenecks_by_rule.
    split; [reflexivity|]. split; [reflexivity|]. by apply flat_map_perm.
  - intros rangeWIP m Hperm Hcount Hlimit.
    destruct (range_split (WIP m) (rangeWIP (WIP m)) "review" 6 Hperm Hcount)
      as (before & after & Horder & Hbefore & Hafter).
    exists before, after. repeat (split; [done|]).
    rewrite identifyBottlenecks_by_rule, Horder, flat_map_app.
    cbn [flat_map]. rewrite (wipLimitSignal_review m Hlimit).
    by rewrite <- !app_assoc.
Qed.

End BottleneckProperties.

Section EmptyWindowProperties.

Import cmd.

Variable rangeWIP : gmap string Z -> list (string * Z).
Variable Sprintf_f1 : float -> string.
Variable Sprintf_f0 : float -> string.
Variable rangeRepos : gmap string (gmap string Z) -> list (string * gmap string Z).
Variable AddDate_days : Timestamp -> Z -> Timestamp.

(** The client has nothing to report: every list it answers is empty,
    or the call fails. *)
Definition unanswered {A} (answer : option (list A)) : Prop :=
  answer = None \/ answer = Some [].

Definition noData (client : Client) : Prop :=
  (forall label, unanswered (ListIssuesForBoard client label))
  /\ unanswered (ListClosedIssuesWithTimes client)
  /\ unanswered (ListAllIssues client).

(** Every count of the map is zero. *)
Definition allZero (wip : gmap string Z) : Prop :=
  forall status count, wip !! status = Some count -> count = 0.

Lemma groupWIP_snoc l w :
  groupWIP (l ++ [w])
  = <[db.WIPSummary.Repo w :=
        <[db.WIPSummary.Status w := db.WIPSummary.Count w]>
          (default ∅ (groupWIP l !! db.WIPSummary.Repo w))]> (groupWIP l).
Proof. unfold groupWIP. by rewrite fold_left_app. Qed.

Lemma groupWIP_empty_iff wipSummary : groupWIP wipSummary = ∅ <-> wipSummary = [].
Proof.
  split; [|by intros ->].
  destruct wipSummary as [|w l] using rev_ind; [done|].
  rewrite groupWIP_snoc. intros Hempty.
  by apply insert_non_empty in Hempty.
Qed.

Lemma collectMetricsCached_no_data now organization days wipLimits wipSummary
    boardIssues arrivalByRepo GetClosed :
  rangeRepos (groupWIP wipSummary) ≡ₚ map_to_list (groupWIP wipSummary) ->
  (exists msg,
     collectMetricsCached rangeWIP Sprintf_f1 Sprintf_f0 rangeRepos now organization days
       wipLimits wipSummary boardIssues arrivalByRepo GetClosed = Err msg)
  <-> wipSummary = [].
Proof.
  intros Hperm. unfold collectMetricsCached.
  destruct (rangeRepos (groupWIP wipSummary)) as [|entry rest] eqn:Hrange; simpl.
  - split; [|by eexists]. intros _.
    apply groupWIP_empty_iff, map_to_list_empty_iff.
    by apply Permutation_nil.
  - split; [by intros [msg Hmsg]|]. intros ->.
    unfold groupWIP in Hperm. cbn [fold_left] in Hperm.
    rewrite map_to_list_empty in Hperm.
    by apply Permutation_nil_r in Hperm.
Qed.

Lemma repoMetricsCached_no_closed now organization days wipLimits repoIssues
    arrivalByRepo closed repoName wip :
  closedOf closed = [] ->
  let m := repoMetricsCached rangeWIP Sprintf_f1 Sprintf_f0 now organization days
             wipLimits repoIssues arrivalByRepo closed repoName wip in
  Throughput m = mkRateStats 0 0 0
  /\ DepartureRate m = 0%float
  /\ LeadTime m = zeroTimeStats
  /\ CycleTime m = zeroTimeStats
  /\ FlowEfficiency m = 0%float.
Proof.
  intros Hnone. unfold repoMetricsCached.
  destruct closed as [[|issue rest]|]; try discriminate; simpl; by repeat split.
Qed.

Lemma collectStatus_noData client now repo wip status :
  noData client -> allZero wip ->
  exists wip',
    collectStatus client now repo (wip, [], []) status = (wip', [], []) /\ allZero wip'.
Proof.
  intros (Hboard & _ & _) Hzero. unfold collectStatus.
  destruct (Hboard ("status: " ++ status)%string) as [-> | ->].
  - by exists wip.
  - exists (<[status := 0]> wip). split.
    + simpl. by destruct (negb _ && negb _).
    + intros k v. rewrite lookup_insert.
      destruct (decide (status = k)); [congruence | apply Hzero].
Qed.

Lemma fold_collectStatus_noData client now repo l : forall wip,
  noData client -> allZero wip ->
  exists wip',
    fold_left (collectStatus client now repo) l (wip, [], []) = (wip', [], [])
    /\ allZero wip'.
Proof.
  induction l as [|status l IH]; intros wip Hno Hzero; cbn [fold_left].
  - by exists wip.
  - destruct (collectStatus_noData client now repo wip status Hno Hzero)
      as (wip1 & -> & Hzero1).
    by apply IH.
Qed.

Lemma allZero_at_key wip key : allZero wip -> at_key wip key = 0.
Proof.
  intros Hzero. unfold at_key.
  destruct (wip !! key) as [count|] eqn:Hk; [|reflexivity]. exact (Hzero _ _ Hk).
Qed.

(** 0/y is a zero or NaN, hence not above one half. *)
Lemma zero_quotient_small y : PrimFloat.ltb 0.5 (0 / y) = false.
Proof.
  rewrite FloatAxioms.ltb_spec, FloatAxioms.div_spec.
  change (Prim2SF 0) with (S754_zero false).
  by destruct (Prim2SF y) as [s|s| |s m e]; try destruct s.
Qed.

Lemma flat_map_nil {A B} (g : A -> list B) (l : list A) :
  (forall a, a ∈ l -> g a = []) -> flat_map g l = [].
Proof.
  induction l as [|a l IH]; intros Hg; simpl; [reflexivity|].
  rewrite (Hg a) by (apply elem_of_cons; by left).
  apply IH. intros b Hb. apply Hg. apply elem_of_cons. by right.
Qed.

Lemma collectKanbanMetrics_no_data client now repo days wipLimits :
  (forall wip, rangeWIP wip ≡ₚ map_to_list wip) ->
  noData client ->
  (forall key limit, wipLimits !! key = Some limit -> 0 <= limit) ->
  let m := collectKanbanMetrics rangeWIP Sprintf_f1 Sprintf_f0 AddDate_days
             client now repo days wipLimits in
  allZero (WIP m)
  /\ Throughput m = mkRateStats 0 0 0
  /\ LeadTime m = zeroTimeStats
  /\ CycleTime m = zeroTimeStats
  /\ WIPAge m = zeroTimeStats
  /\ FlowEfficiency m = 0%float
  /\ LittlesLaw m = mkLittlesLaw 0 0 0
  /\ AgingIssues m = []
  /\ Bottlenecks m = [].
Proof.
  intros Hrange Hno Hlimits.
  destruct (fold_collectStatus_noData client now repo statuses ∅ Hno)
    as (wip & Hfold & Hzero); [by intros k v; rewrite lookup_empty|].
  destruct Hno as (_ & Hclosed & Hall).
  unfold collectKanbanMetrics. rewrite Hfold.
  assert (Hlive : match ListClosedIssuesWithTimes client with
                  | Some (issue :: rest) => issue :: rest
                  | _ => []
                  end = []) by (by destruct Hclosed as [-> | ->]).
  rewrite Hlive. cbn -[identifyBottlenecks].
  repeat (split; [done|]).
  rewrite identifyBottlenecks_by_rule. cbn [Bottlenecks].
  unfold laterSignals, overloadSignal, reviewSignal, testingSignal, staleSignal,
    instabilitySignal.
  cbn [WIP WIPLimits ArrivalRate DepartureRate AgingIssues LittlesLaw Variance].
  rewrite !(allZero_at_key wip) by done.
  rewrite flat_map_nil.
  - assert (Harrival : forall rate,
              rate = 0%float \/ (exists y, rate = (0 / y)%float) ->
              PrimFloat.ltb (0 * 1.5) rate && PrimFloat.ltb 0.5 rate = false).
    { intros rate [-> | [y ->]]; [reflexivity|].
      by rewrite zero_quotient_small, andb_false_r. }
    rewrite Harrival; [reflexivity|].
    destruct Hall as [-> | ->]; [by left | right; by eexists].
  - intros [status count] Hentry. unfold wipLimitSignal. cbn [WIPLimits].
    destruct (wipLimits !! _) as [limit|] eqn:Hlimit; [|reflexivity].
    assert (count = 0) as ->.
    { apply (Hzero status). apply elem_of_map_to_list. by rewrite <- Hrange. }
    apply Hlimits in Hlimit. by destruct (Z.ltb_spec limit 0); [lia|].
Qed.

Lemma collectStatus_noData_wip client now repo wip status :
  noData client ->
  collectStatus client now repo (wip, [], []) status
  = (match ListIssuesForBoard client ("status: " ++ status) with
     | Some _ => <[status := 0]> wip
     | None => wip
     end, [], []).
Proof.
  intros (Hboard & _ & _). unfold collectStatus.
  destruct (Hboard ("status: " ++ status)%string) as [-> | ->]; [reflexivity|].
  simpl. by destruct (negb _ && negb _).
Qed.

Lemma fold_collectStatus_answered client now repo status l : forall wip,
  noData client ->
  ListIssuesForBoard client ("status: " ++ status) = Some [] ->
  wip !! status = Some 0 \/ In status l ->
  (fold_left (collectStatus client now repo) l (wip, [], [])).1.1 !! status = Some 0.
Proof.
  induction l as [|status' l IH]; intros wip Hno Hanswer Hin; cbn [fold_left].
  - by destruct Hin.
  - rewrite collectStatus_noData_wip by done. apply IH; [done | done |].
    destruct (decide (status' = status)) as [->|Hne].
    + left. rewrite Hanswer. apply lookup_insert_eq.
    + destruct Hin as [Hwip | [Heq | Hin]]; [|congruence | by right].
      left. destruct (ListIssuesForBoard client ("status: " ++ status')%string);
        [|exact Hwip].
      by rewrite lookup_insert_ne.
Qed.

(** A limit below zero is exceeded by a column the tracker answers as
    empty. *)
Lemma collectKanbanMetrics_negative_limit client now repo days wipLimits status limit :
  (forall wip, rangeWIP wip ≡ₚ map_to_list wip) ->
  noData client ->
  In status statuses ->
  ListIssuesForBoard client ("status: " ++ status) = Some [] ->
  wipLimits !! ("status: " ++ status)%string = Some limit ->
  limit < 0 ->
  In ("WIP LIMIT: " ++ status ++ " has " ++ Sprintf_d 0
      ++ " items (limit: " ++ Sprintf_d limit ++ ")")%string
     (Bottlenecks (collectKanbanMetrics rangeWIP Sprintf_f1 Sprintf_f0 AddDate_days
                     client now repo days wipLimits)).
Proof.
  intros Hrange Hno Hstatus Hanswer Hlimit Hneg.
  pose proof (fold_collectStatus_answered client now repo status statuses ∅ Hno Hanswer
                (or_intror Hstatus)) as Hcount.
  destruct (fold_collectStatus_noData client now repo statuses ∅ Hno)
    as (wip & Hfold & _); [by intros k v; rewrite lookup_empty|].
  rewrite Hfold in Hcount. cbn [fst] in Hcount.
  unfold collectKanbanMetrics. rewrite Hfold.
  cbn -[identifyBottlenecks]. rewrite identifyBottlenecks_by_rule.
  apply in_or_app. left. apply in_flat_map. exists (status, 0). split.
  - apply list_elem_of_In. rewrite Hrange. by apply elem_of_map_to_list.
  - unfold wipLimitSignal. cbn [WIPLimits]. rewrite Hlimit.
    destruct (Z.ltb_spec limit 0); [by left | lia].
Qed.

(** C10 (as amended).  With no closed issue in the window the engine
    returns zero statistics: calculateTimeStats of the empty slice is the
    zero TimeStats; every record collectMetricsCached returns for a
    repository without closed issues (the query failed or found none) has
    zero throughput and departure rate, zero lead- and cycle-time
    statistics and zero flow efficiency; collectKanbanMetrics has no
    failing path, and for a client with nothing to report it returns zero
    counts, zero statistics and, with limits that are not negative, no
    bottleneck; a limit below zero is exceeded by a column the client
    answers as empty, and the WIP LIMIT signal of that column is then
    among the bottlenecks.  With no data at all, however, cached mode
    fails: collectMetricsCached returns an error exactly when the WIP
    summary of the database is empty. *)
Theorem empty_window_statistics :
  calculateTimeStats [] = zeroTimeStats
  /\ (forall now organization days wipLimits wipSummary boardIssues arrivalByRepo
             GetClosedIssuesInPeriod,
        rangeRepos (groupWIP wipSummary) ≡ₚ map_to_list (groupWIP wipSummary) ->
        ((exists msg,
            collectMetricsCached rangeWIP Sprintf_f1 Sprintf_f0 rangeRepos now organization
              days wipLimits wipSummary boardIssues arrivalByRepo GetClosedIssuesInPeriod
            = Err msg)
         <-> wipSummary = []))
  /\ (forall now organization days wipLimits wipSummary boardIssues arrivalByRepo
             GetClosedIssuesInPeriod allMetrics,
        collectMetricsCached rangeWIP Sprintf_f1 Sprintf_f0 rangeRepos now organization
          days wipLimits wipSummary boardIssues arrivalByRepo GetClosedIssuesInPeriod
        = Ok allMetrics ->
        Forall2 (fun repoWIP m =>
                   closedOf (GetClosedIssuesInPeriod (fst repoWIP)) = [] ->
                   Throughput m = mkRateStats 0 0 0
                   /\ DepartureRate m = 0%float
                   /\ LeadTime m = zeroTimeStats
                   /\ CycleTime m = zeroTimeStats
                   /\ FlowEfficiency m = 0%float)
                (rangeRepos (groupWIP wipSummary)) allMetrics)
  /\ (forall client now repo days wipLimits,
        (forall wip, rangeWIP wip ≡ₚ map_to_list wip) ->
        noData client ->
        (forall key limit, wipLimits !! key = Some limit -> 0 <= limit) ->
        let m := collectKanbanMetrics rangeWIP Sprintf_f1 Sprintf_f0 AddDate_days
                   client now repo days wipLimits in
        allZero (WIP m)
        /\ Throughput m = mkRateStats 0 0 0
        /\ LeadTime m = zeroTimeStats
        /\ CycleTime m = zeroTimeStats
        /\ WIPAge m = zeroTimeStats
        /\ FlowEfficiency m = 0%float
        /\ LittlesLaw m = mkLittlesLaw 0 0 0
        /\ AgingIssues m = []
        /\ Bottlenecks m = [])
  /\ (forall client now repo days wipLimits status limit,
        (forall wip, rangeWIP wip ≡ₚ map_to_list wip) ->
        noData client ->
        In status statuses ->
        ListIssuesForBoard client ("status: " ++ status) = Some [] ->
        wipLimits !! ("status: " ++ status)%string = Some limit ->
        limit < 0 ->
        In ("WIP LIMIT: " ++ status ++ " has " ++ Sprintf_d 0
            ++ " items (limit: " ++ Sprintf_d limit ++ ")")%string
           (Bottlenecks (collectKanbanMetrics rangeWIP Sprintf_f1 Sprintf_f0 AddDate_days
                           client now repo days wipLimits))).
Proof.
  split; [reflexivity|]. split; [|split; [|split]].
  - intros. by apply collectMetricsCached_no_data.
  - intros now organization days wipLimits wipSummary boardIssues arrivalByRepo
           GetClosed allMetrics Hok.
    unfold collectMetricsCached in Hok.
    destruct (map _ (rangeRepos (groupWIP wipSummary))) as [|m ms] eqn:Hmap; [discriminate|].
    injection Hok as <-. rewrite <- Hmap.
    apply Forall2_fmap_r, Forall_Forall2_diag, Forall_forall.
    intros [repoName wip] _. cbn [fst]. intros Hnone.
    by apply repoMetricsCached_no_closed.
  - intros client now repo days wipLimits Hrange Hno Hlimits.
    by apply collectKanbanMetrics_no_data.
  - intros. by apply collectKanbanMetrics_negative_limit.
Qed.

End EmptyWindowProperties.

(** ** The engine on small inputs *)

Module MetricsExamples.
Import cmd db.
Import StoreExamples.

(** Choices for what the model leaves open: the maps are ranged over in
    the order of [map_to_list] or in the reverse of it, floats are
    printed as the empty text (no example reads a message that prints
    one), and AddDate moves an instant by whole days of 24 hours. *)
Definition ascending {V} (m : gmap string V) : list (string * V) := map_to_list m.
Definition descending {V} (m : gmap string V) : list (string * V) := reverse (map_to_list m).
Definition noText (x : float) : string := "".
Definition addDays (t : Timestamp) (d : Z) : Timestamp := t + d * 24 * Hour.
Definition day (d : Z) : Timestamp := d * 24 * Hour.

(** *** calculateTimeStats *)

(** C3, the claim as stated fails: the average of 1, 2, 4 is returned
    as 2.3, which is not their arithmetic mean. *)
Lemma average_is_rounded_to_one_decimal :
  Average (calculateTimeStats [1; 2; 4]%float) = 2.3%float
  /\ meanOf [1; 2; 4]%float = 2.3333333333333335%float
  /\ Average (calculateTimeStats [1; 2; 4]%float) <> meanOf [1; 2; 4]%float.
Proof.
  split; [vm_compute; reflexivity|]. split; [vm_compute; reflexivity|].
  intros Heq. apply (f_equal (fun x => PrimFloat.eqb x 2.3)) in Heq.
  vm_compute in Heq. discriminate.
Qed.

Lemma calculateTimeStats_witness :
  Float64s [4; 1; 2]%float ≡ₚ [4; 1; 2]%float
  /\ Count (calculateTimeStats [4; 1; 2]%float) = 3
  /\ Average (calculateTimeStats [4; 1; 2]%float) = 2.3%float
  /\ Median (calculateTimeStats [4; 1; 2]%float) = 2%float
  /\ p85index 3 = 2.
Proof.
  destruct (calculateTimeStats_rounded_statistics [4; 1; 2]%float)
    as (Hperm & _ & Hcount & Haverage & Hmedian & _ & Hindex & _); [discriminate|].
  split; [exact Hperm|]. split; [exact Hcount|].
  split; [rewrite Haverage; vm_compute; reflexivity|].
  split; [rewrite Hmedian; vm_compute; reflexivity|].
  destruct Hindex as [Hfloor _]; [reflexivity|]. exact Hfloor.
Defined.

(** *** Flow efficiency *)


(** One repository with two issues in review and one closed issue whose
    lead time is 6 hours and whose cycle time is 3 hours. *)
Definition quick_fix : list ClosedIssueStats.t :=
  [ClosedIssueStats.mk 7 "Fix login" (hour 0) (hour 6) 6 3].

Definition cached_quick_fix : result (list KanbanMetrics) :=
  collectMetricsCached ascending noText noText ascending (hour 8) "acme" 30 ∅
    [WIPSummary.mk "acme/app" "review" 2 10] [] ∅ (fun _ => Some quick_fix).

Definition metricsOf (r : result (list KanbanMetrics)) : list KanbanMetrics :=
  match r with Ok allMetrics => allMetrics | Err _ => [] end.



(** *** Little's Law *)

(** A repository with one ready issue and three issues closed in a
    window of three days, each after three days. *)
Definition live_client : Client :=
  mkClient
    (fun label =>
       if String.eqb label "status: ready"
       then Some [github.BoardIssue.mk 7 "Fix login" ["status: ready"%string] "ana"]
       else Some [])
    (fun n => Some (github.IssueDetails.mk n "Fix login" "OPEN" (day 1) (day 2) 0 [] "ana"))
    (Some [github.IssueWithTimes.mk 1 "a" "CLOSED" (day 1) (day 4) 0 0 [] 0;
           github.IssueWithTimes.mk 2 "b" "CLOSED" (day 2) (day 5) 0 0 [] 0;
           github.IssueWithTimes.mk 3 "c" "CLOSED" (day 3) (day 6) 0 0 [] 0])
    None.

Definition live_metrics : KanbanMetrics :=
  collectKanbanMetrics ascending noText noText addDays live_client (day 7) "app" 3 ∅.

(** The variance in the words of the claim. *)
Definition varianceAsStated (actual : Z) (predicted : float) : float :=
  ((float64_of_int actual - predicted) / predicted)%float.

(** C5, the claim as stated fails: with a throughput of 1 per day, an
    average lead time of 3 days and 1 active item the predicted WIP is 3
    and the reported variance is -66.7, which is neither the quotient
    (1 - 3) / 3 nor that quotient as a percentage. *)
Lemma variance_is_a_rounded_percentage :
  LittlesLaw live_metrics = mkLittlesLaw 3 1 (-66.7)
  /\ PerDay (Throughput live_metrics) = 1%float
  /\ Average (LeadTime live_metrics) = 3%float
  /\ varianceAsStated 1 3 = (-0.66666666666666663)%float
  /\ (varianceAsStated 1 3 * 100)%float = (-66.666666666666657)%float
  /\ Variance (LittlesLaw live_metrics) <> varianceAsStated 1 3
  /\ Variance (LittlesLaw live_metrics) <> (varianceAsStated 1 3 * 100)%float.
Proof.
  do 5 (split; [vm_compute; reflexivity|]).
  split; intros Heq; apply (f_equal (fun x => PrimFloat.eqb x (-66.7))) in Heq;
    vm_compute in Heq; discriminate.
Qed.

Definition board : gmap string Z :=
  list_to_map [("backlog"%string, 7); ("ready"%string, 3); ("in-progress"%string, 4);
               ("review"%string, 3); ("testing"%string, 2); ("done"%string, 9)].

Lemma littles_law_witness :
  LittlesLaw live_metrics = mkLittlesLaw 3 1 (-66.7)
  /\ littlesLawCheck (<["backlog"%string := 70]> board) 2 5 = littlesLawCheck board 2 5
  /\ littlesLawCheck board 2 5 = mkLittlesLaw 10 12 20.
Proof.
  destruct (littles_law_check ascending noText noText addDays)
    as (Hlive & Hother & Hexample).
  split; [|split].
  - unfold live_metrics. rewrite Hlive. vm_compute. reflexivity.
  - apply Hother. unfold activeColumns. intros Hin.
    repeat (apply elem_of_cons in Hin as [Hin|Hin]; [discriminate|]).
    by apply elem_of_nil in Hin.
  - apply Hexample. reflexivity.
Defined.

(** *** Bottlenecks *)

Definition metrics_with (wip limits : gmap string Z) : KanbanMetrics :=
  mkKanbanMetrics "app" (hour 8) 30 zeroTimeStats zeroTimeStats (mkRateStats 0 0 0) 0
    wip limits zeroTimeStats (mkLittlesLaw 0 0 0) 0 0 0 0 ∅ [] [].

(** Review and testing are both over their limits. *)
Definition two_over_limit : KanbanMetrics :=
  metrics_with
    (list_to_map [("backlog"%string, 7); ("ready"%string, 3); ("in-progress"%string, 4);
                  ("review"%string, 6); ("testing"%string, 9); ("done"%string, 9)])
    (list_to_map [("status: review"%string, 5); ("status: testing"%string, 3)]).

(** Review alone is over its limit. *)
Definition review_over_limit : KanbanMetrics :=
  metrics_with
    (list_to_map [("backlog"%string, 7); ("ready"%string, 3); ("in-progress"%string, 4);
                  ("review"%string, 6); ("testing"%string, 2); ("done"%string, 9)])
    (list_to_map [("status: in-progress"%string, 4); ("status: review"%string, 5)]).

(** C6, the claim as stated fails: for one and the same metrics, two
    orders in which the WIP map may be ranged over give the two WIP-limit
    signals in opposite orders. *)
Lemma wip_limit_signals_follow_map_order :
  descending (WIP two_over_limit) ≡ₚ ascending (WIP two_over_limit)
  /\ identifyBottlenecks ascending noText noText two_over_limit
     = ["WIP LIMIT: review has 6 items (limit: 5)"%string;
        "WIP LIMIT: testing has 9 items (limit: 3)"%string]
  /\ identifyBottlenecks descending noText noText two_over_limit
     = ["WIP LIMIT: testing has 9 items (limit: 3)"%string;
        "WIP LIMIT: review has 6 items (limit: 5)"%string]
  /\ identifyBottlenecks ascending noText noText two_over_limit
     <> identifyBottlenecks descending noText noText two_over_limit.
Proof.
  split; [apply reverse_Permutation|].
  split; [vm_compute; reflexivity|]. split; [vm_compute; reflexivity|].
  vm_compute. discriminate.
Qed.

Lemma bottleneck_rules_witness :
  identifyBottlenecks descending noText noText review_over_limit
  = ["WIP LIMIT: review has 6 items (limit: 5)"%string]
  /\ exists before after,
       descending (WIP review_over_limit) = before ++ ("review"%string, 6) :: after
       /\ ("review"%string ∉ before.*1)
       /\ ("review"%string ∉ after.*1)
       /\ identifyBottlenecks descending noText noText review_over_limit
          = flat_map (wipLimitSignal review_over_limit) before
            ++ ["WIP LIMIT: review has 6 items (limit: 5)"%string]
            ++ flat_map (wipLimitSignal review_over_limit) after
            ++ laterSignals noText noText review_over_limit.
Proof.
  split; [vm_compute; reflexivity|].
  destruct (bottleneck_rules_in_fixed_order noText noText) as (_ & _ & Hreview).
  apply (Hreview descending review_over_limit).
  - apply reverse_Permutation.
  - vm_compute. reflexivity.
  - vm_compute. reflexivity.
Defined.

(** *** The empty window *)

(** A database that was never synced: no row in any table. *)
Definition cached_never_synced : result (list KanbanMetrics) :=
  collectMetricsCached ascending noText noText ascending (hour 8) "acme" 30 ∅
    [] [] ∅ (fun _ => Some []).

(** A client with nothing to report. *)
Definition silent_client : Client :=
  mkClient (fun _ => Some []) (fun _ => None) (Some []) (Some []).

(** C10, the claim as stated fails: on a database without data, cached
    mode returns an error, not an empty result. *)
Lemma no_data_is_an_error_in_cached_mode :
  cached_never_synced
  = Err "no data found. Run 'kanban sync' first to populate the database".
Proof. vm_compute. reflexivity. Qed.

Lemma empty_window_witness :
  ((exists msg, cached_never_synced = Err msg) <-> @nil WIPSummary.t = [])
  /\ Forall2 (fun repoWIP m => Throughput m = mkRateStats 0 0 0
                               /\ LeadTime m = zeroTimeStats)
             (ascending (groupWIP [WIPSummary.mk "acme/app" "review" 2 10]))
             (metricsOf
                (collectMetricsCached ascending noText noText ascending (hour 8) "acme" 30 ∅
                   [WIPSummary.mk "acme/app" "review" 2 10] [] ∅ (fun _ => None)))
  /\ Bottlenecks
       (collectKanbanMetrics ascending noText noText addDays silent_client (day 7) "app" 30
          (<["status: review"%string := 5]> ∅))
     = []
  /\ In "WIP LIMIT: review has 0 items (limit: -1)"%string
        (Bottlenecks
           (collectKanbanMetrics ascending noText noText addDays silent_client (day 7)
              "app" 30 (<["status: review"%string := -1]> ∅))).
Proof.
  destruct (empty_window_statistics ascending noText noText ascending addDays)
    as (_ & Herror & Hclosed & Hlive & Hnegative).
  split; [|split; [|split]].
  - apply (Herror (hour 8) "acme"%string 30 ∅ [] [] ∅ (fun _ => Some [])). reflexivity.
  - eapply Forall2_impl.
    + apply (Hclosed (hour 8) "acme"%string 30 ∅ [WIPSummary.mk "acme/app" "review" 2 10]
                     [] ∅ (fun _ => None)).
      vm_compute. reflexivity.
    + intros repoWIP m Hzero. destruct (Hzero eq_refl) as (Ht & _ & Hl & _). by split.
  - destruct (Hlive silent_client (day 7) "app"%string 30
                    (<["status: review"%string := 5]> ∅))
      as (_ & _ & _ & _ & _ & _ & _ & _ & Hnone).
    + intros wip. reflexivity.
    + split; [|split]; intros; by right.
    + intros key limit Hlimit.
      destruct (decide (key = "status: review"%string)) as [->|Hne].
      * rewrite lookup_insert_eq in Hlimit. injection Hlimit as <-. lia.
      * rewrite lookup_insert_ne in Hlimit by done. by rewrite lookup_empty in Hlimit.
    + exact Hnone.
  - apply (Hnegative silent_client (day 7) "app"%string 30
             (<["status: review"%string := -1]> ∅) "review"%string (-1)).
    + intros wip. reflexivity.
    + split; [|split]; intros; by right.
    + simpl. tauto.
    + reflexivity.
    + reflexivity.
    + lia.
Defined.

End MetricsExamples.

(* ===================================================================== *)
(** * Further properties of the two collection modes *)
(* ===================================================================== *)

Section ModeProperties.

Import cmd.

Variable rangeWIP : gmap string Z -> list (string * Z).
Variable Sprintf_f1 : float -> string.
Variable Sprintf_f0 : float -> string.
Variable rangeRepos : gmap string (gmap string Z) -> list (string * gmap string Z).
Variable AddDate_days : Timestamp -> Z -> Timestamp.

(** ** The list of aging issues *)

Lemma insertAging_length x l : length (insertAging x l) = S (length l).
Proof.
  induction l as [|y l IH]; [reflexivity|]. simpl.
  destruct (PrimFloat.ltb _ _); simpl; [by rewrite IH | reflexivity].
Qed.

Lemma sortAging_length l : length (sortAging l) = length l.
Proof.
  induction l as [|x l IH]; [reflexivity|].
  simpl. by rewrite insertAging_length, IH.
Qed.

Lemma sortAndLimitAging_length l :
  length (sortAndLimitAging l) = Nat.min 10 (length l).
Proof.
  unfold sortAndLimitAging.
  destruct (Nat.ltb_spec 10 (length (sortAging l))) as [Hlong|Hshort].
  - rewrite length_firstn, sortAging_length. rewrite sortAging_length in Hlong. lia.
  - rewrite sortAging_length in *. lia.
Qed.

Lemma staleCount_from l n :
  n <= fold_left (fun n issue =>
                    if PrimFloat.ltb 14 (AgingIssue.AgeDays issue) then n + 1 else n) l n
    <= n + Z.of_nat (length l).
Proof.
  revert n. induction l as [|issue l IH]; intros n; simpl; [lia|].
  destruct (PrimFloat.ltb 14 _).
  - specialize (IH (n + 1)). lia.
  - specialize (IH n). lia.
Qed.

Lemma staleCount_bounds l : 0 <= staleCount l <= Z.of_nat (length l).
Proof. unfold staleCount. pose proof (staleCount_from l 0). lia. Qed.

Lemma repoMetricsCached_AgingIssues now organization days wipLimits repoIssues
    arrivalByRepo closed repoName wip :
  AgingIssues (repoMetricsCached rangeWIP Sprintf_f1 Sprintf_f0 now organization days
                 wipLimits repoIssues arrivalByRepo closed repoName wip)
  = sortAndLimitAging
      (map (agingOfBoardIssue (TrimPrefix repoName (organization ++ "/")))
           (List.filter isActive (default [] (repoIssues !! repoName)))).
Proof. reflexivity. Qed.

Lemma collectKanbanMetrics_AgingIssues client now repo days wipLimits :
  exists aging,
    AgingIssues (collectKanbanMetrics rangeWIP Sprintf_f1 Sprintf_f0 AddDate_days
                   client now repo days wipLimits)
    = sortAndLimitAging aging.
Proof.
  unfold collectKanbanMetrics.
  destruct (fold_left _ statuses _) as [[wip allAges] aging].
  by exists aging.
Qed.

(** X2.  Cached mode makes no Little's Law check: every record that
    collectMetricsCached returns has predicted WIP, actual WIP and
    variance 0, whatever the throughput, the lead times and the board
    are, and so it carries no FLOW INSTABILITY signal. *)
Theorem cached_mode_makes_no_littles_law_check now organization days wipLimits
    wipSummary boardIssues arrivalByRepo GetClosedIssuesInPeriod allMetrics :
  collectMetricsCached rangeWIP Sprintf_f1 Sprintf_f0 rangeRepos now organization days
    wipLimits wipSummary boardIssues arrivalByRepo GetClosedIssuesInPeriod
  = Ok allMetrics ->
  Forall (fun m => LittlesLaw m = mkLittlesLaw 0 0 0
                   /\ instabilitySignal Sprintf_f0 m = [])
         allMetrics.
Proof.
  intros Hok. unfold collectMetricsCached in Hok.
  destruct (map _ (rangeRepos (groupWIP wipSummary))) as [|m ms] eqn:Hmap; [discriminate|].
  injection Hok as <-. rewrite <- Hmap.
  apply Forall_fmap, Forall_forall. intros [repoName wip] _.
  split; reflexivity.
Qed.

(** X3.  Live mode has no cycle time: in every record that
    collectKanbanMetrics returns the cycle-time statistics are the zero
    TimeStats and flow efficiency is 0, since the guard of the
    flow-efficiency computation asks for a positive cycle-time count. *)
Theorem live_mode_has_no_cycle_time client now repo days wipLimits :
  let m := collectKanbanMetrics rangeWIP Sprintf_f1 Sprintf_f0 AddDate_days
             client now repo days wipLimits in
  CycleTime m = zeroTimeStats /\ FlowEfficiency m = 0%float.
Proof.
  unfold collectKanbanMetrics.
  destruct (fold_left _ statuses _) as [[wip allAges] aging].
  simpl. split; [reflexivity|].
  by rewrite andb_false_r.
Qed.

(** X4.  In both modes the list of aging issues of a record holds at
    most ten entries, cut before the bottleneck rules run; the STALE
    ITEMS rule counts over that list, so the count it reports never
    exceeds ten, however many issues are older than 14 days. *)
Theorem aging_issues_at_most_ten :
  (forall now organization days wipLimits wipSummary boardIssues arrivalByRepo
          GetClosedIssuesInPeriod allMetrics,
     collectMetricsCached rangeWIP Sprintf_f1 Sprintf_f0 rangeRepos now organization days
       wipLimits wipSummary boardIssues arrivalByRepo GetClosedIssuesInPeriod
     = Ok allMetrics ->
     Forall (fun m => (length (AgingIssues m) <= 10)%nat
                      /\ 0 <= staleCount (AgingIssues m) <= 10)
            allMetrics)
  /\ (forall client now repo days wipLimits,
        let m := collectKanbanMetrics rangeWIP Sprintf_f1 Sprintf_f0 AddDate_days
                   client now repo days wipLimits in
        (length (AgingIssues m) <= 10)%nat
        /\ 0 <= staleCount (AgingIssues m) <= 10).
Proof.
  assert (Hcap : forall l,
             (length (sortAndLimitAging l) <= 10)%nat
             /\ 0 <= staleCount (sortAndLimitAging l) <= 10).
  { intros l. pose proof (sortAndLimitAging_length l).
    pose proof (staleCount_bounds (sortAndLimitAging l)). lia. }
  split.
  - intros now organization days wipLimits wipSummary boardIssues arrivalByRepo
           GetClosed allMetrics Hok.
    unfold collectMetricsCached in Hok.
    destruct (map _ (rangeRepos (groupWIP wipSummary))) as [|m ms] eqn:Hmap; [discriminate|].
    injection Hok as <-. rewrite <- Hmap.
    apply Forall_fmap, Forall_forall. intros [repoName wip] _.
    unfold compose. cbv beta iota. rewrite repoMetricsCached_AgingIssues. apply Hcap.
  - intros client now repo days wipLimits m. subst m.
    destruct (collectKanbanMetrics_AgingIssues client now repo days wipLimits)
      as (aging & ->).
    apply Hcap.
Qed.

End ModeProperties.

(** ** truncate *)

Lemma length_append_string (s1 s2 : string) :
  String.length (s1 ++ s2) = (String.length s1 + String.length s2)%nat.
Proof. induction s1 as [|c s1 IH]; simpl; [reflexivity | by rewrite IH]. Qed.

Lemma length_substring_prefix (n : nat) (s : string) :
  (n <= String.length s)%nat -> String.length (String.substring 0 n s) = n.
Proof.
  revert n. induction s as [|c s IH]; intros [|n] Hn; simpl in *; try reflexivity.
  - lia.
  - rewrite IH; [reflexivity | lia].
Qed.

(** X5.  For a width of at least 3, truncate returns a string of at
    most that width: the string itself when it fits, and otherwise its
    first maxLen - 3 bytes followed by three dots, maxLen bytes in all. *)
Theorem truncate_length (s : string) (maxLen : Z) :
  3 <= maxLen ->
  Z.of_nat (String.length (cmd.truncate s maxLen))
  = Z.min (Z.of_nat (String.length s)) maxLen
  /\ (Z.of_nat (String.length s) <= maxLen -> cmd.truncate s maxLen = s)
  /\ (maxLen < Z.of_nat (String.length s) ->
      cmd.truncate s maxLen
      = (String.substring 0 (Z.to_nat (maxLen - 3)) s ++ "...")%string).
Proof.
  intros Hwidth. unfold cmd.truncate.
  destruct (Z.leb_spec (Z.of_nat (String.length s)) maxLen) as [Hfits|Hlong].
  - split; [lia|]. split; [reflexivity | lia].
  - split; [|split; [lia | reflexivity]].
    rewrite length_append_string, length_substring_prefix by lia.
    simpl String.length. lia.
Qed.

(** ** The further properties on the sample history *)

Module ModeExamples.
Import db cmd StoreExamples MetricsExamples.

Lemma RecalcCycleTime_cycle_time_witness :
  exists r',
    issues (RecalcCycleTime dayNumber_utc after_third_sync 1) !! 0%nat = Some r'
    /\ cycle_time_hours r' = Some 48%float.
Proof.
  destruct (RecalcCycleTime_cycle_time dayNumber_utc after_third_sync 1 0%nat _
              (GoText (hour 48)) eq_refl eq_refl eq_refl)
    as (r' & Hr' & _ & Hcycle).
  exists r'. split; [exact Hr'|].
  rewrite (Hcycle (SqlText (hour 24)) eq_refl). vm_compute. reflexivity.
Defined.

Lemma cached_mode_witness :
  Forall (fun m => LittlesLaw m = mkLittlesLaw 0 0 0
                   /\ instabilitySignal noText m = [])
         (metricsOf cached_quick_fix).
Proof.
  apply (cached_mode_makes_no_littles_law_check ascending noText noText ascending
           (hour 8) "acme"%string 30 ∅ [WIPSummary.mk "acme/app" "review" 2 10] [] ∅
           (fun _ => Some quick_fix)).
  vm_compute. reflexivity.
Defined.

Lemma truncate_length_witness :
  truncate "Fix the login page of the admin console" 35
    = "Fix the login page of the admin ..."%string
  /\ Z.of_nat (String.length (truncate "Fix the login page of the admin console" 35)) = 35
  /\ truncate "Fix login" 35 = "Fix login"%string.
Proof.
  destruct (truncate_length "Fix the login page of the admin console" 35)
    as (Hlen & _ & Hcut); [lia|].
  destruct (truncate_length "Fix login" 35) as (_ & Hfits & _); [lia|].
  split; [|split].
  - rewrite Hcut; [reflexivity | simpl; lia].
  - rewrite Hlen. reflexivity.
  - apply Hfits. simpl. lia.
Defined.

End ModeExamples.

(* ===================================================================== *)
(** * internal/db/queries.go: organizations, repositories and labels *)
(* ===================================================================== *)

Module queries.
Import db.

(** The errors a query of this part returns. *)
Inductive error : Type :=
| ErrNoRows                        (* sql.ErrNoRows *)
| ErrConstraint (what : string)    (* a constraint of the schema failed *)
| ErrScan (column : string).       (* a NULL scanned into a Go value *)

(** The result of a Go function that returns a value and an [error]. *)
Inductive fallible (A : Type) : Type :=
| Value (a : A)
| Failure (e : error).

Arguments Value {A} a.
Arguments Failure {A} e.

(** ** Models (models.go) *)

Module Organization.
Record t := mk {
  ID : Z;
  Name : string;
  CreatedAt : Timestamp;
  UpdatedAt : Timestamp
}.
End Organization.

Module Repository.
Record t := mk {
  ID : Z;
  OrgID : Z;
  Name : string;
  FullName : string;
  IsActive : bool;
  CreatedAt : Timestamp;
  UpdatedAt : Timestamp;
  LastSyncAt : option Timestamp
}.
End Repository.

Module Label.
Record t := mk {
  ID : Z;
  RepoID : Z;
  Name : string;
  Color : string;
  Description : string;
  Category : string;
  CreatedAt : Timestamp;
  UpdatedAt : Timestamp
}.
End Label.

(** ** Schema (schema.go)

    organizations carries UNIQUE(name); repositories carries
    UNIQUE(full_name), UNIQUE(org_id, name) and a reference to
    organizations(id); labels carries UNIQUE(repo_id, name) and a reference
    to repositories(id).  The connection is opened with foreign_keys(1),
    so the references are enforced. *)

Record organizations_row := mk_organizations_row {
  org_id : Z;
  org_name : string;
  org_created_at : datetime;
  org_updated_at : datetime
}.

Record repositories_row := mk_repositories_row {
  repo_rowid : Z;
  repo_org_id : Z;
  repo_name : string;
  repo_full_name : string;
  repo_is_active : bool;
  repo_created_at : datetime;
  repo_updated_at : datetime;
  repo_last_sync_at : option datetime
}.

Record labels_row := mk_labels_row {
  label_id : Z;
  label_repo_id : Z;
  label_name : string;
  label_color : option string;
  label_description : option string;
  label_category : option string;
  label_created_at : datetime;
  label_updated_at : datetime
}.

Record Registry := mkRegistry {
  organizations : list organizations_row;
  organizations_seq : Z;
  repositories : list repositories_row;
  repositories_seq : Z;
  labels : list labels_row;
  labels_seq : Z
}.

Definition emptyRegistry : Registry := mkRegistry [] 0 [] 0 [] 0.

(** ** Organizations and repositories *)

(** GetOrCreateOrg gets or creates an organization.  The struct it
    returns for a stored row has the columns the SELECT lists; the one it
    returns after an INSERT carries [time.Now()] as CreatedAt. *)
Definition GetOrCreateOrg (clk : Clock) (g : Registry) (name : string)
  : Registry * fallible Organization.t :=
  match find (fun r => String.eqb (org_name r) name) (organizations g) with
  | Some r =>
      (g, Value (Organization.mk (org_id r) (org_name r)
                   (instant (org_created_at r)) zeroTime))
  | None =>
      let new_id := organizations_seq g + 1 in
      (mkRegistry
         (organizations g ++
            [mk_organizations_row new_id name (SqlText (CURRENT_TIMESTAMP clk))
               (SqlText (CURRENT_TIMESTAMP clk))])
         new_id
         (repositories g) (repositories_seq g) (labels g) (labels_seq g),
       Value (Organization.mk new_id name (time_Now clk) zeroTime))
  end.

(** The constraints an INSERT INTO repositories (org_id, name, full_name)
    meets once the lookup by full_name has found nothing. *)
Definition repo_name_taken (g : Registry) (orgID : Z) (name : string) : bool :=
  existsb (fun r => (repo_org_id r =? orgID) && String.eqb (repo_name r) name)
          (repositories g).

Definition org_exists (g : Registry) (orgID : Z) : bool :=
  existsb (fun r => org_id r =? orgID) (organizations g).

(** GetOrCreateRepo gets or creates a repository. *)
Definition GetOrCreateRepo (clk : Clock) (g : Registry) (orgID : Z)
    (name fullName : string) : Registry * fallible Repository.t :=
  match find (fun r => String.eqb (repo_full_name r) fullName) (repositories g) with
  | Some r =>
      (g, Value (Repository.mk (repo_rowid r) (repo_org_id r) (repo_name r)
                   (repo_full_name r) (repo_is_active r)
                   (instant (repo_created_at r)) zeroTime
                   (instant <$> repo_last_sync_at r)))
  | None =>
      if repo_name_taken g orgID name
      then (g, Failure (ErrConstraint
                          "UNIQUE constraint failed: repositories.org_id, repositories.name"))
      else if negb (org_exists g orgID)
      then (g, Failure (ErrConstraint "FOREIGN KEY constraint failed"))
      else
        let new_id := repositories_seq g + 1 in
        (mkRegistry (organizations g) (organizations_seq g)
           (repositories g ++
              [mk_repositories_row new_id orgID name fullName true
                 (SqlText (CURRENT_TIMESTAMP clk)) (SqlText (CURRENT_TIMESTAMP clk))
                 None])
           new_id
           (labels g) (labels_seq g),
         Value (Repository.mk new_id orgID name fullName true (time_Now clk) zeroTime None))
  end.

(** UpdateRepoSyncTime updates the last sync time for a repo. *)
Definition UpdateRepoSyncTime (clk : Clock) (g : Registry) (repoID : Z) : Registry :=
  mkRegistry (organizations g) (organizations_seq g)
    (sql_update (fun r => repo_rowid r =? repoID)
       (fun r =>
          mk_repositories_row (repo_rowid r) (repo_org_id r) (repo_name r)
            (repo_full_name r) (repo_is_active r) (repo_created_at r)
            (SqlText (CURRENT_TIMESTAMP clk))
            (Some (SqlText (CURRENT_TIMESTAMP clk))))
       (repositories g))
    (repositories_seq g) (labels g) (labels_seq g).

(** GetRepoLastSync returns the last sync time for a repo: nil for a
    repository that was never synced, sql.ErrNoRows for an unknown id. *)
Definition GetRepoLastSync (g : Registry) (repoID : Z) : fallible (option Timestamp) :=
  match find (fun r => repo_rowid r =? repoID) (repositories g) with
  | Some r => Value (instant <$> repo_last_sync_at r)
  | None => Failure ErrNoRows
  end.

(** ** Labels *)

(** categorizeLabel determines the category of a label. *)
Definition categorizeLabel (name : string) : string :=
  let lower := ToLower name in
  if HasPrefix lower "status:" || HasPrefix lower "status " then "status"
  else if HasPrefix lower "priority:" || HasPrefix lower "priority " then "priority"
  else if HasPrefix lower "type:" || HasPrefix lower "type " then "type"
  else if HasPrefix lower "size:" || HasPrefix lower "size " then "size"
  else "special".

(** [rows.Scan] of one labels row: color is scanned into a Go string,
    which a NULL does not convert to; description and category go through
    sql.NullString. *)
Definition scan_label (r : labels_row) : fallible Label.t :=
  match label_color r with
  | None => Failure (ErrScan "color")
  | Some color =>
      Value (Label.mk (label_id r) (label_repo_id r) (label_name r) color
               (default ""%string (label_description r))
               (default ""%string (label_category r)) zeroTime zeroTime)
  end.

(** The loop [for rows.Next()] that returns at the first Scan error. *)
Fixpoint scan_rows {R A : Type} (scan : R -> fallible A) (rows : list R)
  : fallible (list A) :=
  match rows with
  | [] => Value []
  | r :: rows' =>
      match scan r with
      | Failure e => Failure e
      | Value a =>
          match scan_rows scan rows' with
          | Failure e => Failure e
          | Value l => Value (a :: l)
          end
      end
  end.

(** GetLabelsByRepo returns all labels for a repository. *)
Definition GetLabelsByRepo (g : Registry) (repoID : Z) : fallible (list Label.t) :=
  scan_rows scan_label (List.filter (fun r => label_repo_id r =? repoID) (labels g)).

(** The loop [for i := range names] of LabelsNeedSync from index [i] on,
    [rest] being [names[i:]].  [None] is the run-time panic of an index
    out of range in [colors] or [descriptions]. *)
Fixpoint labelsDiffer (cachedMap : gmap string Label.t)
    (colors descriptions : list string) (i : nat) (rest : list string) : option bool :=
  match rest with
  | [] => Some false                      (* All labels match *)
  | name :: rest' =>
      match cachedMap !! name with
      | None => Some true                 (* Missing label *)
      | Some existing =>
          match colors !! i with
          | None => None
          | Some color =>
              if negb (String.eqb (Label.Color existing) color) then Some true
              else
                match descriptions !! i with
                | None => None
                | Some description =>
                    if negb (String.eqb (Label.Description existing) description)
                    then Some true       (* Different color or description *)
                    else labelsDiffer cachedMap colors descriptions (S i) rest'
                end
          end
      end
  end.

(** LabelsNeedSync compares config labels with cached DB labels. *)
Definition LabelsNeedSync (g : Registry) (repoID : Z)
    (names colors descriptions : list string) : option (bool * option error) :=
  match GetLabelsByRepo g repoID with
  | Failure err => Some (true, Some err)  (* On error, assume sync is needed *)
  | Value cached =>
      (* Build map of cached labels *)
      let cachedMap :=
        fold_left (fun m l => <[Label.Name l := l]> m) cached (∅ : gmap string Label.t) in
      (* Check each config label *)
      match labelsDiffer cachedMap colors descriptions 0 names with
      | Some differ => Some (differ, None)
      | None => None
      end
  end.

Definition label_has_key (repoID : Z) (name : string) (r : labels_row) : bool :=
  (label_repo_id r =? repoID) && String.eqb (label_name r) name.

Definition repo_exists (g : Registry) (repoID : Z) : bool :=
  existsb (fun r => repo_rowid r =? repoID) (repositories g).

(** INSERT INTO labels ... ON CONFLICT(repo_id, name) DO UPDATE SET
    color, description, category, updated_at: the statement of UpsertLabel
    and UpsertLabelBatch.  The result carries the rowid of the inserted
    row, [None] when the conflicting row was updated. *)
Definition upsert_label_row (clk : Clock) (g : Registry) (repoID : Z)
    (name color description category : string) : fallible (Registry * option Z) :=
  if existsb (label_has_key repoID name) (labels g)
  then
    Value
      (mkRegistry (organizations g) (organizations_seq g)
         (repositories g) (repositories_seq g)
         (sql_update (label_has_key repoID name)
            (fun r =>
               mk_labels_row (label_id r) (label_repo_id r) (label_name r)
                 (Some color) (Some description) (Some category)
                 (label_created_at r) (SqlText (CURRENT_TIMESTAMP clk)))
            (labels g))
         (labels_seq g),
       None)
  else if negb (repo_exists g repoID)
  then Failure (ErrConstraint "FOREIGN KEY constraint failed")
  else
    let new_id := labels_seq g + 1 in
    Value
      (mkRegistry (organizations g) (organizations_seq g)
         (repositories g) (repositories_seq g)
         (labels g ++
            [mk_labels_row new_id repoID name (Some color) (Some description)
               (Some category) (SqlText (CURRENT_TIMESTAMP clk))
               (SqlText (CURRENT_TIMESTAMP clk))])
         new_id,
       Some new_id).

(** UpsertLabel inserts or updates a label.  [lastInsertRowid] is what
    the connection reports as the last inserted rowid when the statement
    inserted nothing.  On success the caller's struct comes back with its
    category, and with an ID if it had none. *)
Definition UpsertLabel (clk : Clock) (lastInsertRowid : Z) (g : Registry)
    (label : Label.t) : Registry * fallible Label.t :=
  (* Determine category from label name *)
  let category := categorizeLabel (Label.Name label) in
  match upsert_label_row clk g (Label.RepoID label) (Label.Name label)
          (Label.Color label) (Label.Description label) category with
  | Failure err => (g, Failure err)
  | Value (g', inserted) =>
      let new_id := if Label.ID label =? 0
                    then default lastInsertRowid inserted
                    else Label.ID label in
      (g', Value (Label.mk new_id (Label.RepoID label) (Label.Name label)
                    (Label.Color label) (Label.Description label) category
                    (Label.CreatedAt label) (Label.UpdatedAt label)))
  end.

(** UpsertLabelBatch inserts or updates multiple labels in a single
    transaction: the first failing statement rolls everything back. *)
Definition UpsertLabelBatch (clk : Clock) (g : Registry) (batch : list Label.t)
  : Registry * option error :=
  let step (acc : fallible Registry) (label : Label.t) : fallible Registry :=
    match acc with
    | Failure err => Failure err
    | Value g' =>
        match upsert_label_row clk g' (Label.RepoID label) (Label.Name label)
                (Label.Color label) (Label.Description label)
                (categorizeLabel (Label.Name label)) with
        | Failure err => Failure err
        | Value (g'', _) => Value g''
        end
    end in
  match fold_left step batch (Value g) with
  | Value g' => (g', None)
  | Failure err => (g, Some err)
  end.

End queries.

(* ===================================================================== *)
(** * Properties of organizations, repositories and labels *)
(* ===================================================================== *)

Section RegistryProperties.

Import db queries.

Lemma find_none_Forall {A} (p : A -> bool) (l : list A) :
  find p l = None -> Forall (fun a => p a = false) l.
Proof.
  intros Hnone. apply Forall_forall. intros a Hin.
  apply (find_none p l Hnone). by apply list_elem_of_In.
Qed.

(** X6.  GetOrCreateOrg never fails and is a get-or-create: it returns
    an organization of the name asked for, and afterwards the store
    holds a row of that name whose id is the ID returned; a second call
    with that name, at any later time, returns the same ID and leaves the
    store as the first call left it.  When a row of the name was there
    the store is left as it was; when none was, exactly that one row is
    added, after the rows that were there, with the next id of the
    sequence.  A table with one row per name keeps that property. *)
Theorem GetOrCreateOrg_get_or_create clk clk' g name :
  let g1 := fst (GetOrCreateOrg clk g name) in
  exists org r,
    snd (GetOrCreateOrg clk g name) = Value org
    /\ Organization.Name org = name
    /\ find (fun r => String.eqb (org_name r) name) (organizations g1) = Some r
    /\ org_id r = Organization.ID org
    /\ org_name r = name
    /\ (exists org',
          GetOrCreateOrg clk' g1 name = (g1, Value org')
          /\ Organization.ID org' = Organization.ID org
          /\ Organization.Name org' = name)
    /\ match find (fun r => String.eqb (org_name r) name) (organizations g) with
       | Some r0 => g1 = g /\ r = r0
       | None =>
           organizations g1 = organizations g ++ [r]
           /\ org_id r = organizations_seq g + 1
           /\ organizations_seq g1 = organizations_seq g + 1
       end
    /\ (NoDup (org_name <$> organizations g) -> NoDup (org_name <$> organizations g1)).
Proof.
  unfold GetOrCreateOrg.
  destruct (find _ (organizations g)) as [r|] eqn:Hfind; simpl.
  - pose proof (find_some_holds _ _ _ Hfind) as Hname. apply String.eqb_eq in Hname.
    eexists. exists r. split; [reflexivity|]. split; [exact Hname|].
    split; [exact Hfind|]. split; [reflexivity|]. split; [exact Hname|].
    split; [|split].
    + rewrite Hfind. eexists. by repeat split.
    + by split.
    + auto.
  - eexists. eexists. split; [reflexivity|]. split; [reflexivity|].
    assert (Hnew : forall row,
              org_name row = name ->
              find (fun r => String.eqb (org_name r) name) (organizations g ++ [row])
              = Some row).
    { intros row Hrow. apply find_app_None; [exact Hfind|].
      rewrite Hrow. apply String.eqb_refl. }
    split; [by apply Hnew|]. split; [reflexivity|]. split; [reflexivity|].
    split; [|split].
    + rewrite Hnew by reflexivity. eexists. by repeat split.
    + by repeat split.
    + intros Hnd. rewrite fmap_app. apply NoDup_app. split; [exact Hnd|]. split.
      * intros x Hx Hx'. apply list_elem_of_singleton in Hx'. subst x.
        apply list_elem_of_fmap in Hx as (r & Hr & Hin).
        apply find_none_Forall in Hfind.
        rewrite Forall_forall in Hfind. specialize (Hfind r Hin).
        simpl in Hfind. rewrite <- Hr, String.eqb_refl in Hfind. discriminate.
      * apply NoDup_singleton.
Qed.

Lemma find_repo_after_update clk2 g repoID r :
  find (fun r => repo_rowid r =? repoID) (repositories g) = Some r ->
  GetRepoLastSync (UpdateRepoSyncTime clk2 g repoID) repoID
  = Value (Some (CURRENT_TIMESTAMP clk2)).
Proof.
  intros Hfind. unfold GetRepoLastSync, UpdateRepoSyncTime, sql_update. simpl.
  rewrite find_map_inv.
  - rewrite Hfind. simpl. by rewrite (find_some_holds _ _ _ Hfind).
  - intros a. destruct (repo_rowid a =? repoID) eqn:Ha; simpl; by rewrite Ha.
Qed.

(** X7.  When GetOrCreateRepo returns a repository, that repository is
    what the store holds under the full name: a later call with the same
    full name returns its ID, organization and name whatever organization
    and name the caller passes, and changes nothing; and once
    UpdateRepoSyncTime has run for its ID, GetRepoLastSync returns the
    time of that update. *)
Theorem GetOrCreateRepo_returns_stored clk g orgID name fullName g1 repo :
  GetOrCreateRepo clk g orgID name fullName = (g1, Value repo) ->
  Repository.FullName repo = fullName
  /\ (forall clk' orgID' name',
        exists repo',
          GetOrCreateRepo clk' g1 orgID' name' fullName = (g1, Value repo')
          /\ Repository.ID repo' = Repository.ID repo
          /\ Repository.OrgID repo' = Repository.OrgID repo
          /\ Repository.Name repo' = Repository.Name repo)
  /\ (forall clk2,
        GetRepoLastSync (UpdateRepoSyncTime clk2 g1 (Repository.ID repo))
                        (Repository.ID repo)
        = Value (Some (CURRENT_TIMESTAMP clk2))).
Proof.
  unfold GetOrCreateRepo.
  destruct (find _ (repositories g)) as [r|] eqn:Hfind.
  - intros [= <- <-]. simpl.
    pose proof (find_some_holds _ _ _ Hfind) as Hname. apply String.eqb_eq in Hname.
    split; [exact Hname|]. split.
    + intros clk' orgID' name'. rewrite Hfind. eexists. by repeat split.
    + intros clk2.
      destruct (find (fun r0 => repo_rowid r0 =? repo_rowid r) (repositories g))
        as [r0|] eqn:Hid.
      * by apply find_repo_after_update with (r := r0).
      * apply find_some in Hfind as [Hin _].
        apply (find_none _ _ Hid) in Hin. simpl in Hin.
        by rewrite Z.eqb_refl in Hin.
  - destruct (repo_name_taken g orgID name); [discriminate|].
    destruct (negb (org_exists g orgID)); [discriminate|].
    intros [= <- <-]. simpl. split; [reflexivity|]. split.
    + intros clk' orgID' name'.
      erewrite find_app_None; [|exact Hfind|simpl; apply String.eqb_refl].
      eexists. by repeat split.
    + intros clk2.
      set (g1 := mkRegistry _ _ _ _ _ _).
      destruct (find (fun r0 => repo_rowid r0 =? repositories_seq g + 1) (repositories g1))
        as [r0|] eqn:Hid.
      * by apply find_repo_after_update with (r := r0).
      * exfalso.
        assert (Hin : In (mk_repositories_row (repositories_seq g + 1) orgID name fullName
                            true (SqlText (CURRENT_TIMESTAMP clk))
                            (SqlText (CURRENT_TIMESTAMP clk)) None)
                         (repositories g1)).
        { subst g1. simpl. apply in_or_app. right. by left. }
        apply (find_none _ _ Hid) in Hin. simpl in Hin.
        by rewrite Z.eqb_refl in Hin.
Qed.

End RegistryProperties.

(* ===================================================================== *)
(** * Further functions of Go's strings package *)
(* ===================================================================== *)

Module GoStrings.

(** [strings.HasSuffix]. *)
Definition HasSuffix (s suffix : string) : bool :=
  (String.length suffix <=? String.length s)%nat
  && String.eqb (String.substring (String.length s - String.length suffix)
                                  (String.length suffix) s)
                suffix.

(** [strings.TrimSuffix]. *)
Definition TrimSuffix (s suffix : string) : string :=
  if HasSuffix s suffix
  then String.substring 0 (String.length s - String.length suffix) s
  else s.

(** [s[n:]] for [0 <= n <= len(s)]; the empty string beyond the end,
    where Go panics. *)
Definition from (n : nat) (s : string) : string :=
  String.substring n (String.length s - n) s.

(** [strings.Index]: the index of the first instance of [substr] in
    [s], or -1. *)
Definition Index (s substr : string) : Z :=
  match String.index 0 substr s with
  | Some n => Z.of_nat n
  | None => -1
  end.

End GoStrings.

Import GoStrings.

(* ===================================================================== *)
(** * internal/config/config.go: labels and repository patterns *)
(* ===================================================================== *)

Module config.

(** Label represents a GitHub label. *)
Module Label.
Record t := mk {
  Name : string;
  Color : string;
  Description : string
}.
End Label.

(** RepoConfig defines which repos to include/exclude. *)
Record RepoConfig := mkRepoConfig {
  List_ : list string;      (* Explicit list of repos *)
  Include : list string;    (* Pattern-based include *)
  Exclude : list string     (* Pattern-based exclude *)
}.

(** [s[1:]] and [s[:len(s)-1]] of a string that is not empty. *)
Definition tail_of (s : string) : string :=
  String.substring 1 (String.length s - 1) s.

Definition init_of (s : string) : string :=
  String.substring 0 (String.length s - 1) s.

Section Patterns.

(** [filepath.Match(pattern, str)] with its error dropped, as the code
    drops it: the library's glob matcher, taken as given. *)
Variable filepath_Match : string -> string -> bool.

(** matchPattern does simple glob matching. *)
Definition matchPattern (pattern str : string) : bool :=
  if String.eqb pattern "*" then true
  (* Handle prefix wildcard ( *.github.io ) *)
  else if HasPrefix pattern "*" then HasSuffix str (tail_of pattern)
  (* Handle suffix wildcard ( archived-* ) *)
  else if HasSuffix pattern "*" then HasPrefix str (init_of pattern)
  (* Handle full glob with filepath.Match *)
  else filepath_Match pattern str.

Definition shouldIncludeRepo (c : RepoConfig) (repo : string) : bool :=
  (* Check excludes first *)
  if existsb (fun pattern => matchPattern pattern repo) (Exclude c) then false
  (* Check includes *)
  else if (length (Include c) =? 0)%nat then true
  else existsb (fun pattern => matchPattern pattern repo) (Include c).

(** FilterRepos filters repos based on include/exclude patterns. *)
Definition FilterRepos (c : RepoConfig) (repos : list string) : list string :=
  if (length (Include c) =? 0)%nat && (length (Exclude c) =? 0)%nat then repos
  else List.filter (shouldIncludeRepo c) repos.

End Patterns.

(** GetRepos returns the explicit repo list or nil if using patterns. *)
Definition GetRepos (c : RepoConfig) : list string := List_ c.

(** HasExplicitRepos returns true if explicit repo list is defined. *)
Definition HasExplicitRepos (c : RepoConfig) : bool := (0 <? length (List_ c))%nat.

End config.

(* ===================================================================== *)
(** * cmd/kanban/cmd/sync.go: what a sync writes for one repository *)
(* ===================================================================== *)

Module sync.
Import db queries.

(** The columns of the cache the labels of an issue decide: status,
    priority, type, size and the blocked flag of [dbIssue]. *)
Record Parsed := mkParsed {
  parsedStatus : string;
  parsedPriority : string;
  parsedType : string;
  parsedSize : string;
  parsedBlocked : bool
}.

(** Parse labels for status, priority, type, size: the body of the loop
    over [issue.Labels]. *)
Definition parseLabel (p : Parsed) (label : string) : Parsed :=
  let lower := ToLower label in
  if HasPrefix lower "status:" then
    mkParsed (TrimSpace (TrimPrefix lower "status:")) (parsedPriority p)
             (parsedType p) (parsedSize p) (parsedBlocked p)
  else if HasPrefix lower "priority:" then
    mkParsed (parsedStatus p) (TrimSpace (TrimPrefix lower "priority:"))
             (parsedType p) (parsedSize p) (parsedBlocked p)
  else if HasPrefix lower "type:" then
    mkParsed (parsedStatus p) (parsedPriority p)
             (TrimSpace (TrimPrefix lower "type:")) (parsedSize p) (parsedBlocked p)
  else if HasPrefix lower "size:" then
    mkParsed (parsedStatus p) (parsedPriority p) (parsedType p)
             (TrimSpace (TrimPrefix lower "size:")) (parsedBlocked p)
  else if String.eqb label "blocked" then
    mkParsed (parsedStatus p) (parsedPriority p) (parsedType p) (parsedSize p) true
  else p.

Definition parseLabels (labels : list string) : Parsed :=
  fold_left parseLabel labels (mkParsed "" "" "" "" false).

(** The [db.Issue] that runSync hands to UpsertIssue for one fetched
    issue of the repository [repoID]. *)
Definition dbIssueOf (repoID : Z) (issue : github.IssueDetails.t) : Issue :=
  let closedAt :=
    if negb (IsZero (github.IssueDetails.ClosedAt issue))
    then Some (github.IssueDetails.ClosedAt issue) else None in
  let p := parseLabels (github.IssueDetails.Labels issue) in
  (* Calculate lead time for closed issues *)
  let leadTimeHours :=
    match closedAt with
    | Some closed => Hours (Sub closed (github.IssueDetails.CreatedAt issue))
    | None => 0%float
    end in
  (* Treat closed as "done" for status if no done label *)
  let currentStatus :=
    match closedAt with
    | Some _ => if String.eqb (parsedStatus p) "" then "done"%string else parsedStatus p
    | None => parsedStatus p
    end in
  mkIssue 0 repoID (github.IssueDetails.Number issue) (github.IssueDetails.Title issue)
    (ToLower (github.IssueDetails.State issue))
    (github.IssueDetails.CreatedAt issue) (github.IssueDetails.UpdatedAt issue) closedAt
    currentStatus (parsedPriority p) (parsedType p) (parsedSize p) (parsedBlocked p)
    (github.IssueDetails.Assignee issue)
    None None None None None leadTimeHours 0 0.

(** Record blocked periods: the loop over [timeline.BlockedPeriods], the
    j-th insert reading the clock [clockAt (first + j)]. *)
Fixpoint recordBlockedPeriods (clockAt : nat -> Clock) (first : nat) (d : DB)
    (issueID : Z) (periods : list github.BlockedPeriod) : DB :=
  match periods with
  | [] => d
  | bp :: periods' =>
      let start := github.Start bp in
      let end_ := if negb (IsZero (github.End bp)) then Some (github.End bp) else None in
      recordBlockedPeriods clockAt (S first)
        (RecordBlockedPeriod (clockAt first) d issueID (Some start) end_ "")
        issueID periods'
  end.

Section SyncIssue.

Variable dayNumber : Timestamp -> float.

(** The statements of runSync for one fetched issue outside a dry run,
    from UpsertIssue on.  [clockAt k] is the clock as the k-th statement
    that reads it finds it.  [timeline] is what GetIssueTimeline answered,
    [None] for an error; without --with-timeline it is not asked. *)
Definition syncIssue (clockAt : nat -> Clock) (withTimeline : bool)
    (timeline : option github.TimelineResult) (d : DB) (dbIssue : Issue) : DB :=
  let '(d, dbIssue) := UpsertIssue (clockAt 0%nat) d dbIssue in
  (* Recalc cycle time for closed issues (uses closed_at as done time) *)
  let d :=
    match GHClosedAt dbIssue with
    | Some _ => RecalcCycleTime dayNumber d (ID dbIssue)
    | None => d
    end in
  (* Fetch timeline for accurate timestamps if requested *)
  if withTimeline && negb (String.eqb (CurrentStatus dbIssue) "") then
    match timeline with
    | Some timeline =>
        (* Update status timestamps *)
        let changes := github.StatusChanges timeline in
        let d := UpdateIssueTimestamps (clockAt 1%nat) d (ID dbIssue)
                   (changes !! "ready"%string) (changes !! "in-progress"%string)
                   (changes !! "review"%string) (changes !! "testing"%string)
                   (changes !! "done"%string) in
        (* Record blocked periods *)
        let d := recordBlockedPeriods clockAt 2 d (ID dbIssue)
                   (github.BlockedPeriods timeline) in
        (* Update blocked time and recalc cycle time *)
        let d := if PrimFloat.ltb 0 (github.TotalBlocked timeline)
                 then UpdateIssueBlockedTime d (ID dbIssue) (github.TotalBlocked timeline)
                 else d in
        RecalcCycleTime dayNumber d (ID dbIssue)
    | None => d
    end
  else d.

End SyncIssue.

(** Sync labels to DB: the loop that follows SyncLabels, one UpsertLabel
    per label of the configuration, errors ignored.  The i-th statement
    reads the clock [clockAt (first + i)] and finds [rowidAt (first + i)]
    as the last inserted rowid of its connection. *)
Fixpoint cacheLabels (clockAt : nat -> Clock) (rowidAt : nat -> Z) (first : nat)
    (g : Registry) (repoID : Z) (labels : list config.Label.t) : Registry :=
  match labels with
  | [] => g
  | l :: labels' =>
      let dbLabel :=
        Label.mk 0 repoID (config.Label.Name l) (config.Label.Color l)
                 (config.Label.Description l) "" zeroTime zeroTime in
      cacheLabels clockAt rowidAt (S first)
        (fst (UpsertLabel (clockAt first) (rowidAt first) g dbLabel))
        repoID labels'
  end.

(** The three slices the sync hands to LabelsNeedSync. *)
Definition namesOf (labels : list config.Label.t) : list string :=
  config.Label.Name <$> labels.
Definition colorsOf (labels : list config.Label.t) : list string :=
  config.Label.Color <$> labels.
Definition descriptionsOf (labels : list config.Label.t) : list string :=
  config.Label.Description <$> labels.

End sync.

(* ===================================================================== *)
(** * Properties of the label cache *)
(* ===================================================================== *)

Section LabelProperties.

Import db queries sync.

(** The rows of labels under one UNIQUE key all hold these values, and
    there is such a row. *)
Definition cached (g : Registry) (repoID : Z) (name color description : string) : Prop :=
  (exists r, In r (labels g) /\ label_has_key repoID name r = true)
  /\ forall r, In r (labels g) -> label_has_key repoID name r = true ->
       label_color r = Some color
       /\ label_description r = Some description
       /\ label_category r = Some (categorizeLabel name).

(** Every row can be scanned: its color is not NULL. *)
Definition readable (g : Registry) : Prop :=
  Forall (fun r => label_color r <> None) (labels g).

(** The UNIQUE(repo_id, name) constraint, as a property of the table. *)
Definition label_keys_unique (g : Registry) : Prop :=
  forall repoID name,
    (length (List.filter (label_has_key repoID name) (labels g)) <= 1)%nat.

Lemma label_has_key_eq repoID name repoID' name' r :
  label_has_key repoID name r = true ->
  label_has_key repoID' name' r = true ->
  repoID = repoID' /\ name = name'.
Proof.
  unfold label_has_key. intros H H'.
  apply andb_prop in H as [H1 H2]. apply andb_prop in H' as [H1' H2'].
  apply Z.eqb_eq in H1, H1'. apply String.eqb_eq in H2, H2'.
  split; congruence.
Qed.

Lemma upsert_label_row_effect clk g repoID name color description category :
  repo_exists g repoID = true ->
  exists g' inserted,
    upsert_label_row clk g repoID name color description category
    = Value (g', inserted)
    /\ repositories g' = repositories g
    /\ (exists r, In r (labels g') /\ label_has_key repoID name r = true)
    /\ (forall r, In r (labels g') -> label_has_key repoID name r = true ->
          label_color r = Some color /\ label_description r = Some description
          /\ label_category r = Some category)
    /\ (forall r, In r (labels g') -> label_has_key repoID name r = false ->
          In r (labels g))
    /\ (forall r, In r (labels g) -> label_has_key repoID name r = false ->
          In r (labels g')).
Proof.
  intros Hrepo. unfold upsert_label_row.
  destruct (existsb (label_has_key repoID name) (labels g)) eqn:Hconflict.
  - eexists _, _. split; [reflexivity|]. simpl. split; [reflexivity|].
    unfold sql_update. split; [|split; [|split]].
    + apply existsb_exists in Hconflict as (r & Hin & Hkey).
      eexists. split; [apply in_map_iff; exists r; split; [reflexivity | exact Hin]|].
      rewrite Hkey. exact Hkey.
    + intros r' Hin Hkey. apply in_map_iff in Hin as (r & <- & Hin).
      destruct (label_has_key repoID name r) eqn:Hr; [by repeat split|].
      congruence.
    + intros r' Hin Hkey. apply in_map_iff in Hin as (r & <- & Hin).
      destruct (label_has_key repoID name r) eqn:Hr; [|exact Hin].
      unfold label_has_key in Hkey, Hr. simpl in Hkey. congruence.
    + intros r Hin Hkey. apply in_map_iff. exists r. by rewrite Hkey.
  - rewrite Hrepo. simpl. eexists _, _. split; [reflexivity|]. simpl.
    split; [reflexivity|].
    assert (Hnew : label_has_key repoID name
                     (mk_labels_row (labels_seq g + 1) repoID name (Some color)
                        (Some description) (Some category)
                        (SqlText (CURRENT_TIMESTAMP clk))
                        (SqlText (CURRENT_TIMESTAMP clk))) = true).
    { unfold label_has_key. simpl. by rewrite Z.eqb_refl, String.eqb_refl. }
    split; [|split; [|split]].
    + eexists. split; [apply in_or_app; right; by left | exact Hnew].
    + intros r Hin Hkey. apply in_app_or in Hin as [Hin|[<-|[]]]; [|by repeat split].
      exfalso.
      assert (existsb (label_has_key repoID name) (labels g) = true)
        by (apply existsb_exists; eauto).
      congruence.
    + intros r Hin Hkey. apply in_app_or in Hin as [Hin|[<-|[]]]; [exact Hin|].
      congruence.
    + intros r Hin _. apply in_or_app. by left.
Qed.

Lemma repo_exists_same g g' repoID :
  repositories g' = repositories g -> repo_exists g' repoID = repo_exists g repoID.
Proof. unfold repo_exists. by intros ->. Qed.

Lemma UpsertLabel_effect clk rowid g l repoID :
  repo_exists g repoID = true ->
  let g' := fst (UpsertLabel clk rowid g
                   (Label.mk 0 repoID (config.Label.Name l) (config.Label.Color l)
                      (config.Label.Description l) "" zeroTime zeroTime)) in
  repo_exists g' repoID = true
  /\ cached g' repoID (config.Label.Name l) (config.Label.Color l)
            (config.Label.Description l)
  /\ (readable g -> readable g')
  /\ (forall name color description,
        name <> config.Label.Name l ->
        cached g repoID name color description ->
        cached g' repoID name color description).
Proof.
  intros Hrepo. unfold UpsertLabel. simpl.
  destruct (upsert_label_row_effect clk g repoID (config.Label.Name l)
              (config.Label.Color l) (config.Label.Description l)
              (categorizeLabel (config.Label.Name l)) Hrepo)
    as (g' & inserted & -> & Hrepos & Hex & Hvals & Hback & Hkeep).
  simpl. split; [by rewrite (repo_exists_same g g')|]. split; [by split|]. split.
  - intros Hread. apply Forall_forall. intros r Hin. apply list_elem_of_In in Hin.
    destruct (label_has_key repoID (config.Label.Name l) r) eqn:Hkey.
    + destruct (Hvals r Hin Hkey) as (-> & _). discriminate.
    + unfold readable in Hread. rewrite Forall_forall in Hread.
      apply Hread, list_elem_of_In. by apply Hback.
  - intros name color description Hne [(r & Hin & Hkey) Hall].
    assert (Hother : forall r0, label_has_key repoID name r0 = true ->
                       label_has_key repoID (config.Label.Name l) r0 = false).
    { intros r0 H0. destruct (label_has_key repoID (config.Label.Name l) r0) eqn:H1;
        [|reflexivity].
      destruct (label_has_key_eq _ _ _ _ _ H0 H1) as [_ ?]. congruence. }
    split.
    + exists r. split; [|exact Hkey]. apply Hkeep; auto.
    + intros r0 Hin0 Hkey0. apply Hall; [|exact Hkey0]. apply Hback; auto.
Qed.

Lemma cacheLabels_effect clockAt rowidAt repoID (configured : list config.Label.t) :
  forall first g,
    repo_exists g repoID = true ->
    NoDup (namesOf configured) ->
    let g' := cacheLabels clockAt rowidAt first g repoID configured in
    (readable g -> readable g')
    /\ (forall name color description,
          name ∉ namesOf configured ->
          cached g repoID name color description ->
          cached g' repoID name color description)
    /\ (forall l, l ∈ configured ->
          cached g' repoID (config.Label.Name l) (config.Label.Color l)
                 (config.Label.Description l)).
Proof.
  induction configured as [|l0 rest IH]; intros first g Hrepo Hnd; simpl.
  - split; [auto|]. split; [auto|]. intros l Hl. by apply elem_of_nil in Hl.
  - unfold namesOf in Hnd. simpl in Hnd. apply NoDup_cons in Hnd as [Hnotin Hnd].
    destruct (UpsertLabel_effect (clockAt first) (rowidAt first) g l0 repoID Hrepo)
      as (Hrepo' & Hcached & Hread & Hkeep).
    destruct (IH (S first) _ Hrepo' Hnd) as (IHread & IHkeep & IHall).
    split; [auto|]. split.
    + intros name color description Hname Hc.
      apply IHkeep.
      * intros Hin. apply Hname. unfold namesOf. simpl. apply elem_of_cons. by right.
      * apply Hkeep; [|exact Hc]. intros ->. apply Hname.
        unfold namesOf. simpl. apply elem_of_cons. by left.
    + intros l Hl. apply elem_of_cons in Hl as [->|Hl]; [|by apply IHall].
      by apply IHkeep.
Qed.

(** What GetLabelsByRepo reads from a table whose rows can be scanned. *)
Definition label_of_row (r : labels_row) : Label.t :=
  Label.mk (label_id r) (label_repo_id r) (label_name r)
    (default ""%string (label_color r)) (default ""%string (label_description r))
    (default ""%string (label_category r)) zeroTime zeroTime.

Lemma scan_rows_readable (rows : list labels_row) :
  Forall (fun r => label_color r <> None) rows ->
  scan_rows scan_label rows = Value (label_of_row <$> rows).
Proof.
  induction 1 as [|r rows Hr _ IH]; simpl; [reflexivity|].
  unfold scan_label at 1. unfold label_of_row at 1.
  destruct (label_color r); [|done]. by rewrite IH.
Qed.

Lemma GetLabelsByRepo_readable g repoID :
  readable g ->
  GetLabelsByRepo g repoID
  = Value (label_of_row <$> List.filter (fun r => label_repo_id r =? repoID) (labels g)).
Proof.
  intros Hread. apply scan_rows_readable.
  apply Forall_forall. intros r Hin. apply list_elem_of_In, filter_In in Hin as [Hin _].
  unfold readable in Hread. rewrite Forall_forall in Hread.
  by apply Hread, list_elem_of_In.
Qed.

Lemma find_over_app {A} (p : A -> bool) (l1 l2 : list A) :
  find p (l1 ++ l2) = match find p l1 with Some a => Some a | None => find p l2 end.
Proof.
  induction l1 as [|a l1 IH]; simpl; [reflexivity|]. by destruct (p a).
Qed.

Lemma cachedMap_lookup (cachedLabels : list Label.t) : forall (m : gmap string Label.t) name,
  (fold_left (fun m l => <[Label.Name l := l]> m) cachedLabels m) !! name
  = match find (fun l => String.eqb (Label.Name l) name) (rev cachedLabels) with
    | Some l => Some l
    | None => m !! name
    end.
Proof.
  induction cachedLabels as [|l rest IH]; intros m name; simpl; [reflexivity|].
  rewrite IH, find_over_app.
  destruct (find _ (rev rest)); [reflexivity|]. simpl.
  destruct (String.eqb_spec (Label.Name l) name) as [->|Hne].
  - by rewrite lookup_insert_eq.
  - by rewrite lookup_insert_ne.
Qed.

Lemma labelsDiffer_all_match (m : gmap string Label.t) (post : list config.Label.t) :
  forall pre,
    (forall l, l ∈ post ->
       exists x, m !! config.Label.Name l = Some x
                 /\ Label.Color x = config.Label.Color l
                 /\ Label.Description x = config.Label.Description l) ->
    labelsDiffer m (colorsOf (pre ++ post)) (descriptionsOf (pre ++ post))
                 (length pre) (namesOf post)
    = Some false.
Proof.
  induction post as [|l post IH]; intros pre Hall; simpl; [reflexivity|].
  destruct (Hall l) as (x & -> & Hc & Hd); [apply elem_of_cons; by left|].
  unfold colorsOf, descriptionsOf.
  rewrite !list_lookup_fmap, list_lookup_middle by reflexivity. simpl.
  rewrite Hc, Hd, !String.eqb_refl. simpl.
  specialize (IH (pre ++ [l])).
  rewrite <- app_assoc, length_app in IH. simpl in IH.
  replace (length pre + 1)%nat with (S (length pre)) in IH by lia.
  apply IH. intros l' Hl'. apply Hall. apply elem_of_cons. by right.
Qed.

(** X8.  Once the sync has cached the labels of the configuration for a
    repository the store knows, LabelsNeedSync answers false for that
    configuration, provided no two labels of the configuration share a
    name and every row of the labels table has a color; on a store
    without label rows it answers true for every configuration that has
    a label. *)
Theorem labels_in_sync_after_caching clockAt rowidAt g repoID
    (configured : list config.Label.t) :
  repo_exists g repoID = true ->
  NoDup (namesOf configured) ->
  readable g ->
  LabelsNeedSync (cacheLabels clockAt rowidAt 0 g repoID configured) repoID
    (namesOf configured) (colorsOf configured) (descriptionsOf configured)
  = Some (false, None)
  /\ (labels g = [] -> configured <> [] ->
      LabelsNeedSync g repoID (namesOf configured) (colorsOf configured)
        (descriptionsOf configured)
      = Some (true, None)).
Proof.
  intros Hrepo Hnd Hread. split.
  - destruct (cacheLabels_effect clockAt rowidAt repoID configured 0%nat g Hrepo Hnd)
      as (Hread' & _ & Hall).
    unfold LabelsNeedSync. rewrite GetLabelsByRepo_readable by auto.
    rewrite (labelsDiffer_all_match _ configured []); [reflexivity|].
    intros l Hl. destruct (Hall l Hl) as [(r & Hin & Hkey) Hvals].
    rewrite cachedMap_lookup, lookup_empty.
    assert (Hr : In (label_of_row r)
                   (rev (label_of_row <$>
                           List.filter (fun r => label_repo_id r =? repoID)
                             (labels (cacheLabels clockAt rowidAt 0 g repoID configured))))).
    { apply in_rev. rewrite rev_involutive. apply in_map. apply filter_In. split; [exact Hin|].
      unfold label_has_key in Hkey. by apply andb_prop in Hkey as [-> _]. }
    destruct (find _ _) as [x|] eqn:Hfind.
    + exists x. split; [reflexivity|].
      apply find_some in Hfind as [Hx Hname]. apply String.eqb_eq in Hname.
      apply in_rev in Hx. rewrite ?rev_involutive in Hx.
      apply in_map_iff in Hx as (r0 & <- & Hin0).
      apply filter_In in Hin0 as [Hin0 Hrepo0].
      destruct (Hvals r0 Hin0) as (Hc & Hd & _).
      { unfold label_has_key. rewrite Hrepo0. simpl in Hname. rewrite Hname.
        by rewrite String.eqb_refl. }
      simpl. by rewrite Hc, Hd.
    + exfalso. apply (find_none _ _ Hfind) in Hr. simpl in Hr.
      unfold label_has_key in Hkey. apply andb_prop in Hkey as [_ Hkey]. congruence.
  - intros Hempty Hsome. unfold LabelsNeedSync, GetLabelsByRepo. rewrite Hempty. simpl.
    destruct configured as [|l rest]; [done|]. simpl. by rewrite lookup_empty.
Qed.

(** X9.  A successful UpsertLabel stores the category categorizeLabel
    reads off the name, whatever category the caller's struct carried,
    together with the color and the description given; it keeps the
    UNIQUE(repo_id, name) property of the table; and when a row of the key
    exists it updates that row in place: no row is added and every row
    keeps its id. *)
Theorem UpsertLabel_upsert clk rowid g label g' label' :
  UpsertLabel clk rowid g label = (g', Value label') ->
  Label.Category label' = categorizeLabel (Label.Name label)
  /\ cached g' (Label.RepoID label) (Label.Name label) (Label.Color label)
            (Label.Description label)
  /\ (label_keys_unique g -> label_keys_unique g')
  /\ (existsb (label_has_key (Label.RepoID label) (Label.Name label)) (labels g) = true ->
      label_id <$> labels g' = label_id <$> labels g).
Proof.
  unfold UpsertLabel, upsert_label_row.
  destruct (existsb _ (labels g)) eqn:Hconflict.
  - intros [= <- <-]. simpl. split; [reflexivity|].
    assert (Hkeys : forall repoID name r,
               label_has_key repoID name
                 (if label_has_key (Label.RepoID label) (Label.Name label) r
                  then mk_labels_row (label_id r) (label_repo_id r) (label_name r)
                         (Some (Label.Color label)) (Some (Label.Description label))
                         (Some (categorizeLabel (Label.Name label)))
                         (label_created_at r) (SqlText (CURRENT_TIMESTAMP clk))
                  else r)
               = label_has_key repoID name r).
    { intros repoID name r. by destruct (label_has_key _ _ r). }
    split; [|split].
    + split.
      * apply existsb_exists in Hconflict as (r & Hin & Hkey).
        eexists. split; [apply in_map_iff; exists r; split; [reflexivity | exact Hin]|].
        by rewrite Hkeys.
      * intros r' Hin Hkey. apply in_map_iff in Hin as (r & <- & Hin).
        rewrite Hkeys in Hkey. rewrite Hkey. by repeat split.
    + intros Huniq repoID name. unfold sql_update.
      specialize (Huniq repoID name).
      assert (Hlen : forall rows,
                 length (List.filter (label_has_key repoID name)
                           (map (fun r =>
                                   if label_has_key (Label.RepoID label) (Label.Name label) r
                                   then mk_labels_row (label_id r) (label_repo_id r)
                                          (label_name r) (Some (Label.Color label))
                                          (Some (Label.Description label))
                                          (Some (categorizeLabel (Label.Name label)))
                                          (label_created_at r)
                                          (SqlText (CURRENT_TIMESTAMP clk))
                                   else r) rows))
                 = length (List.filter (label_has_key repoID name) rows)).
      { induction rows as [|r rows IH]; simpl; [reflexivity|].
        rewrite Hkeys. destruct (label_has_key repoID name r); simpl; by rewrite IH. }
      cbn [labels]. unfold sql_update. by rewrite Hlen.
    + intros _. unfold sql_update. rewrite <- list_fmap_compose.
      apply list_fmap_ext. intros i r _. simpl.
      by destruct (label_has_key _ _ r).
  - destruct (negb (repo_exists g (Label.RepoID label))); [discriminate|].
    intros [= <- <-]. simpl. split; [reflexivity|].
    assert (Hnew : label_has_key (Label.RepoID label) (Label.Name label)
                     (mk_labels_row (labels_seq g + 1) (Label.RepoID label)
                        (Label.Name label) (Some (Label.Color label))
                        (Some (Label.Description label))
                        (Some (categorizeLabel (Label.Name label)))
                        (SqlText (CURRENT_TIMESTAMP clk))
                        (SqlText (CURRENT_TIMESTAMP clk))) = true).
    { unfold label_has_key. simpl. by rewrite Z.eqb_refl, String.eqb_refl. }
    assert (Hnone : List.filter (label_has_key (Label.RepoID label) (Label.Name label))
                      (labels g) = []).
    { induction (labels g) as [|r rows IH]; simpl in *; [reflexivity|].
      apply orb_false_elim in Hconflict as [-> Hrest]. by apply IH. }
    split; [|split].
    + split.
      * eexists. split; [apply in_or_app; right; by left | exact Hnew].
      * intros r Hin Hkey. apply in_app_or in Hin as [Hin|[<-|[]]]; [|by repeat split].
        exfalso.
        assert (existsb (label_has_key (Label.RepoID label) (Label.Name label)) (labels g)
                = true) by (apply existsb_exists; eauto).
        congruence.
    + intros Huniq repoID name. cbn [labels]. rewrite List.filter_app, length_app. simpl.
      destruct (label_has_key repoID name _) eqn:Hkey; simpl.
      * destruct (label_has_key_eq _ _ _ _ _ Hkey Hnew) as [-> ->].
        rewrite Hnone. simpl. lia.
      * specialize (Huniq repoID name). lia.
    + discriminate.
Qed.

End LabelProperties.

(* ===================================================================== *)
(** * Properties of the sync of one issue *)
(* ===================================================================== *)

Section SyncProperties.

Import db queries sync.

Variable dayNumber : Timestamp -> float.

(** ** The record built from a fetched issue *)

Lemma parseLabel_blocked p label :
  parsedBlocked (parseLabel p label) = parsedBlocked p || String.eqb label "blocked".
Proof.
  unfold parseLabel.
  destruct (String.eqb_spec label "blocked") as [->|Hne].
  - simpl. by rewrite orb_true_r.
  - rewrite orb_false_r.
    repeat match goal with |- context [if ?c then _ else _] => destruct c end;
      reflexivity.
Qed.

Lemma parseLabels_blocked labels : forall p,
  parsedBlocked (fold_left parseLabel labels p)
  = parsedBlocked p || existsb (fun label => String.eqb label "blocked") labels.
Proof.
  induction labels as [|label labels IH]; intros p; simpl.
  - by rewrite orb_false_r.
  - by rewrite IH, parseLabel_blocked, orb_assoc.
Qed.

Lemma parseLabel_status p label :
  parsedStatus (parseLabel p label)
  = if HasPrefix (ToLower label) "status:" then github.extractStatus label
    else parsedStatus p.
Proof.
  unfold parseLabel, github.extractStatus.
  destruct (HasPrefix (ToLower label) "status:"); [reflexivity|].
  repeat match goal with |- context [if ?c then _ else _] => destruct c end;
    reflexivity.
Qed.

Lemma parseLabels_no_status labels : forall p,
  Forall (fun label => HasPrefix (ToLower label) "status:" = false) labels ->
  parsedStatus (fold_left parseLabel labels p) = parsedStatus p.
Proof.
  induction labels as [|label labels IH]; intros p Hall; simpl; [reflexivity|].
  apply Forall_cons in Hall as [Hlabel Hall].
  by rewrite IH, parseLabel_status, Hlabel.
Qed.

Lemma ToLower_idempotent s : ToLower (ToLower s) = ToLower s.
Proof.
  induction s as [|c s IH]; simpl; [reflexivity|]. rewrite IH. f_equal.
  unfold lower_ascii.
  destruct (((65 <=? N_of_ascii c) && (N_of_ascii c <=? 90))%N) eqn:Hup.
  - apply andb_prop in Hup as [H1 H2].
    apply N.leb_le in H1, H2.
    rewrite N_ascii_embedding by lia.
    replace (((65 <=? N_of_ascii c + 32) && (N_of_ascii c + 32 <=? 90))%N) with false;
      [reflexivity|].
    symmetry. apply andb_false_iff. right. apply N.leb_gt. lia.
  - by rewrite Hup.
Qed.

(** X10.  The record the sync stores for a fetched issue: it is marked
    blocked exactly when one of its labels is the text "blocked", in that
    very spelling; its state is in lower case; when the issue carries a
    close time, the record has a lead time of the hours from creation to
    close and a status that is never empty, "done" when the labels give
    none; the status is read off the last label with the prefix "status:",
    as extractStatus reads it for the timeline, and labels without that
    prefix leave it empty. *)
Theorem dbIssueOf_reads_labels repoID (issue : github.IssueDetails.t) :
  let dbIssue := dbIssueOf repoID issue in
  (IsBlocked dbIssue = true <-> "blocked"%string ∈ github.IssueDetails.Labels issue)
  /\ ToLower (State dbIssue) = State dbIssue
  /\ (IsZero (github.IssueDetails.ClosedAt issue) = false ->
      GHClosedAt dbIssue = Some (github.IssueDetails.ClosedAt issue)
      /\ LeadTimeHours dbIssue
         = Hours (Sub (github.IssueDetails.ClosedAt issue)
                      (github.IssueDetails.CreatedAt issue))
      /\ CurrentStatus dbIssue <> ""%string)
  /\ (forall before label after,
        github.IssueDetails.Labels issue = before ++ label :: after ->
        HasPrefix (ToLower label) "status:" = true ->
        Forall (fun l => HasPrefix (ToLower l) "status:" = false) after ->
        CurrentStatus dbIssue
        = if negb (IsZero (github.IssueDetails.ClosedAt issue))
             && String.eqb (github.extractStatus label) ""
          then "done"%string else github.extractStatus label)
  /\ (Forall (fun l => HasPrefix (ToLower l) "status:" = false)
             (github.IssueDetails.Labels issue) ->
      CurrentStatus dbIssue
      = if negb (IsZero (github.IssueDetails.ClosedAt issue)) then "done"%string
        else ""%string).
Proof.
  unfold dbIssueOf. cbn [IsBlocked State GHClosedAt LeadTimeHours CurrentStatus].
  split; [|split; [|split; [|split]]].
  - unfold parseLabels. rewrite parseLabels_blocked. simpl. split.
    + intros Hex. apply existsb_exists in Hex as (label & Hin & Heq).
      apply String.eqb_eq in Heq. subst label. by apply list_elem_of_In.
    + intros Hin. apply existsb_exists. exists "blocked"%string.
      split; [by apply list_elem_of_In | reflexivity].
  - apply ToLower_idempotent.
  - intros Hclosed. rewrite Hclosed. simpl. split; [reflexivity|]. split; [reflexivity|].
    destruct (String.eqb_spec (parsedStatus (parseLabels (github.IssueDetails.Labels issue)))
                              ""); [discriminate | assumption].
  - intros before label after Hlabels Hprefix Hafter.
    assert (Hstatus : parsedStatus (parseLabels (github.IssueDetails.Labels issue))
                      = github.extractStatus label).
    { unfold parseLabels. rewrite Hlabels, fold_left_app. simpl.
      rewrite parseLabels_no_status by exact Hafter.
      by rewrite parseLabel_status, Hprefix. }
    rewrite Hstatus.
    destruct (negb (IsZero (github.IssueDetails.ClosedAt issue))); simpl; [|reflexivity].
    reflexivity.
  - intros Hnone.
    assert (Hstatus : parsedStatus (parseLabels (github.IssueDetails.Labels issue))
                      = ""%string).
    { unfold parseLabels. by rewrite parseLabels_no_status. }
    rewrite Hstatus. by destruct (negb (IsZero (github.IssueDetails.ClosedAt issue))).
Qed.

(** ** The statements run for one issue *)

Lemma select_issue_update d cond set repoID num :
  (forall r, repo_id (set r) = repo_id r /\ number (set r) = number r) ->
  select_issue (with_issues d (sql_update cond set (issues d)) (issues_seq d)) repoID num
  = (fun r => if cond r then set r else r) <$> select_issue d repoID num.
Proof.
  intros Hkey. unfold select_issue, sql_update. simpl.
  apply find_map_inv. intros r. destruct (cond r); [|reflexivity].
  destruct (Hkey r) as [-> ->]. reflexivity.
Qed.

(** The row UpsertIssue leaves under the key of the issue. *)
Lemma select_UpsertIssue_row clk d issue :
  exists r,
    select_issue (fst (UpsertIssue clk d issue)) (RepoID issue) (Number issue) = Some r
    /\ id r = ID (snd (UpsertIssue clk d issue))
    /\ is_blocked r = IsBlocked issue
    /\ blocked_time_hours r = Some (BlockedTimeHours issue).
Proof.
  unfold UpsertIssue.
  destruct (select_issue d (RepoID issue) (Number issue)) as [existing|] eqn:Hsel.
  - cbn [fst snd]. set (d1 := if negb _ then _ else d).
    assert (exists g, issues d1 = map g (issues d)
                      /\ forall r, repo_id (g r) = repo_id r /\ number (g r) = number r
                                   /\ id (g r) = id r) as (g & Hg & Hkey).
    { subst d1. destruct (negb _).
      - unfold updateStatusTimestamp. destruct (tracked_of _) as [column|]; simpl.
        + eexists. split; [reflexivity|]. intros r. simpl. by destruct (andb _ _).
        + exists (fun r => r). by rewrite map_id.
      - exists (fun r => r). by rewrite map_id. }
    rewrite select_issue_update by (intros r; by split).
    unfold select_issue in *. rewrite Hg, find_map_inv.
    + rewrite Hsel. simpl. destruct (Hkey existing) as (_ & _ & Hid).
      rewrite Hid, Z.eqb_refl. eexists. split; [reflexivity|]. simpl.
      by repeat split.
    + intros r. destruct (Hkey r) as (-> & -> & _). reflexivity.
  - exists (inserted_row clk (issues_seq d + 1) issue).
    split; [|by repeat split].
    unfold select_issue in *.
    destruct (negb _); simpl; apply find_app_None; auto; simpl; by rewrite !Z.eqb_refl.
Qed.

Lemma UpsertIssue_record clk d issue :
  RepoID (snd (UpsertIssue clk d issue)) = RepoID issue
  /\ Number (snd (UpsertIssue clk d issue)) = Number issue
  /\ GHClosedAt (snd (UpsertIssue clk d issue)) = GHClosedAt issue
  /\ CurrentStatus (snd (UpsertIssue clk d issue)) = CurrentStatus issue.
Proof.
  unfold UpsertIssue.
  by destruct (select_issue d (RepoID issue) (Number issue)) as [existing|].
Qed.

Lemma UpsertIssue_blocked_periods clk d issue :
  blocked_periods (fst (UpsertIssue clk d issue)) = blocked_periods d.
Proof.
  unfold UpsertIssue.
  destruct (select_issue d (RepoID issue) (Number issue)) as [existing|]; simpl.
  - destruct (negb _); [|reflexivity].
    unfold updateStatusTimestamp. by destruct (tracked_of _).
  - by destruct (negb _).
Qed.

(** The blocked_periods rows one run of the loop writes. *)
Fixpoint periodRows (clockAt : nat -> Clock) (first : nat) (seq issueID : Z)
    (periods : list github.BlockedPeriod) : list blocked_periods_row :=
  match periods with
  | [] => []
  | bp :: periods' =>
      mk_blocked_periods_row (seq + 1) issueID (Some (GoText (github.Start bp)))
        (if negb (IsZero (github.End bp)) then Some (GoText (github.End bp)) else None)
        (if negb (IsZero (github.End bp))
         then Hours (Sub (github.End bp) (github.Start bp)) else 0%float)
        None (SqlText (CURRENT_TIMESTAMP (clockAt first)))
      :: periodRows clockAt (S first) (seq + 1) issueID periods'
  end.

Lemma periodRows_length clockAt issueID periods : forall first seq,
  length (periodRows clockAt first seq issueID periods) = length periods.
Proof. induction periods as [|bp periods IH]; intros; simpl; [reflexivity | by rewrite IH]. Qed.

Lemma recordBlockedPeriods_effect clockAt issueID periods : forall first d,
  issues (recordBlockedPeriods clockAt first d issueID periods) = issues d
  /\ blocked_periods (recordBlockedPeriods clockAt first d issueID periods)
     = blocked_periods d
       ++ periodRows clockAt first (blocked_periods_seq d) issueID periods.
Proof.
  induction periods as [|bp periods IH]; intros first d; simpl.
  - by rewrite app_nil_r.
  - destruct (IH (S first)
                (RecordBlockedPeriod (clockAt first) d issueID (Some (github.Start bp))
                   (if negb (IsZero (github.End bp)) then Some (github.End bp) else None)
                   "")) as [-> ->].
    split; [reflexivity|]. simpl. rewrite <- app_assoc. simpl.
    by destruct (negb (IsZero (github.End bp))).
Qed.

(** The name of the status a column entered_*_at belongs to. *)
Definition status_name (c : tracked) : string :=
  match c with
  | Ready => "ready"
  | InProgress => "in-progress"
  | Review => "review"
  | Testing => "testing"
  | Done => "done"
  end.

(** X11.  What a sync with --with-timeline leaves in the row of an issue
    that has a status and whose timeline was fetched: the row is marked
    blocked whenever the timeline counts blocked hours, also when the
    issue carries no blocked label any more, and holds those hours as
    blocked time; with no blocked hours in the timeline the flag is the
    one the labels gave and the blocked time is the one of the record; and
    every entered_*_at column whose status the timeline saw holds the
    time of the timeline.  Without a timeline the flag follows the
    labels. *)
Theorem syncIssue_blocked_from_timeline clockAt d dbIssue :
  (forall timeline,
     CurrentStatus dbIssue <> ""%string ->
     exists r,
       select_issue (syncIssue dayNumber clockAt true (Some timeline) d dbIssue)
                    (RepoID dbIssue) (Number dbIssue) = Some r
       /\ is_blocked r
          = (if PrimFloat.ltb 0 (github.TotalBlocked timeline) then true
             else IsBlocked dbIssue)
       /\ blocked_time_hours r
          = Some (if PrimFloat.ltb 0 (github.TotalBlocked timeline)
                  then github.TotalBlocked timeline else BlockedTimeHours dbIssue)
       /\ (forall c t, github.StatusChanges timeline !! status_name c = Some t ->
             entered c r = Some (GoText t)))
  /\ (forall withTimeline,
        exists r,
          select_issue (syncIssue dayNumber clockAt withTimeline None d dbIssue)
                       (RepoID dbIssue) (Number dbIssue) = Some r
          /\ is_blocked r = IsBlocked dbIssue).
Proof.
  destruct (select_UpsertIssue_row (clockAt 0%nat) d dbIssue)
    as (r1 & Hsel1 & Hid1 & Hblocked1 & Hhours1).
  destruct (UpsertIssue_record (clockAt 0%nat) d dbIssue) as (Hrepo & Hnum & Hclosed & Hst).
  unfold syncIssue.
  destruct (UpsertIssue (clockAt 0%nat) d dbIssue) as [d1 issue1]. cbn [fst snd] in *.
  (* after the first recalculation *)
  set (d2 := match GHClosedAt issue1 with
             | Some _ => RecalcCycleTime dayNumber d1 (ID issue1)
             | None => d1
             end).
  assert (exists r2, select_issue d2 (RepoID dbIssue) (Number dbIssue) = Some r2
                     /\ id r2 = ID issue1 /\ is_blocked r2 = IsBlocked dbIssue
                     /\ blocked_time_hours r2 = Some (BlockedTimeHours dbIssue))
    as (r2 & Hsel2 & Hid2 & Hblocked2 & Hhours2).
  { subst d2. destruct (GHClosedAt issue1); [|by exists r1].
    unfold RecalcCycleTime. rewrite select_issue_update by (intros r; by split).
    rewrite Hsel1. simpl. rewrite Hid1, Z.eqb_refl. eexists. split; [reflexivity|].
    by repeat split. }
  split.
  - intros timeline Hstatus. rewrite Hst.
    destruct (String.eqb_spec (CurrentStatus dbIssue) "") as [|_]; [done|]. simpl.
    unfold RecalcCycleTime at 1. rewrite select_issue_update by (intros r; by split).
    set (d3 := UpdateIssueTimestamps _ _ _ _ _ _ _ _).
    set (d4 := recordBlockedPeriods _ _ d3 _ _).
    assert (exists r3, select_issue d4 (RepoID dbIssue) (Number dbIssue) = Some r3
                       /\ id r3 = ID issue1 /\ is_blocked r3 = IsBlocked dbIssue
                       /\ blocked_time_hours r3 = Some (BlockedTimeHours dbIssue)
                       /\ forall c t, github.StatusChanges timeline !! status_name c = Some t ->
                                       entered c r3 = Some (GoText t))
      as (r3 & Hsel3 & Hid3 & Hblocked3 & Hhours3 & Hentered3).
    { assert (Hsel4 : select_issue d4 (RepoID dbIssue) (Number dbIssue)
                      = select_issue d3 (RepoID dbIssue) (Number dbIssue)).
      { unfold select_issue. subst d4.
        by destruct (recordBlockedPeriods_effect clockAt (ID issue1)
                       (github.BlockedPeriods timeline) 2 d3) as [-> _]. }
      rewrite Hsel4. subst d3. unfold UpdateIssueTimestamps.
      rewrite select_issue_update by (intros r; by split).
      rewrite Hsel2. simpl. rewrite Hid2, Z.eqb_refl. eexists. split; [reflexivity|].
      split; [reflexivity|]. split; [exact Hblocked2|]. split; [exact Hhours2|].
      intros [] t Ht; simpl in *; by rewrite Ht. }
    destruct (PrimFloat.ltb 0 (github.TotalBlocked timeline)) eqn:Hpos.
    + unfold UpdateIssueBlockedTime. rewrite select_issue_update by (intros r; by split).
      rewrite Hsel3. simpl. rewrite Hid3, Z.eqb_refl. simpl. rewrite Z.eqb_refl.
      eexists. split; [reflexivity|]. simpl. split; [exact Hpos|]. split; [reflexivity|].
      intros c t Ht. rewrite <- (Hentered3 c t Ht). by destruct c.
    + rewrite Hsel3. simpl. rewrite Hid3, Z.eqb_refl.
      eexists. split; [reflexivity|]. split; [exact Hblocked3|]. split; [exact Hhours3|].
      intros c t Ht. rewrite <- (Hentered3 c t Ht). by destruct c.
  - intros withTimeline. exists r2.
    destruct (withTimeline && _); by split.
Qed.

(** X12.  Every sync of an issue with a status whose timeline was
    fetched appends one blocked_periods row per blocked interval of the
    timeline, after the rows that were there, whether or not an earlier
    sync has stored the same intervals: the table has no key the loop
    could meet.  The row of an interval that is still open has no end and
    a duration of 0.  In every other case the sync leaves the table as it
    is. *)
Theorem syncIssue_appends_blocked_periods clockAt d dbIssue :
  (forall timeline,
     CurrentStatus dbIssue <> ""%string ->
     blocked_periods (syncIssue dayNumber clockAt true (Some timeline) d dbIssue)
     = blocked_periods d
       ++ periodRows clockAt 2 (blocked_periods_seq d)
            (ID (snd (UpsertIssue (clockAt 0%nat) d dbIssue)))
            (github.BlockedPeriods timeline))
  /\ (forall timeline clockAt',
        CurrentStatus dbIssue <> ""%string ->
        length (blocked_periods
                  (syncIssue dayNumber clockAt' true (Some timeline)
                     (syncIssue dayNumber clockAt true (Some timeline) d dbIssue)
                     dbIssue))
        = (length (blocked_periods d)
           + 2 * length (github.BlockedPeriods timeline))%nat)
  /\ (forall withTimeline,
        blocked_periods (syncIssue dayNumber clockAt withTimeline None d dbIssue)
        = blocked_periods d)
  /\ (forall timeline,
        blocked_periods (syncIssue dayNumber clockAt false timeline d dbIssue)
        = blocked_periods d).
Proof.
  assert (Hone : forall clockAt0 d0 timeline,
             CurrentStatus dbIssue <> ""%string ->
             blocked_periods (syncIssue dayNumber clockAt0 true (Some timeline) d0 dbIssue)
             = blocked_periods d0
               ++ periodRows clockAt0 2 (blocked_periods_seq d0)
                    (ID (snd (UpsertIssue (clockAt0 0%nat) d0 dbIssue)))
                    (github.BlockedPeriods timeline)).
  { intros clockAt0 d0 timeline Hstatus.
    pose proof (UpsertIssue_blocked_periods (clockAt0 0%nat) d0 dbIssue) as Hperiods.
    assert (Hseq : blocked_periods_seq (fst (UpsertIssue (clockAt0 0%nat) d0 dbIssue))
                   = blocked_periods_seq d0).
    { unfold UpsertIssue.
      destruct (select_issue d0 (RepoID dbIssue) (Number dbIssue)) as [existing|]; simpl.
      - destruct (negb _); [|reflexivity].
        unfold updateStatusTimestamp. by destruct (tracked_of _).
      - by destruct (negb _). }
    destruct (UpsertIssue_record (clockAt0 0%nat) d0 dbIssue) as (_ & _ & _ & Hst).
    unfold syncIssue.
    destruct (UpsertIssue (clockAt0 0%nat) d0 dbIssue) as [d1 issue1]. cbn [fst snd] in *.
    rewrite Hst. destruct (String.eqb_spec (CurrentStatus dbIssue) "") as [|_]; [done|].
    simpl.
    set (d2 := match GHClosedAt issue1 with
               | Some _ => RecalcCycleTime dayNumber d1 (ID issue1)
               | None => d1
               end).
    assert (Hd2 : blocked_periods d2 = blocked_periods d1
                  /\ blocked_periods_seq d2 = blocked_periods_seq d1).
    { subst d2. by destruct (GHClosedAt issue1). }
    destruct Hd2 as [Hp2 Hs2].
    set (d3 := UpdateIssueTimestamps _ _ _ _ _ _ _ _).
    destruct (recordBlockedPeriods_effect clockAt0 (ID issue1)
                (github.BlockedPeriods timeline) 2 d3) as [_ Hrows].
    assert (Hfinal : forall d5,
               blocked_periods
                 (if PrimFloat.ltb 0 (github.TotalBlocked timeline)
                  then UpdateIssueBlockedTime d5 (ID issue1) (github.TotalBlocked timeline)
                  else d5)
               = blocked_periods d5).
    { intros d5. by destruct (PrimFloat.ltb 0 _). }
    rewrite Hfinal, Hrows. subst d3. simpl. by rewrite Hp2, Hs2, Hperiods, Hseq. }
  split; [|split; [|split]].
  - intros timeline Hstatus. by apply Hone.
  - intros timeline clockAt' Hstatus.
    rewrite !Hone by exact Hstatus.
    rewrite !length_app, !periodRows_length. lia.
  - intros withTimeline.
    pose proof (UpsertIssue_blocked_periods (clockAt 0%nat) d dbIssue) as Hperiods.
    unfold syncIssue.
    destruct (UpsertIssue (clockAt 0%nat) d dbIssue) as [d1 issue1]. cbn [fst] in Hperiods.
    rewrite <- Hperiods.
    destruct (withTimeline && _); by destruct (GHClosedAt issue1).
  - intros timeline.
    pose proof (UpsertIssue_blocked_periods (clockAt 0%nat) d dbIssue) as Hperiods.
    unfold syncIssue.
    destruct (UpsertIssue (clockAt 0%nat) d dbIssue) as [d1 issue1]. cbn [fst] in Hperiods.
    rewrite <- Hperiods. simpl. by destruct (GHClosedAt issue1).
Qed.

End SyncProperties.

(* ===================================================================== *)
(** * internal/db/queries.go: status counts and batch upserts *)
(* ===================================================================== *)

Module snapshots.
Import db.

(** The rows of [SELECT ... FROM issues WHERE repo_id = ? AND state =
    'open']. *)
Definition open_issues (d : DB) (repoID : Z) : list issues_row :=
  List.filter (fun r => (repo_id r =? repoID) && String.eqb (state r) "open") (issues d).

(** [GROUP BY current_status] with COUNT( * ): one row per distinct value
    of the column, NULL being a value of its own. *)
Definition statusGroups (rows : list issues_row) : list (option string * Z) :=
  (fun k =>
     (k, Z.of_nat (length (List.filter (fun r => bool_decide (current_status r = k)) rows))))
    <$> remove_dups (current_status <$> rows).

(** GetStatusCounts returns current issue counts per status for a repo.
    [groupOrder] is the order in which the statement returns its groups,
    which SQL leaves open; the selected column is
    COALESCE(current_status, 'none'). *)
Definition GetStatusCounts
    (groupOrder : list (option string * Z) -> list (option string * Z))
    (d : DB) (repoID : Z) : gmap string Z :=
  fold_left (fun counts '(st, count) => <[default "none"%string st := count]> counts)
            (groupOrder (statusGroups (open_issues d repoID)))
            (∅ : gmap string Z).

End snapshots.

Module batch.
Import db.

(** The i-th iteration of the loop of UpsertIssueBatch: the lookup by
    the prepared SELECT, then the prepared INSERT or UPDATE.  Neither a
    status transition nor an entered_*_at stamp is written. *)
Definition upsertInBatch (clk : Clock) (d : DB) (issue : Issue) : DB * Issue :=
  match select_issue d (RepoID issue) (Number issue) with
  | None =>
      (* Insert new issue *)
      let new_id := issues_seq d + 1 in
      (with_issues d (issues d ++ [inserted_row clk new_id issue]) new_id,
       with_ID issue new_id)
  | Some existing =>
      (* Update existing issue *)
      let issue := with_ID issue (id existing) in
      (with_issues d
         (sql_update (fun r => id r =? ID issue) (updated_row clk issue) (issues d))
         (issues_seq d),
       issue)
  end.

(** UpsertIssueBatch inserts or updates multiple issues in a single
    transaction; the i-th statement pair reads the clock
    [clockAt (first + i)].  The structs come back with their IDs. *)
Fixpoint UpsertIssueBatch (clockAt : nat -> Clock) (first : nat) (d : DB)
    (batch : list Issue) : DB * list Issue :=
  match batch with
  | [] => (d, [])
  | issue :: batch' =>
      let '(d, issue) := upsertInBatch (clockAt first) d issue in
      let '(d, rest) := UpsertIssueBatch clockAt (S first) d batch' in
      (d, issue :: rest)
  end.

(** The same issues handed to UpsertIssue one by one, with the same
    clock readings. *)
Fixpoint upsertEach (clockAt : nat -> Clock) (first : nat) (d : DB)
    (batch : list Issue) : DB * list Issue :=
  match batch with
  | [] => (d, [])
  | issue :: batch' =>
      let '(d, issue) := UpsertIssue (clockAt first) d issue in
      let '(d, rest) := upsertEach clockAt (S first) d batch' in
      (d, issue :: rest)
  end.

End batch.

(* ===================================================================== *)
(** * Properties of the status counts, the snapshots and the batch *)
(* ===================================================================== *)

Section SnapshotProperties.

Import db snapshots batch.

Variable formatDate : Timestamp -> string.

Lemma fold_insert_lookup {A V} (key : A -> string) (val : A -> V) (l : list A) :
  forall (m : gmap string V) k,
    fold_left (fun m x => <[key x := val x]> m) l m !! k
    = match find (fun x => String.eqb (key x) k) (rev l) with
      | Some x => Some (val x)
      | None => m !! k
      end.
Proof.
  induction l as [|x l IH]; intros m k; simpl; [reflexivity|].
  rewrite IH, find_over_app.
  destruct (find _ (rev l)); [reflexivity|]. simpl.
  destruct (String.eqb_spec (key x) k) as [->|Hne].
  - by rewrite lookup_insert_eq.
  - by rewrite lookup_insert_ne.
Qed.

Lemma GetStatusCounts_fold groupOrder d repoID :
  GetStatusCounts groupOrder d repoID
  = fold_left (fun m (x : option string * Z) => <[default "none"%string (fst x) := snd x]> m)
              (groupOrder (statusGroups (open_issues d repoID))) ∅.
Proof.
  unfold GetStatusCounts. generalize (∅ : gmap string Z).
  induction (groupOrder _) as [|[st n] l IH]; intros m; simpl; [reflexivity | apply IH].
Qed.

Lemma statusGroups_elem rows k n :
  (k, n) ∈ statusGroups rows
  <-> (exists r, r ∈ rows /\ current_status r = k)
      /\ n = Z.of_nat (length (List.filter (fun r => bool_decide (current_status r = k)) rows)).
Proof.
  unfold statusGroups. rewrite list_elem_of_fmap. split.
  - intros (k' & [= -> ->] & Hin). split; [|reflexivity].
    apply elem_of_remove_dups, list_elem_of_fmap in Hin as (r & -> & Hr). eauto.
  - intros [(r & Hr & <-) ->]. eexists. split; [reflexivity|].
    apply elem_of_remove_dups, list_elem_of_fmap. eauto.
Qed.

Lemma filter_same_on {A} (p q : A -> bool) (l : list A) :
  Forall (fun a => p a = q a) l -> List.filter p l = List.filter q l.
Proof.
  induction 1 as [|a l Ha _ IH]; simpl; [reflexivity|]. by rewrite Ha, IH.
Qed.

(** X13.  GetStatusCounts counts the open issues of the repository by
    status: provided no open issue of the repository carries the status
    text none, the map holds under each status the number of open issues
    in it, the issues without a status being counted under the key none;
    a status without open issues has no entry (no key maps to 0), and
    closed issues are in no count.  This holds for every order in which
    the database returns the groups. *)
Theorem GetStatusCounts_counts_open_issues groupOrder d repoID :
  (forall groups, groupOrder groups ≡ₚ groups) ->
  Forall (fun r => current_status r <> Some "none"%string) (open_issues d repoID) ->
  forall st,
    GetStatusCounts groupOrder d repoID !! st
    = let n := length (List.filter
                         (fun r => String.eqb (default "none"%string (current_status r)) st)
                         (open_issues d repoID)) in
      if (n =? 0)%nat then None else Some (Z.of_nat n).
Proof.
  intros Horder Hnone st. rewrite GetStatusCounts_fold, fold_insert_lookup, lookup_empty.
  set (rows := open_issues d repoID) in *.
  rewrite Forall_forall in Hnone.
  destruct (find _ _) as [[k n]|] eqn:Hfind.
  - apply find_some in Hfind as [Hin Hkey]. simpl in Hkey. apply String.eqb_eq in Hkey.
    apply in_rev, list_elem_of_In in Hin. rewrite Horder in Hin.
    apply statusGroups_elem in Hin as [(r0 & Hr0 & Hk) ->]. simpl.
    assert (Hsame : List.filter (fun r => bool_decide (current_status r = k)) rows
                    = List.filter
                        (fun r => String.eqb (default "none"%string (current_status r)) st)
                        rows).
    { apply filter_same_on, Forall_forall. intros r Hr.
      destruct (decide (current_status r = k)) as [Heq|Hne].
      - rewrite bool_decide_eq_true_2 by exact Heq. rewrite Heq, Hkey.
        symmetry. apply String.eqb_refl.
      - rewrite bool_decide_eq_false_2 by exact Hne. symmetry.
        apply String.eqb_neq. intros Heq. apply Hne.
        pose proof (Hnone r Hr) as Hr'. pose proof (Hnone r0 Hr0) as Hr0'.
        rewrite Hk in Hr0'. rewrite <- Hkey in Heq.
        destruct (current_status r) as [s|], k as [s'|]; simpl in Heq; congruence. }
    rewrite <- Hsame.
    assert (Hpos : List.filter (fun r => bool_decide (current_status r = k)) rows <> []).
    { intros Hnil.
      assert (Hin0 : In r0 (List.filter (fun r => bool_decide (current_status r = k)) rows)).
      { apply filter_In. split; [by apply list_elem_of_In|].
        by apply bool_decide_eq_true_2. }
      rewrite Hnil in Hin0. destruct Hin0. }
    destruct (List.filter _ rows); [done | reflexivity].
  - assert (Hnil : List.filter
                     (fun r => String.eqb (default "none"%string (current_status r)) st)
                     rows = []).
    { destruct (List.filter _ rows) as [|r l] eqn:Hfilter; [reflexivity|]. exfalso.
      assert (Hr : In r (List.filter
                           (fun r => String.eqb (default "none"%string (current_status r)) st)
                           rows)) by (rewrite Hfilter; by left).
      apply filter_In in Hr as [Hr Hkey].
      assert (Hgroup : (current_status r,
                        Z.of_nat (length (List.filter
                                            (fun r' => bool_decide
                                                         (current_status r' = current_status r))
                                            rows)))
                       ∈ statusGroups rows).
      { apply statusGroups_elem. split; [|reflexivity].
        exists r. split; [by apply list_elem_of_In | reflexivity]. }
      rewrite <- Horder in Hgroup. apply list_elem_of_In, in_rev in Hgroup.
      apply (find_none _ _ Hfind) in Hgroup. simpl in Hgroup. congruence. }
    by rewrite Hnil.
Qed.

Lemma SaveCFDSnapshot_issues clk repoID date counts : forall d,
  issues (SaveCFDSnapshot formatDate clk d repoID date counts) = issues d.
Proof.
  unfold SaveCFDSnapshot.
  induction counts as [|[st n] counts IH]; intros d; simpl; [reflexivity|].
  by rewrite IH.
Qed.

(** X14.  The snapshot the sync and the cfd command take, SaveCFDSnapshot
    of the map GetStatusCounts returns: afterwards every status with open
    issues has exactly one row for the repository and the day, holding
    its count; a status without open issues is not written, so a row it
    had for that day from an earlier snapshot stays as it was; the rows of
    other repositories and days and the issues table are untouched.  This
    holds for every order of the groups and of the range over the map. *)
Theorem snapshot_of_status_counts groupOrder
    (rangeCounts : gmap string Z -> list (string * Z)) clk d repoID today :
  (forall counts, rangeCounts counts ≡ₚ map_to_list counts) ->
  let counts := GetStatusCounts groupOrder d repoID in
  let d' := SaveCFDSnapshot formatDate clk d repoID today (rangeCounts counts) in
  issues d' = issues d
  /\ (forall st n, counts !! st = Some n ->
        cumulative_count <$> rows_of d' repoID (formatDate today) st = [n])
  /\ (forall st, counts !! st = None ->
        rows_of d' repoID (formatDate today) st = rows_of d repoID (formatDate today) st)
  /\ (forall repoID' day st, (repoID', day) <> (repoID, formatDate today) ->
        rows_of d' repoID' day st = rows_of d repoID' day st).
Proof.
  intros Hrange counts d'. subst d'.
  assert (Hnd : NoDup (rangeCounts counts).*1).
  { rewrite Hrange. apply NoDup_fst_map_to_list. }
  split; [apply SaveCFDSnapshot_issues|]. split; [|split].
  - intros st n Hst. apply SaveCFDSnapshot_rows_written; [exact Hnd|].
    rewrite Hrange. by apply elem_of_map_to_list.
  - intros st Hst. apply SaveCFDSnapshot_rows_other. intros _ _ Hin.
    apply list_elem_of_fmap in Hin as ([st' n] & -> & Hin). simpl in Hst.
    rewrite Hrange in Hin. apply elem_of_map_to_list in Hin. congruence.
  - intros repoID' day st Hne. apply SaveCFDSnapshot_rows_other.
    intros -> ->. done.
Qed.

End SnapshotProperties.

Section BatchProperties.

Import db batch.

(** A row without its entered_*_at columns. *)
Definition forget_entered (r : issues_row) : issues_row :=
  mk_issues_row (id r) (repo_id r) (number r) (title r) (state r)
    (gh_created_at r) (gh_updated_at r) (gh_closed_at r)
    (current_status r) (current_priority r) (current_type r) (current_size r)
    (is_blocked r) (assignee r) None None None None None
    (lead_time_hours r) (cycle_time_hours r) (blocked_time_hours r)
    (created_at r) (updated_at r).

(** Two stores that differ at most in entered_*_at columns and in the
    tables other than issues. *)
Definition same_issues (d1 d2 : DB) : Prop :=
  forget_entered <$> issues d1 = forget_entered <$> issues d2
  /\ issues_seq d1 = issues_seq d2.

Lemma cons_eq_inv {A} (a b : A) (l1 l2 : list A) :
  a :: l1 = b :: l2 -> a = b /\ l1 = l2.
Proof. intros [= -> ->]. by split. Qed.

Lemma select_issue_forget d1 d2 repoID num :
  forget_entered <$> issues d1 = forget_entered <$> issues d2 ->
  forget_entered <$> select_issue d1 repoID num
  = forget_entered <$> select_issue d2 repoID num.
Proof.
  intros Hsame. unfold select_issue.
  rewrite <- !(find_map_inv _ forget_entered) by reflexivity.
  change (@map issues_row issues_row forget_entered)
    with (@fmap list _ issues_row issues_row forget_entered).
  by rewrite Hsame.
Qed.

Lemma forget_update clk issue i (l1 : list issues_row) : forall l2,
  forget_entered <$> l1 = forget_entered <$> l2 ->
  forget_entered <$> sql_update (fun r => id r =? i) (updated_row clk issue) l1
  = forget_entered <$> sql_update (fun r => id r =? i) (updated_row clk issue) l2.
Proof.
  induction l1 as [|r1 l1 IH]; intros [|r2 l2] Hsame; try discriminate; [reflexivity|].
  rewrite !fmap_cons in Hsame. apply cons_eq_inv in Hsame as [Hr Hl].
  simpl. f_equal; [|by apply IH].
  assert (Hid : id r1 = id r2) by (apply (f_equal id) in Hr; exact Hr).
  rewrite Hid. destruct (id r2 =? i); [|exact Hr].
  change (forget_entered (updated_row clk issue (forget_entered r1))
          = forget_entered (updated_row clk issue (forget_entered r2))).
  by rewrite Hr.
Qed.

Lemma upsert_step clk db ds issue :
  same_issues db ds ->
  same_issues (fst (upsertInBatch clk db issue)) (fst (UpsertIssue clk ds issue))
  /\ snd (upsertInBatch clk db issue) = snd (UpsertIssue clk ds issue)
  /\ status_transitions (fst (upsertInBatch clk db issue)) = status_transitions db
  /\ exists g added,
       issues (fst (upsertInBatch clk db issue)) = map g (issues db) ++ added
       /\ forall r c, entered c (g r) = entered c r.
Proof.
  intros [Hrows Hseq].
  pose proof (select_issue_forget db ds (RepoID issue) (Number issue) Hrows) as Hsel.
  unfold upsertInBatch, UpsertIssue.
  destruct (select_issue db (RepoID issue) (Number issue)) as [eb|],
           (select_issue ds (RepoID issue) (Number issue)) as [es|];
    try discriminate; cbn [fst snd].
  - cbn [fmap option_fmap option_map] in Hsel. apply (inj Some) in Hsel.
    assert (Hid : id eb = id es) by (apply (f_equal id) in Hsel; exact Hsel).
    assert (Hst : current_status eb = current_status es)
      by (apply (f_equal current_status) in Hsel; exact Hsel).
    set (d1 := if negb _ then _ else ds).
    assert (Hd1 : forget_entered <$> issues d1 = forget_entered <$> issues ds
                  /\ issues_seq d1 = issues_seq ds).
    { subst d1. destruct (negb _); [|by split].
      unfold updateStatusTimestamp. destruct (tracked_of _) as [column|]; [|by split].
      simpl. split; [|reflexivity]. unfold sql_update.
      rewrite <- list_fmap_compose. apply list_fmap_ext. intros j r _. simpl.
      destruct (andb _ _); [|reflexivity]. by destruct column. }
    destruct Hd1 as [Hrows1 Hseq1].
    split; [|split; [|split]].
    + split; simpl; [|congruence]. rewrite Hid. apply forget_update. congruence.
    + by rewrite Hid.
    + reflexivity.
    + simpl. unfold sql_update. eexists _, []. rewrite app_nil_r. split; [reflexivity|].
      intros r c. simpl. destruct (id r =? id eb); [|reflexivity]. by destruct c.
  - split; [|split; [|split]].
    + rewrite Hseq.
      assert (Hrec : forall d0 : DB,
                 issues (if negb (String.eqb (CurrentStatus (with_ID issue (issues_seq ds + 1))) "")
                         then RecordStatusTransition clk d0
                                (ID (with_ID issue (issues_seq ds + 1))) ""
                                (CurrentStatus (with_ID issue (issues_seq ds + 1)))
                                (GHUpdatedAt (with_ID issue (issues_seq ds + 1)))
                         else d0) = issues d0
                 /\ issues_seq (if negb (String.eqb (CurrentStatus (with_ID issue (issues_seq ds + 1))) "")
                         then RecordStatusTransition clk d0
                                (ID (with_ID issue (issues_seq ds + 1))) ""
                                (CurrentStatus (with_ID issue (issues_seq ds + 1)))
                                (GHUpdatedAt (with_ID issue (issues_seq ds + 1)))
                         else d0) = issues_seq d0).
      { intros d0. by destruct (negb _). }
      destruct (Hrec (with_issues ds (issues ds ++ [inserted_row clk (issues_seq ds + 1) issue])
                        (issues_seq ds + 1))) as [Hi Hs].
      split.
      * rewrite Hi. simpl. rewrite !fmap_app. by rewrite Hrows.
      * rewrite Hs. reflexivity.
    + by rewrite Hseq.
    + reflexivity.
    + simpl. exists (fun r => r), [inserted_row clk (issues_seq db + 1) issue].
      rewrite map_id. by split.
Qed.

(** X15.  UpsertIssueBatch stores what the same issues, handed to
    UpsertIssue one by one, would store in the issues table, and gives the
    structs the same IDs, with two exceptions: it records no status
    transition, and it stamps no entered_*_at column, so that every row
    that was there keeps all five columns as they were, the NULL ones
    too. *)
Theorem UpsertIssueBatch_tracks_nothing clockAt (issuesToStore : list Issue) :
  forall first d,
    let stored := UpsertIssueBatch clockAt first d issuesToStore in
    let one_by_one := upsertEach clockAt first d issuesToStore in
    forget_entered <$> issues (fst stored) = forget_entered <$> issues (fst one_by_one)
    /\ snd stored = snd one_by_one
    /\ status_transitions (fst stored) = status_transitions d
    /\ (forall (i : nat) r, issues d !! i = Some r ->
          exists r', issues (fst stored) !! i = Some r'
                     /\ forall c, entered c r' = entered c r).
Proof.
  assert (Hgen : forall first db ds,
             same_issues db ds ->
             same_issues (fst (UpsertIssueBatch clockAt first db issuesToStore))
                         (fst (upsertEach clockAt first ds issuesToStore))
             /\ snd (UpsertIssueBatch clockAt first db issuesToStore)
                = snd (upsertEach clockAt first ds issuesToStore)
             /\ status_transitions (fst (UpsertIssueBatch clockAt first db issuesToStore))
                = status_transitions db
             /\ (forall (i : nat) r, issues db !! i = Some r ->
                   exists r', issues (fst (UpsertIssueBatch clockAt first db issuesToStore)) !! i
                              = Some r'
                              /\ forall c, entered c r' = entered c r)).
  { induction issuesToStore as [|issue rest IH]; intros first db ds Hsame; simpl.
    - split; [exact Hsame|]. split; [reflexivity|]. split; [reflexivity|]. eauto.
    - destruct (upsert_step (clockAt first) db ds issue Hsame)
        as (Hsame1 & Hissue & Hledger & g & added & Hrows & Hentered).
      destruct (upsertInBatch (clockAt first) db issue) as [db1 issueb].
      destruct (UpsertIssue (clockAt first) ds issue) as [ds1 issues1].
      cbn [fst snd] in *.
      destruct (IH (S first) db1 ds1 Hsame1) as (Hsame2 & Hids & Hledger2 & Hkept).
      destruct (UpsertIssueBatch clockAt (S first) db1 rest) as [db2 restb].
      destruct (upsertEach clockAt (S first) ds1 rest) as [ds2 rests].
      cbn [fst snd] in *.
      split; [exact Hsame2|]. split; [congruence|]. split; [congruence|].
      intros i r Hi.
      destruct (Hkept i (g r)) as (r' & Hr' & Hc).
      { rewrite Hrows. rewrite lookup_app_l by (rewrite length_map; by eapply lookup_lt_Some).
        change (map g (issues db)) with (g <$> issues db).
        by rewrite list_lookup_fmap, Hi. }
      exists r'. split; [exact Hr'|]. intros c. by rewrite Hc, Hentered. }
  intros first d stored one_by_one. subst stored one_by_one.
  destruct (Hgen first d d) as ([Hrows _] & Hids & Hledger & Hkept); [by split|].
  by repeat split.
Qed.

End BatchProperties.

(* ===================================================================== *)
(** * internal/db/queries.go: pull requests and their links to issues *)
(* ===================================================================== *)

Module pulls.
Import db queries.

(** PullRequest represents a GitHub pull request. *)
Module PullRequest.
Record t := mk {
  ID : Z;
  RepoID : Z;
  Number : Z;
  Title : string;
  State : string;
  IsDraft : bool;
  GHCreatedAt : Timestamp;
  GHUpdatedAt : Timestamp;
  GHMergedAt : option Timestamp;
  GHClosedAt : option Timestamp;
  Author : string;
  Additions : Z;
  Deletions : Z;
  ChangedFiles : Z;
  ReviewTimeHours : float;
  MergeTimeHours : float
}.
End PullRequest.

(** pull_requests carries UNIQUE(repo_id, number) and a reference to
    repositories(id); pr_issue_links has the primary key (pr_id, issue_id)
    and references pull_requests(id) and issues(id). *)
Record pull_requests_row := mk_pull_requests_row {
  pr_id : Z;
  pr_repo_id : Z;
  pr_number : Z;
  pr_title : string;
  pr_state : string;
  pr_is_draft : bool;
  pr_gh_created_at : datetime;
  pr_gh_updated_at : datetime;
  pr_gh_merged_at : option datetime;
  pr_gh_closed_at : option datetime;
  pr_author : option string;
  pr_additions : Z;
  pr_deletions : Z;
  pr_changed_files : Z;
  pr_review_time_hours : option float;
  pr_merge_time_hours : option float;
  pr_created_at : datetime;
  pr_updated_at : datetime
}.

Record pr_issue_links_row := mk_pr_issue_links_row {
  link_pr_id : Z;
  link_issue_id : Z;
  link_created_at : datetime
}.

Record PRStore := mkPRStore {
  pull_requests : list pull_requests_row;
  pull_requests_seq : Z;
  pr_issue_links : list pr_issue_links_row
}.

Definition with_MergeTime (pr : PullRequest.t) (hours : float) : PullRequest.t :=
  PullRequest.mk (PullRequest.ID pr) (PullRequest.RepoID pr) (PullRequest.Number pr)
    (PullRequest.Title pr) (PullRequest.State pr) (PullRequest.IsDraft pr)
    (PullRequest.GHCreatedAt pr) (PullRequest.GHUpdatedAt pr)
    (PullRequest.GHMergedAt pr) (PullRequest.GHClosedAt pr) (PullRequest.Author pr)
    (PullRequest.Additions pr) (PullRequest.Deletions pr) (PullRequest.ChangedFiles pr)
    (PullRequest.ReviewTimeHours pr) hours.

Definition with_PR_ID (pr : PullRequest.t) (new_id : Z) : PullRequest.t :=
  PullRequest.mk new_id (PullRequest.RepoID pr) (PullRequest.Number pr)
    (PullRequest.Title pr) (PullRequest.State pr) (PullRequest.IsDraft pr)
    (PullRequest.GHCreatedAt pr) (PullRequest.GHUpdatedAt pr)
    (PullRequest.GHMergedAt pr) (PullRequest.GHClosedAt pr) (PullRequest.Author pr)
    (PullRequest.Additions pr) (PullRequest.Deletions pr) (PullRequest.ChangedFiles pr)
    (PullRequest.ReviewTimeHours pr) (PullRequest.MergeTimeHours pr).

(** UpsertPR inserts or updates a pull request.  [g] is the registry the
    reference of repo_id is checked against. *)
Definition UpsertPR (clk : Clock) (g : Registry) (s : PRStore) (pr : PullRequest.t)
  : PRStore * fallible PullRequest.t :=
  (* Calculate review and merge times *)
  let pr :=
    match PullRequest.GHMergedAt pr with
    | Some merged => with_MergeTime pr (Hours (Sub merged (PullRequest.GHCreatedAt pr)))
    | None => pr
    end in
  match find (fun r => (pr_repo_id r =? PullRequest.RepoID pr)
                       && (pr_number r =? PullRequest.Number pr))
             (pull_requests s) with
  | None =>
      (* Insert new PR *)
      if negb (repo_exists g (PullRequest.RepoID pr))
      then (s, Failure (ErrConstraint "FOREIGN KEY constraint failed"))
      else
        let new_id := pull_requests_seq s + 1 in
        (mkPRStore
           (pull_requests s ++
              [mk_pull_requests_row new_id (PullRequest.RepoID pr) (PullRequest.Number pr)
                 (PullRequest.Title pr) (PullRequest.State pr) (PullRequest.IsDraft pr)
                 (GoText (PullRequest.GHCreatedAt pr)) (GoText (PullRequest.GHUpdatedAt pr))
                 (GoText <$> PullRequest.GHMergedAt pr)
                 (GoText <$> PullRequest.GHClosedAt pr)
                 (nullString (PullRequest.Author pr))
                 (PullRequest.Additions pr) (PullRequest.Deletions pr)
                 (PullRequest.ChangedFiles pr)
                 (Some (PullRequest.ReviewTimeHours pr))
                 (Some (PullRequest.MergeTimeHours pr))
                 (SqlText (CURRENT_TIMESTAMP clk)) (SqlText (CURRENT_TIMESTAMP clk))])
           new_id (pr_issue_links s),
         Value (with_PR_ID pr new_id))
  | Some existing =>
      (* Update existing PR *)
      let pr := with_PR_ID pr (pr_id existing) in
      (mkPRStore
         (sql_update (fun r => pr_id r =? PullRequest.ID pr)
            (fun r =>
               mk_pull_requests_row (pr_id r) (pr_repo_id r) (pr_number r)
                 (PullRequest.Title pr) (PullRequest.State pr) (PullRequest.IsDraft pr)
                 (pr_gh_created_at r) (GoText (PullRequest.GHUpdatedAt pr))
                 (GoText <$> PullRequest.GHMergedAt pr)
                 (GoText <$> PullRequest.GHClosedAt pr)
                 (nullString (PullRequest.Author pr))
                 (PullRequest.Additions pr) (PullRequest.Deletions pr)
                 (PullRequest.ChangedFiles pr)
                 (Some (PullRequest.ReviewTimeHours pr))
                 (Some (PullRequest.MergeTimeHours pr))
                 (pr_created_at r) (SqlText (CURRENT_TIMESTAMP clk)))
            (pull_requests s))
         (pull_requests_seq s) (pr_issue_links s),
       Value pr)
  end.

Definition linked (prID issueID : Z) (l : pr_issue_links_row) : bool :=
  (link_pr_id l =? prID) && (link_issue_id l =? issueID).

(** LinkPRToIssue creates a link between a PR and an issue: INSERT OR
    IGNORE, which skips a row whose primary key is taken and fails on a
    reference to a pull request or an issue that does not exist. *)
Definition LinkPRToIssue (clk : Clock) (d : DB) (s : PRStore) (prID issueID : Z)
  : PRStore * option error :=
  if existsb (linked prID issueID) (pr_issue_links s) then (s, None)
  else if existsb (fun r => pr_id r =? prID) (pull_requests s)
          && existsb (fun r => id r =? issueID) (issues d)
  then
    (mkPRStore (pull_requests s) (pull_requests_seq s)
       (pr_issue_links s ++
          [mk_pr_issue_links_row prID issueID (SqlText (CURRENT_TIMESTAMP clk))]),
     None)
  else (s, Some (ErrConstraint "FOREIGN KEY constraint failed")).

(** GetLinkedIssues returns issue numbers linked to a PR: the join of
    issues with pr_issue_links, in the order [joinOrder] in which the
    database returns its rows. *)
Definition GetLinkedIssues (joinOrder : list Z -> list Z) (d : DB) (s : PRStore)
    (prID : Z) : list Z :=
  joinOrder
    (flat_map
       (fun i =>
          (fun _ => number i)
            <$> List.filter (fun l => (link_issue_id l =? id i) && (link_pr_id l =? prID))
                            (pr_issue_links s))
       (issues d)).

(** GetIssueIDByNumber returns the issue ID for a repo and issue number:
    0 and sql.ErrNoRows when there is none. *)
Definition GetIssueIDByNumber (d : DB) (repoID num : Z) : Z * option error :=
  match select_issue d repoID num with
  | Some r => (id r, None)
  | None => (0, Some ErrNoRows)
  end.

(** Get linked issues and create links: the loop of runSync over the
    issue numbers a pull request closes. *)
Definition linkIssues (clk : Clock) (d : DB) (s : PRStore) (prID repoID : Z)
    (linkedIssues : list Z) : PRStore :=
  fold_left
    (fun s issueNum =>
       match GetIssueIDByNumber d repoID issueNum with
       | (issueID, None) => if 0 <? issueID then fst (LinkPRToIssue clk d s prID issueID) else s
       | (_, Some _) => s
       end)
    linkedIssues s.

End pulls.

Section PullProperties.

Import db queries pulls.

Lemma GetLinkedIssues_elem joinOrder d s prID n :
  (forall l, joinOrder l ≡ₚ l) ->
  n ∈ GetLinkedIssues joinOrder d s prID
  <-> exists i l, In i (issues d) /\ In l (pr_issue_links s)
                  /\ link_issue_id l = id i /\ link_pr_id l = prID /\ number i = n.
Proof.
  intros Horder. unfold GetLinkedIssues. rewrite Horder.
  rewrite list_elem_of_In, in_flat_map. split.
  - intros (i & Hi & Hn). apply list_elem_of_In, list_elem_of_fmap in Hn as (l & -> & Hl).
    apply list_elem_of_In, filter_In in Hl as [Hl Hkey].
    apply andb_prop in Hkey as [H1 H2]. apply Z.eqb_eq in H1, H2.
    exists i, l. by repeat split.
  - intros (i & l & Hi & Hl & H1 & H2 & <-). exists i. split; [exact Hi|].
    apply list_elem_of_In, list_elem_of_fmap. exists l. split; [reflexivity|].
    apply list_elem_of_In, filter_In. split; [exact Hl|].
    apply andb_true_intro. split; by apply Z.eqb_eq.
Qed.

(** The primary key of pr_issue_links, as a property of the table. *)
Definition links_unique (s : PRStore) : Prop :=
  forall prID issueID,
    (length (List.filter (linked prID issueID) (pr_issue_links s)) <= 1)%nat.

(** X16.  When LinkPRToIssue succeeds, GetLinkedIssues of the pull
    request lists the number of the issue, together with every number it
    listed before; linking the same pair again succeeds and changes
    nothing; and the table keeps at most one row per pair. *)
Theorem LinkPRToIssue_round_trip joinOrder clk clk' d s prID issueID s1 :
  (forall l, joinOrder l ≡ₚ l) ->
  LinkPRToIssue clk d s prID issueID = (s1, None) ->
  (forall i, In i (issues d) -> id i = issueID ->
     number i ∈ GetLinkedIssues joinOrder d s1 prID)
  /\ (forall n, n ∈ GetLinkedIssues joinOrder d s prID ->
        n ∈ GetLinkedIssues joinOrder d s1 prID)
  /\ LinkPRToIssue clk' d s1 prID issueID = (s1, None)
  /\ (links_unique s -> links_unique s1).
Proof.
  intros Horder. unfold LinkPRToIssue.
  destruct (existsb (linked prID issueID) (pr_issue_links s)) eqn:Hex.
  - intros [= <-]. split; [|split; [|split]]; [| auto | by rewrite Hex | auto].
    intros i Hi Hid. apply GetLinkedIssues_elem; [exact Horder|].
    apply existsb_exists in Hex as (l & Hl & Hkey).
    apply andb_prop in Hkey as [H1 H2]. apply Z.eqb_eq in H1, H2.
    exists i, l. repeat split; auto; congruence.
  - destruct (existsb _ (pull_requests s) && existsb _ (issues d)); [|discriminate].
    intros [= <-]. simpl.
    assert (Hnew : linked prID issueID
                     (mk_pr_issue_links_row prID issueID (SqlText (CURRENT_TIMESTAMP clk)))
                   = true).
    { unfold linked. simpl. by rewrite !Z.eqb_refl. }
    split; [|split; [|split]].
    + intros i Hi Hid. apply GetLinkedIssues_elem; [exact Horder|].
      eexists i, _. split; [exact Hi|]. split; [simpl; apply in_or_app; right; by left|].
      simpl. repeat split; congruence.
    + intros n Hn. apply GetLinkedIssues_elem in Hn as (i & l & Hi & Hl & H); [|exact Horder].
      apply GetLinkedIssues_elem; [exact Horder|].
      exists i, l. split; [exact Hi|]. split; [simpl; apply in_or_app; by left | exact H].
    + rewrite existsb_app. simpl. rewrite Hnew. by rewrite orb_true_r.
    + intros Huniq prID' issueID'. cbn [pr_issue_links].
      rewrite List.filter_app, length_app. simpl.
      destruct (linked prID' issueID' _) eqn:Hkey; simpl.
      * unfold linked in Hkey. simpl in Hkey. apply andb_prop in Hkey as [H1 H2].
        apply Z.eqb_eq in H1, H2. subst prID' issueID'.
        assert (Hnone : List.filter (linked prID issueID) (pr_issue_links s) = []).
        { clear -Hex. induction (pr_issue_links s) as [|l rows IH]; simpl in *; [reflexivity|].
          apply orb_false_elim in Hex as [-> Hrest]. by apply IH. }
        rewrite Hnone. simpl. lia.
      * specialize (Huniq prID' issueID'). lia.
Qed.

(** X17.  A successful UpsertPR stores, and returns in the struct, a
    merge time of the hours from creation to merge for a merged pull
    request, whatever merge time the caller's struct carried, and the
    caller's value for one that is not merged; a later UpsertPR of the
    same repository and number updates that row: it returns the same ID
    and adds no row. *)
Theorem UpsertPR_merge_time clk g s pr s1 pr1 :
  UpsertPR clk g s pr = (s1, Value pr1) ->
  PullRequest.MergeTimeHours pr1
  = match PullRequest.GHMergedAt pr with
    | Some merged => Hours (Sub merged (PullRequest.GHCreatedAt pr))
    | None => PullRequest.MergeTimeHours pr
    end
  /\ (exists r,
        find (fun r => (pr_repo_id r =? PullRequest.RepoID pr)
                       && (pr_number r =? PullRequest.Number pr))
             (pull_requests s1) = Some r
        /\ pr_id r = PullRequest.ID pr1
        /\ pr_merge_time_hours r = Some (PullRequest.MergeTimeHours pr1)
        /\ pr_state r = PullRequest.State pr)
  /\ (forall clk2 pr',
        PullRequest.RepoID pr' = PullRequest.RepoID pr ->
        PullRequest.Number pr' = PullRequest.Number pr ->
        exists s2 pr2,
          UpsertPR clk2 g s1 pr' = (s2, Value pr2)
          /\ PullRequest.ID pr2 = PullRequest.ID pr1
          /\ length (pull_requests s2) = length (pull_requests s1)).
Proof.
  intros Hupsert.
  assert (Hkeys : forall p : PullRequest.t,
             PullRequest.RepoID
               (match PullRequest.GHMergedAt p with
                | Some merged => with_MergeTime p (Hours (Sub merged (PullRequest.GHCreatedAt p)))
                | None => p
                end) = PullRequest.RepoID p
             /\ PullRequest.Number
                  (match PullRequest.GHMergedAt p with
                   | Some merged =>
                       with_MergeTime p (Hours (Sub merged (PullRequest.GHCreatedAt p)))
                   | None => p
                   end) = PullRequest.Number p).
  { intros p. by destruct (PullRequest.GHMergedAt p). }
  assert (Hrow : exists r,
             find (fun r => (pr_repo_id r =? PullRequest.RepoID pr)
                            && (pr_number r =? PullRequest.Number pr))
                  (pull_requests s1) = Some r
             /\ pr_id r = PullRequest.ID pr1
             /\ pr_merge_time_hours r = Some (PullRequest.MergeTimeHours pr1)
             /\ pr_state r = PullRequest.State pr
             /\ PullRequest.MergeTimeHours pr1
                = match PullRequest.GHMergedAt pr with
                  | Some merged => Hours (Sub merged (PullRequest.GHCreatedAt pr))
                  | None => PullRequest.MergeTimeHours pr
                  end).
  { unfold UpsertPR in Hupsert. destruct (Hkeys pr) as [Hrepo Hnum].
    rewrite Hrepo, Hnum in Hupsert.
    destruct (find _ (pull_requests s)) as [existing|] eqn:Hfind.
    - injection Hupsert as <- <-. simpl. unfold sql_update.
      rewrite find_map_inv.
      + rewrite Hfind. simpl. rewrite Z.eqb_refl. eexists. split; [reflexivity|].
        simpl. by destruct (PullRequest.GHMergedAt pr).
      + intros r. by destruct (pr_id r =? pr_id existing).
    - destruct (negb (repo_exists g (PullRequest.RepoID pr))); [discriminate|].
      injection Hupsert as <- <-. simpl.
      erewrite find_app_None; [|exact Hfind|].
      + eexists. split; [reflexivity|]. simpl. by destruct (PullRequest.GHMergedAt pr).
      + simpl. by rewrite !Z.eqb_refl. }
  destruct Hrow as (r & Hfind & Hid & Hmerge & Hstate & Hhours).
  split; [exact Hhours|]. split; [by exists r|].
  intros clk2 pr' Hrepo Hnum. unfold UpsertPR.
  destruct (Hkeys pr') as [-> ->]. rewrite Hrepo, Hnum, Hfind.
  eexists _, _. split; [reflexivity|]. split; [simpl; exact Hid|].
  simpl. unfold sql_update. by rewrite length_map.
Qed.

End PullProperties.

(* ===================================================================== *)
(** * Facts about strings *)
(* ===================================================================== *)

Section StringFacts.

Lemma substring_all (s : string) : String.substring 0 (String.length s) s = s.
Proof. induction s as [|c s IH]; simpl; [reflexivity | by rewrite IH]. Qed.

Lemma substring_drop_app (a b : string) :
  String.substring (String.length a) (String.length b) (a ++ b) = b.
Proof. induction a as [|c a IH]; simpl; [apply substring_all | exact IH]. Qed.

Lemma substring_take_app (a b : string) :
  String.substring 0 (String.length a) (a ++ b) = a.
Proof. induction a as [|c a IH]; simpl; [by destruct b | by rewrite IH]. Qed.

Lemma append_cons (c : ascii) (a b : string) :
  (String c a ++ b = String c (a ++ b))%string.
Proof. reflexivity. Qed.

Lemma substring_split (n : nat) (s : string) :
  (n <= String.length s)%nat ->
  s = (String.substring 0 n s ++ String.substring n (String.length s - n) s)%string.
Proof.
  revert n. induction s as [|c s IH]; intros [|n] Hn; simpl in *.
  - reflexivity.
  - lia.
  - by rewrite substring_all.
  - rewrite append_cons. f_equal. apply IH. lia.
Qed.

Lemma prefix_cons (c c' : ascii) (a s : string) :
  String.prefix (String c a) (String c' s)
  = if Ascii.eqb c c' then String.prefix a s else false.
Proof.
  simpl. destruct (ascii_dec c c') as [->|Hne].
  - by rewrite Ascii.eqb_refl.
  - apply Ascii.eqb_neq in Hne. by rewrite Hne.
Qed.

Lemma prefix_app (a b : string) : String.prefix a (a ++ b) = true.
Proof.
  induction a as [|c a IH]; [by destruct b|].
  rewrite append_cons. simpl.
  destruct (ascii_dec c c); [exact IH | done].
Qed.

Lemma prefix_inv (a s : string) :
  String.prefix a s = true -> exists rest, s = (a ++ rest)%string.
Proof.
  revert s. induction a as [|c a IH]; intros s Hp.
  - by exists s.
  - destruct s as [|c' s]; [discriminate|]. simpl in Hp.
    destruct (ascii_dec c c') as [->|]; [|discriminate].
    destruct (IH s Hp) as (rest & ->). by exists rest.
Qed.

Lemma append_assoc_string (a b c : string) : ((a ++ b) ++ c = a ++ b ++ c)%string.
Proof.
  induction a as [|x a IH]; [reflexivity|]. rewrite !append_cons. by rewrite IH.
Qed.

Lemma HasPrefix_app (a b : string) : HasPrefix (a ++ b) a = true.
Proof. apply prefix_app. Qed.

Lemma HasPrefix_weaken (a b s : string) :
  HasPrefix s (a ++ b) = true -> HasPrefix s a = true.
Proof.
  unfold HasPrefix. intros Hp. apply prefix_inv in Hp as (rest & ->).
  rewrite append_assoc_string. apply prefix_app.
Qed.

Lemma TrimPrefix_app (a b : string) : TrimPrefix (a ++ b) a = b.
Proof.
  unfold TrimPrefix. rewrite HasPrefix_app, length_append_string.
  replace (String.length a + String.length b - String.length a)%nat
    with (String.length b) by lia.
  apply substring_drop_app.
Qed.

Lemma HasSuffix_app (a b : string) : HasSuffix (a ++ b) b = true.
Proof.
  unfold HasSuffix. rewrite length_append_string.
  replace (String.length a + String.length b - String.length b)%nat
    with (String.length a) by lia.
  rewrite substring_drop_app, String.eqb_refl.
  apply andb_true_intro. split; [|reflexivity]. apply Nat.leb_le. lia.
Qed.

Lemma HasSuffix_inv (s suffix : string) :
  HasSuffix s suffix = true -> exists pre, s = (pre ++ suffix)%string.
Proof.
  unfold HasSuffix. intros H. apply andb_prop in H as [Hlen Heq].
  apply Nat.leb_le in Hlen. apply String.eqb_eq in Heq.
  exists (String.substring 0 (String.length s - String.length suffix) s).
  pose proof (substring_split (String.length s - String.length suffix) s) as Hsplit.
  replace (String.length s - (String.length s - String.length suffix))%nat
    with (String.length suffix) in Hsplit by lia.
  rewrite Heq in Hsplit. apply Hsplit. lia.
Qed.

Lemma TrimSuffix_app (a b : string) : TrimSuffix (a ++ b) b = a.
Proof.
  unfold TrimSuffix. rewrite HasSuffix_app, length_append_string.
  replace (String.length a + String.length b - String.length b)%nat
    with (String.length a) by lia.
  apply substring_take_app.
Qed.

End StringFacts.

(* ===================================================================== *)
(** * Properties of the repository patterns *)
(* ===================================================================== *)

Section ConfigProperties.

Import config.

Variable filepath_Match : string -> string -> bool.

Lemma filter_sublist {A} (p : A -> bool) (l : list A) : sublist (List.filter p l) l.
Proof.
  induction l as [|a l IH]; simpl; [constructor|].
  destruct (p a); by constructor.
Qed.

Lemma shouldIncludeRepo_spec (c : RepoConfig) repo :
  shouldIncludeRepo filepath_Match c repo = true
  <-> (forall pattern, pattern ∈ Exclude c ->
         matchPattern filepath_Match pattern repo = false)
      /\ (Include c = []
          \/ exists pattern, pattern ∈ Include c
                             /\ matchPattern filepath_Match pattern repo = true).
Proof.
  unfold shouldIncludeRepo.
  destruct (existsb _ (Exclude c)) eqn:Hex.
  - split; [discriminate|]. intros [Hnone _].
    apply existsb_exists in Hex as (pattern & Hin & Hm).
    rewrite (Hnone pattern) in Hm by (by apply list_elem_of_In). discriminate.
  - assert (Hnone : forall pattern, pattern ∈ Exclude c ->
                      matchPattern filepath_Match pattern repo = false).
    { intros pattern Hin. apply list_elem_of_In in Hin.
      destruct (matchPattern filepath_Match pattern repo) eqn:Hm; [|reflexivity].
      assert (existsb (fun pattern => matchPattern filepath_Match pattern repo) (Exclude c)
              = true) by (apply existsb_exists; eauto).
      congruence. }
    destruct (Include c) as [|p0 includes] eqn:Hinc; simpl length; cbn [Nat.eqb].
    + split; [|reflexivity]. intros _. split; [exact Hnone | by left].
    + rewrite existsb_exists. split.
      * intros (pattern & Hin & Hm). split; [exact Hnone|]. right.
        exists pattern. split; [by apply list_elem_of_In | exact Hm].
      * intros [_ [|(pattern & Hin & Hm)]]; [discriminate|].
        exists pattern. split; [by apply list_elem_of_In | exact Hm].
Qed.

(** X18.  FilterRepos keeps the repositories in their order and returns
    exactly those that no exclude pattern matches and that, when include
    patterns are given, some include pattern matches: an exclude pattern
    wins over every include pattern; without patterns the list comes back
    as it is. *)
Theorem FilterRepos_spec (c : RepoConfig) (repos : list string) :
  sublist (FilterRepos filepath_Match c repos) repos
  /\ (forall repo,
        repo ∈ FilterRepos filepath_Match c repos
        <-> repo ∈ repos
            /\ (forall pattern, pattern ∈ Exclude c ->
                  matchPattern filepath_Match pattern repo = false)
            /\ (Include c = []
                \/ exists pattern, pattern ∈ Include c
                                   /\ matchPattern filepath_Match pattern repo = true))
  /\ (Include c = [] -> Exclude c = [] -> FilterRepos filepath_Match c repos = repos).
Proof.
  unfold FilterRepos.
  destruct ((length (Include c) =? 0)%nat && (length (Exclude c) =? 0)%nat) eqn:Hnone.
  - apply andb_prop in Hnone as [Hi He].
    apply Nat.eqb_eq, length_zero_iff_nil in Hi, He.
    split; [reflexivity|]. split; [|reflexivity].
    intros repo. split.
    + intros Hin. split; [exact Hin|]. split; [|by left].
      intros pattern Hp. rewrite He in Hp. by apply elem_of_nil in Hp.
    + by intros [Hin _].
  - split; [apply filter_sublist|]. split.
    + intros repo. rewrite list_elem_of_In, filter_In, shouldIncludeRepo_spec.
      by rewrite <- list_elem_of_In.
    + intros Hi He. rewrite Hi, He in Hnone. discriminate.
Qed.

(** A repository name that holds no star. *)
Definition has_star (s : string) : bool :=
  existsb (fun c => Ascii.eqb c "*") (list_ascii_of_string s).

Lemma has_star_app (a b : string) : has_star (a ++ "*" ++ b) = true.
Proof.
  unfold has_star. induction a as [|c a IH]; simpl; [reflexivity|].
  rewrite IH. apply orb_true_r.
Qed.

(** X19.  The wildcards of matchPattern: the pattern * matches every
    name; a pattern that starts with a star matches the names that end
    with the rest of the pattern, and one that ends with a star the names
    that start with what precedes it; a pattern with a star at both ends
    is read as the first kind, its last star standing for itself, so that
    it matches no name that is free of stars. *)
Theorem matchPattern_wildcards (str : string) :
  matchPattern filepath_Match "*" str = true
  /\ (forall suffix, suffix <> ""%string ->
        matchPattern filepath_Match ("*" ++ suffix) str = HasSuffix str suffix)
  /\ (forall pre, HasPrefix pre "*" = false ->
        matchPattern filepath_Match (pre ++ "*") str = HasPrefix str pre)
  /\ (forall middle, has_star str = false ->
        matchPattern filepath_Match ("*" ++ middle ++ "*") str = false).
Proof.
  split; [reflexivity|].
  assert (Hstar : forall suffix, suffix <> ""%string ->
            matchPattern filepath_Match ("*" ++ suffix) str = HasSuffix str suffix).
  { intros suffix Hne. unfold matchPattern, tail_of. simpl.
    destruct suffix as [|c suffix]; [done|]. simpl.
    by rewrite substring_all. }
  split; [exact Hstar|]. split.
  - intros pre Hpre. unfold matchPattern.
    destruct pre as [|c pre].
    { change (("" ++ "*")%string) with "*"%string. simpl.
      unfold HasPrefix. by destruct str. }
    assert (Hne : String.eqb (String c pre ++ "*") "*" = false).
    { simpl. destruct (Ascii.eqb c "*"); [|reflexivity]. by destruct pre. }
    rewrite Hne.
    assert (Hp : HasPrefix (String c pre ++ "*") "*" = false).
    { unfold HasPrefix in *. rewrite append_cons, prefix_cons.
      rewrite prefix_cons in Hpre.
      destruct (Ascii.eqb "*" c); [|reflexivity]. by destruct pre. }
    rewrite Hp, HasSuffix_app. unfold init_of.
    rewrite length_append_string. simpl String.length.
    replace (S (String.length pre) + 1 - 1)%nat with (String.length (String c pre))
      by (simpl; lia).
    by rewrite substring_take_app.
  - intros middle Hfree. rewrite Hstar by (by destruct middle).
    destruct (HasSuffix str (middle ++ "*")) eqn:Hs; [|reflexivity].
    apply HasSuffix_inv in Hs as (pre & ->).
    rewrite <- append_assoc_string in Hfree.
    replace ((pre ++ middle) ++ "*")%string with ((pre ++ middle) ++ "*" ++ "")%string
      in Hfree by reflexivity.
    by rewrite has_star_app in Hfree.
Qed.

End ConfigProperties.

(* ===================================================================== *)
(** * cmd/kanban/cmd/board.go: the issues of the live board *)
(* ===================================================================== *)

Module board.

(** DisplayIssue represents an issue for board display with repo info. *)
Record DisplayIssue := mkDisplayIssue {
  Number : Z;
  Title : string;
  Repo : string;
  Priority : string;
  Type_ : string;
  Assignee : string;
  IsBlocked : bool;
  CreatedAt : Timestamp;
  UpdatedAt : Timestamp;
  AgeHours : float
}.

Fixpoint extractLabel (labels : list string) (prefix : string) : string :=
  match labels with
  | [] => ""
  | l :: labels' =>
      if HasPrefix l prefix then TrimPrefix l prefix
      else
        (* Also check with space after colon *)
        let prefixWithSpace := (TrimSuffix prefix ":" ++ ": ")%string in
        if HasPrefix l prefixWithSpace then TrimPrefix l prefixWithSpace
        else extractLabel labels' prefix
  end.

(** Priority order: critical > high > medium > low > none. *)
Definition priorityOrder : gmap string Z :=
  list_to_map [("critical"%string, 0); ("high"%string, 1); ("medium"%string, 2);
               ("low"%string, 3); (""%string, 4)].

(** [priorityOrder[p]]: 0 for a key the map does not hold. *)
Definition priorityRank (priority : string) : Z :=
  default 0 (priorityOrder !! priority).

(** The comparison of sortIssues for the sort method "priority", the
    default: by rank, then oldest first. *)
Definition lessByPriority (a b : DisplayIssue) : bool :=
  let pi := priorityRank (Priority a) in
  let pj := priorityRank (Priority b) in
  if negb (pi =? pj) then pi <? pj
  else PrimFloat.ltb (AgeHours b) (AgeHours a).

(** The escape character that opens a terminal color code. *)
Definition ESC : string := String (ascii_of_nat 27) "".

(** The badge runBoard prints before the title. *)
Definition priorityBadge (priority : string) : string :=
  if negb (String.eqb priority "") then
    if String.eqb priority "critical" then ESC ++ "[91m!!" ++ ESC ++ "[0m "
    else if String.eqb priority "high" then ESC ++ "[33m!" ++ ESC ++ "[0m "
    else ""
  else "".

Section Live.

(** [strings.EqualFold], Go's comparison under Unicode case folding,
    taken as given. *)
Variable EqualFold : string -> string -> bool.

Definition hasLabelInList (labels : list string) (target : string) : bool :=
  existsb (fun l => EqualFold l target) labels.

(** The DisplayIssue runBoardLive builds for an issue of the repository
    [r]. *)
Definition displayLive (r : string) (issue : github.BoardIssue.t) : DisplayIssue :=
  mkDisplayIssue (github.BoardIssue.Number issue)
    (cmd.truncate (github.BoardIssue.Title issue) 40) r
    (extractLabel (github.BoardIssue.Labels issue) "priority:")
    (extractLabel (github.BoardIssue.Labels issue) "type:")
    (github.BoardIssue.Assignee issue)
    (hasLabelInList (github.BoardIssue.Labels issue) "blocked")
    zeroTime zeroTime 0.

End Live.

End board.

Section BoardProperties.

Import board.

Variable EqualFold : string -> string -> bool.

Lemma extractLabel_first_match labels base :
  extractLabel labels (base ++ ":")
  = match find (fun l => HasPrefix l (base ++ ":")) labels with
    | Some l => TrimPrefix l (base ++ ":")
    | None => ""%string
    end.
Proof.
  induction labels as [|l labels IH]; simpl; [reflexivity|].
  destruct (HasPrefix l (base ++ ":")) eqn:Hp; [reflexivity|].
  rewrite TrimSuffix_app.
  destruct (HasPrefix l (base ++ ": ")) eqn:Hspace; [|exact IH].
  replace (base ++ ": ")%string with ((base ++ ":") ++ " ")%string in Hspace
    by (by rewrite append_assoc_string).
  apply HasPrefix_weaken in Hspace. congruence.
Qed.

Lemma priorityRank_unknown priority :
  priority <> "critical"%string -> priority <> "high"%string ->
  priority <> "medium"%string -> priority <> "low"%string -> priority <> ""%string ->
  priorityRank priority = 0.
Proof.
  intros H1 H2 H3 H4 H5. unfold priorityRank, priorityOrder. simpl.
  by rewrite !lookup_insert_ne, lookup_empty by congruence.
Qed.

(** X20.  The priority the live board reads off the labels.  For a
    prefix that ends in a colon extractLabel returns what follows the
    prefix in the first label that has it, as it stands: the second
    check, for the prefix with a space after the colon, never decides.
    A label written with a space after the colon therefore yields a value
    that starts with that space; such a priority is no key of the
    priority order and has no badge, so that on the live board the issue
    carries the rank of critical and sorts before an issue whose priority
    reads high. *)
Theorem extractLabel_keeps_the_space :
  (forall labels base,
     extractLabel labels (base ++ ":")
     = match find (fun l => HasPrefix l (base ++ ":")) labels with
       | Some l => TrimPrefix l (base ++ ":")
       | None => ""%string
       end)
  /\ (forall base value labels,
        extractLabel ((base ++ ": " ++ value)%string :: labels) (base ++ ":")
        = (" " ++ value)%string)
  /\ (forall r issue value,
        find (fun l => HasPrefix l "priority:") (github.BoardIssue.Labels issue)
        = Some ("priority: " ++ value)%string ->
        let shown := displayLive EqualFold r issue in
        Priority shown = (" " ++ value)%string
        /\ priorityRank (Priority shown) = priorityRank "critical"
        /\ priorityBadge (Priority shown) = ""%string
        /\ forall other, Priority other = "high"%string ->
             lessByPriority shown other = true).
Proof.
  split; [exact extractLabel_first_match|]. split.
  - intros base value labels. rewrite extractLabel_first_match. simpl.
    replace (base ++ ": " ++ value)%string with ((base ++ ":") ++ " " ++ value)%string
      by (by rewrite append_assoc_string).
    by rewrite HasPrefix_app, TrimPrefix_app.
  - intros r issue value Hfind shown.
    assert (Hshown : Priority shown = (" " ++ value)%string).
    { subst shown. unfold displayLive. cbn [Priority].
      change "priority:"%string with ("priority" ++ ":")%string.
      rewrite extractLabel_first_match.
      change ("priority" ++ ":")%string with "priority:"%string. rewrite Hfind.
      change ("priority: " ++ value)%string with ("priority:" ++ " " ++ value)%string.
      apply TrimPrefix_app. }
    assert (Hrank : priorityRank (" " ++ value) = 0)
      by (apply priorityRank_unknown; discriminate).
    split; [exact Hshown|]. rewrite Hshown. split; [by rewrite Hrank|]. split.
    + reflexivity.
    + intros other Hother. unfold lessByPriority. rewrite Hshown, Hrank, Hother.
      reflexivity.
Qed.

End BoardProperties.

(* ===================================================================== *)
(** * internal/github/client.go: label sync and linked issues *)
(* ===================================================================== *)

Module client.

(** What SyncLabels does about one label of the configuration outside a
    dry run: the gh command it issues. *)
Inductive action : Type :=
| Creating (label : config.Label.t)    (* gh label create *)
| Updating (label : config.Label.t).   (* gh label edit *)

(** SyncLabels syncs labels to a repository, from the answer [current]
    of ListLabels on: the commands issued, in their order.  A command
    that fails is reported as a warning and the loop goes on. *)
Definition SyncLabels (current labels : list config.Label.t) : list action :=
  let currentMap :=
    fold_left (fun m l => <[config.Label.Name l := l]> m) current
              (∅ : gmap string config.Label.t) in
  (* Process each label *)
  flat_map
    (fun label =>
       match currentMap !! config.Label.Name label with
       | None => [Creating label]
       | Some existing =>
           if negb (String.eqb (config.Label.Color existing) (config.Label.Color label))
              || negb (String.eqb (config.Label.Description existing)
                                  (config.Label.Description label))
           then [Updating label]
           else []
       end)
    labels.

(** [int]: 64 bits, two's complement. *)
Definition wrap64 (z : Z) : Z := (z + 2 ^ 63) mod 2 ^ 64 - 2 ^ 63.

Definition is_digit (c : ascii) : bool :=
  ((48 <=? N_of_ascii c) && (N_of_ascii c <=? 57))%N.

(** The loop [for i < len(body) && body[i] >= '0' && body[i] <= '9'] on
    [rest = body[i:]]: the number read and what follows it. *)
Fixpoint readNumber (num : Z) (rest : string) : Z * string :=
  match rest with
  | String c rest' =>
      if is_digit c
      then readNumber (wrap64 (num * 10 + (Z.of_N (N_of_ascii c) - 48))) rest'
      else (num, rest)
  | EmptyString => (num, rest)
  end.

Lemma readNumber_length (rest : string) : forall num,
  (String.length (snd (readNumber num rest)) <= String.length rest)%nat.
Proof.
  induction rest as [|c rest IH]; intros num; simpl; [lia|].
  destruct (is_digit c); simpl; [|lia]. specialize (IH (wrap64 (num * 10 + (Z.of_N (N_of_ascii c) - 48)))). lia.
Qed.

Lemma from_length (n : nat) (s : string) :
  String.length (from n s) = (String.length s - n)%nat.
Proof.
  unfold from. revert n. induction s as [|c s IH]; intros [|n]; simpl; try reflexivity.
  - f_equal. specialize (IH 0%nat). by rewrite Nat.sub_0_r in IH.
  - apply IH.
Qed.

(** The inner loop of parseLinkedIssuesFromPR for one pattern, on
    [rest = body[i:]] at the head of an iteration. *)
Equations scanPattern (pattern rest : string) : list Z by wf (String.length rest) lt :=
  scanPattern pattern EmptyString := [];
  scanPattern pattern (String c r) :=
    match String.index 0 (pattern ++ " #") (String c r) with
    | None => []                                             (* break *)
    | Some idx =>
        let found :=
          readNumber 0 (from (idx + String.length pattern + 2) (String c r)) in
        (if 0 <? fst found then [fst found] else [])
          ++ scanPattern pattern (from 1 (snd found))        (* i++ *)
    end.
Next Obligation.
  rewrite from_length.
  pose proof (readNumber_length
                (from (idx + String.length pattern + 2) (String c r)) 0) as Hlen.
  rewrite from_length in Hlen. simpl in *. lia.
Qed.

(** Parse "Closes #123", "Fixes #456", "Resolves #789" patterns. *)
Definition patterns : list string :=
  ["closes"; "close"; "fixes"; "fix"; "resolves"; "resolve"]%string.

(** parseLinkedIssuesFromPR parses PR body for issue references, from
    the body the gh command returned on. *)
Definition parseLinkedIssuesFromPR (prBody : string) : list Z :=
  let body := ToLower prBody in
  flat_map (fun pattern => scanPattern pattern body) patterns.

End client.

(* ===================================================================== *)
(** * Properties of the label sync and of the linked issues *)
(* ===================================================================== *)

Section ClientProperties.

Import db queries sync client.

(** ** SyncLabels and the cache *)

(** The cached labels give every name the color and the description the
    repository gives it. *)
Definition mirrors (cached : list Label.t) (current : list config.Label.t) : Prop :=
  forall name,
    (fun x => (Label.Color x, Label.Description x))
      <$> fold_left (fun m l => <[Label.Name l := l]> m) cached (∅ : gmap string Label.t)
          !! name
    = (fun x => (config.Label.Color x, config.Label.Description x))
        <$> fold_left (fun m l => <[config.Label.Name l := l]> m) current
              (∅ : gmap string config.Label.t) !! name.

Lemma labelsDiffer_as_SyncLabels (cachedMap : gmap string Label.t)
    (currentMap : gmap string config.Label.t) (post : list config.Label.t) :
  (forall name,
     (fun x => (Label.Color x, Label.Description x)) <$> cachedMap !! name
     = (fun x => (config.Label.Color x, config.Label.Description x))
         <$> currentMap !! name) ->
  forall pre,
    labelsDiffer cachedMap (colorsOf (pre ++ post)) (descriptionsOf (pre ++ post))
                 (length pre) (namesOf post)
    = Some (match
              flat_map
                (fun label =>
                   match currentMap !! config.Label.Name label with
                   | None => [Creating label]
                   | Some existing =>
                       if negb (String.eqb (config.Label.Color existing)
                                           (config.Label.Color label))
                          || negb (String.eqb (config.Label.Description existing)
                                              (config.Label.Description label))
                       then [Updating label]
                       else []
                   end)
                post
            with
            | [] => false
            | _ :: _ => true
            end).
Proof.
  intros Hsame. induction post as [|l post IH]; intros pre; simpl; [reflexivity|].
  specialize (Hsame (config.Label.Name l)).
  destruct (cachedMap !! config.Label.Name l) as [x|],
           (currentMap !! config.Label.Name l) as [e|]; try discriminate; [|reflexivity].
  injection Hsame as Hc Hd.
  unfold colorsOf, descriptionsOf.
  rewrite !list_lookup_fmap, list_lookup_middle by reflexivity. simpl.
  rewrite Hc, Hd.
  destruct (String.eqb (config.Label.Color e) (config.Label.Color l)); simpl;
    [|reflexivity].
  destruct (String.eqb (config.Label.Description e) (config.Label.Description l)); simpl;
    [|reflexivity].
  specialize (IH (pre ++ [l])).
  rewrite <- app_assoc, length_app in IH. simpl in IH.
  replace (length pre + 1)%nat with (S (length pre)) in IH by lia.
  exact IH.
Qed.

(** X21.  The check that lets the sync skip SyncLabels is the check
    SyncLabels makes itself: when the cached labels of the repository
    give every name the color and the description the repository gives
    it, LabelsNeedSync answers true exactly when SyncLabels would issue a
    command, a creation or an update, for the labels of the
    configuration. *)
Theorem LabelsNeedSync_agrees_with_SyncLabels g repoID cached current
    (configured : list config.Label.t) :
  GetLabelsByRepo g repoID = Value cached ->
  mirrors cached current ->
  LabelsNeedSync g repoID (namesOf configured) (colorsOf configured)
    (descriptionsOf configured)
  = Some (match SyncLabels current configured with [] => false | _ :: _ => true end,
          None).
Proof.
  intros Hcached Hmirror. unfold LabelsNeedSync, SyncLabels. rewrite Hcached.
  pose proof (labelsDiffer_as_SyncLabels _ _ configured Hmirror []) as Hdiffer.
  simpl in Hdiffer. by rewrite Hdiffer.
Qed.

(** ** Issue references in the body of a pull request *)

Lemma wrap64_small z : - 2 ^ 63 <= z < 2 ^ 63 -> wrap64 z = z.
Proof. intros Hz. unfold wrap64. rewrite Z.mod_small; lia. Qed.

Lemma of_uint_acc_ge (d : Decimal.uint) : forall acc,
  (acc <= Pos.of_uint_acc d acc)%positive.
Proof.
  induction d as [|d IH|d IH|d IH|d IH|d IH|d IH|d IH|d IH|d IH|d IH]; intros acc; simpl;
    [lia|..];
    match goal with
    | |- (_ <= Pos.of_uint_acc _ ?a)%positive => specialize (IH a); lia
    end.
Qed.

(** The text after a number: it does not go on with a digit. *)
Definition starts_with_digit (s : string) : bool :=
  match s with
  | String c _ => is_digit c
  | EmptyString => false
  end.

Lemma readNumber_stop num (tail : string) :
  starts_with_digit tail = false -> readNumber num tail = (num, tail).
Proof. destruct tail as [|c tail]; simpl; [reflexivity|]. by intros ->. Qed.

Lemma readNumber_acc (tail : string) (Htail : starts_with_digit tail = false)
    (d : Decimal.uint) : forall acc,
  Z.pos (Pos.of_uint_acc d acc) < 2 ^ 63 ->
  readNumber (Z.pos acc) (NilEmpty.string_of_uint d ++ tail)
  = (Z.pos (Pos.of_uint_acc d acc), tail).
Proof.
  induction d as [|d IH|d IH|d IH|d IH|d IH|d IH|d IH|d IH|d IH|d IH]; intros acc Hb;
    [by apply readNumber_stop|..];
    cbn [NilEmpty.string_of_uint Pos.of_uint_acc] in *;
    rewrite append_cons; cbn [readNumber];
    match goal with
    | |- context [is_digit ?c] => change (is_digit c) with true
    end;
    cbv iota;
    match goal with
    | H : Z.pos (Pos.of_uint_acc d ?a) < _ |- _ =>
        pose proof (of_uint_acc_ge d a) as Hge;
        match goal with
        | |- readNumber (wrap64 ?v) _ = _ =>
            replace v with (Z.pos a) by (vm_compute Z.of_N; lia)
        end;
        rewrite wrap64_small by lia;
        apply IH; exact H
    end.
Qed.

Lemma readNumber_uint (tail : string) (Htail : starts_with_digit tail = false)
    (d : Decimal.uint) :
  Z.of_N (Pos.of_uint d) < 2 ^ 63 ->
  readNumber 0 (NilEmpty.string_of_uint d ++ tail) = (Z.of_N (Pos.of_uint d), tail).
Proof.
  induction d as [|d IH|d IH|d IH|d IH|d IH|d IH|d IH|d IH|d IH|d IH]; intros Hb;
    [by apply readNumber_stop | exact (IH Hb) |..];
    cbn [NilEmpty.string_of_uint Pos.of_uint] in *;
    rewrite append_cons; cbn [readNumber];
    match goal with
    | |- context [is_digit ?c] => change (is_digit c) with true
    end;
    cbv iota;
    match goal with
    | |- readNumber (wrap64 ?v) _ = (Z.of_N (N.pos (Pos.of_uint_acc d ?a)), _) =>
        change (wrap64 v) with (Z.pos a); by apply readNumber_acc
    end.
Qed.

Lemma Sprintf_d_digits n :
  0 < n -> exists d, Sprintf_d n = NilEmpty.string_of_uint d
                     /\ Z.of_N (Pos.of_uint d) = n.
Proof.
  intros Hn. destruct n as [|p|p]; try lia.
  exists (Pos.to_uint p). split; [|by rewrite Unsigned.of_to].
  unfold Sprintf_d. simpl Z.to_int. unfold NilZero.string_of_int, NilZero.string_of_uint.
  pose proof (Unsigned.to_uint_nonnil p) as Hnil.
  by destruct (Pos.to_uint p).
Qed.

Lemma readNumber_Sprintf_d n (tail : string) :
  0 < n < 2 ^ 63 -> starts_with_digit tail = false ->
  readNumber 0 (Sprintf_d n ++ tail) = (n, tail).
Proof.
  intros Hn Htail. destruct (Sprintf_d_digits n) as (d & -> & Hd); [lia|].
  rewrite readNumber_uint by (done || lia). by rewrite Hd.
Qed.

(** The text around a reference: no number sign in it. *)
Fixpoint no_hash (s : string) : bool :=
  match s with
  | String c s' => negb (Ascii.eqb c "#") && no_hash s'
  | EmptyString => true
  end.

Lemma no_hash_get (s : string) :
  no_hash s = true -> forall i, String.get i s <> Some "#"%char.
Proof.
  induction s as [|c s IH]; intros Hs i; [by destruct i|].
  simpl in Hs. apply andb_prop in Hs as [Hc Hs].
  destruct i as [|i]; simpl; [|by apply IH].
  intros [= ->]. by rewrite Ascii.eqb_refl in Hc.
Qed.

Lemma no_hash_app (a b : string) :
  no_hash (a ++ b) = no_hash a && no_hash b.
Proof.
  induction a as [|c a IH]; [reflexivity|].
  rewrite append_cons. simpl. by rewrite IH, andb_assoc.
Qed.

Lemma get_hash_unique (a b : string) :
  no_hash a = true -> no_hash b = true ->
  forall i, String.get i (a ++ String "#" b) = Some "#"%char -> i = String.length a.
Proof.
  induction a as [|c a IH]; intros Ha Hb i Hi.
  - destruct i as [|i]; [reflexivity|].
    simpl in Hi. by apply no_hash_get in Hi.
  - simpl in Ha. apply andb_prop in Ha as [Hc Ha].
    rewrite append_cons in Hi.
    destruct i as [|i]; simpl in Hi.
    + injection Hi as ->. by rewrite Ascii.eqb_refl in Hc.
    + simpl. f_equal. by apply IH.
Qed.

Lemma index_some_get (s1 s2 : string) (m : nat) :
  String.index 0 s1 s2 = Some m ->
  forall i, (i < String.length s1)%nat -> String.get (i + m) s2 = String.get i s1.
Proof.
  intros Hidx i Hi. apply index_correct1 in Hidx.
  rewrite <- Hidx. by rewrite substring_correct1.
Qed.

Lemma get_hash_of_pattern (pattern : string) :
  String.get (String.length pattern + 1) (pattern ++ " #") = Some "#"%char.
Proof.
  rewrite Nat.add_comm. by rewrite <- append_correct2.
Qed.

(** Where a pattern is found, the number sign of the text is the one
    that closes the pattern. *)
Lemma index_hash (pattern body : string) (m : nat) :
  String.index 0 (pattern ++ " #") body = Some m ->
  String.get (m + String.length pattern + 1) body = Some "#"%char.
Proof.
  intros Hidx.
  rewrite <- (get_hash_of_pattern pattern).
  rewrite <- (index_some_get _ _ _ Hidx (String.length pattern + 1));
    [f_equal; lia | rewrite length_append_string; simpl; lia].
Qed.

Lemma index_no_hash (pattern body : string) :
  no_hash body = true -> String.index 0 (pattern ++ " #") body = None.
Proof.
  intros Hbody. destruct (String.index 0 (pattern ++ " #") body) as [m|] eqn:Hidx;
    [|reflexivity].
  apply index_hash in Hidx. by apply no_hash_get in Hidx.
Qed.

Lemma scanPattern_no_hash (pattern body : string) :
  no_hash body = true -> scanPattern pattern body = [].
Proof.
  intros Hbody. destruct body as [|c body]; simp scanPattern; [reflexivity|].
  by rewrite index_no_hash.
Qed.

Lemma from_1_cons (c : ascii) (s : string) : from 1 (String c s) = s.
Proof. unfold from. simpl. rewrite Nat.sub_0_r. apply substring_all. Qed.

Lemma from_app (a b : string) : from (String.length a) (a ++ b) = b.
Proof.
  unfold from. rewrite length_append_string.
  replace (String.length a + String.length b - String.length a)%nat
    with (String.length b) by lia.
  apply substring_drop_app.
Qed.

Lemma substring_middle (pre x post : string) :
  String.substring (String.length pre) (String.length x) (pre ++ x ++ post) = x.
Proof.
  induction pre as [|c pre IH]; [exact (substring_take_app x post)|].
  rewrite append_cons. simpl. exact IH.
Qed.

Lemma body_split (pre keyword rest : string) :
  (pre ++ keyword ++ " #" ++ rest
   = (pre ++ keyword ++ " ") ++ String "#" rest)%string.
Proof. by rewrite !append_assoc_string. Qed.

(** A text with one number sign, after [keyword] and a space: a pattern
    found in it ends where [keyword] ends. *)
Lemma index_position (pre keyword rest pattern : string) (m : nat) :
  no_hash pre = true -> no_hash keyword = true -> no_hash rest = true ->
  String.index 0 (pattern ++ " #") (pre ++ keyword ++ " #" ++ rest) = Some m ->
  (m + String.length pattern = String.length pre + String.length keyword)%nat.
Proof.
  intros Hpre Hkey Hrest Hidx. apply index_hash in Hidx.
  rewrite body_split in Hidx. apply get_hash_unique in Hidx; [|  | exact Hrest].
  - rewrite !length_append_string in Hidx. simpl in Hidx. lia.
  - rewrite !no_hash_app, Hpre, Hkey. reflexivity.
Qed.

Lemma scanPattern_hit (pre keyword rest tail : string) (n : Z) :
  no_hash pre = true -> no_hash keyword = true -> no_hash rest = true ->
  no_hash tail = true ->
  readNumber 0 rest = (n, tail) -> 0 < n ->
  scanPattern keyword (pre ++ keyword ++ " #" ++ rest) = [n].
Proof.
  intros Hpre Hkey Hrest Htail Hread Hn.
  destruct (String.index 0 (keyword ++ " #") (pre ++ keyword ++ " #" ++ rest))
    as [m|] eqn:Hidx.
  - pose proof (index_position _ _ _ _ _ Hpre Hkey Hrest Hidx) as Hm.
    assert (Hfrom : from (m + String.length keyword + 2) (pre ++ keyword ++ " #" ++ rest)
                    = rest).
    { rewrite <- (from_app (pre ++ keyword ++ " #") rest) at 2.
      rewrite !append_assoc_string. f_equal. rewrite !length_append_string. simpl. lia. }
    destruct (pre ++ keyword ++ " #" ++ rest)%string as [|c r] eqn:Hbody.
    { apply (f_equal String.length) in Hbody.
      rewrite !length_append_string in Hbody. simpl in Hbody. lia. }
    simp scanPattern. rewrite Hidx. cbv zeta. rewrite Hfrom, Hread. cbn [fst snd].
    replace (0 <? n) with true by (symmetry; by apply Z.ltb_lt).
    rewrite scanPattern_no_hash; [reflexivity|].
    destruct tail as [|c' tail]; [reflexivity|].
    rewrite from_1_cons. simpl in Htail. by apply andb_prop in Htail as [_ ?].
  - exfalso.
    refine (index_correct3 0 (String.length pre) _ _ Hidx _ _ _); [|lia|].
    + by destruct keyword.
    + rewrite <- (append_assoc_string keyword " #" rest). apply substring_middle.
Qed.

Lemma scanPattern_miss (pre keyword rest pattern : string) (j : nat) :
  no_hash pre = true -> no_hash keyword = true -> no_hash rest = true ->
  (j < String.length pattern)%nat -> (j < String.length keyword)%nat ->
  String.get (String.length pattern - 1 - j) pattern
  <> String.get (String.length keyword - 1 - j) keyword ->
  scanPattern pattern (pre ++ keyword ++ " #" ++ rest) = [].
Proof.
  intros Hpre Hkey Hrest Hjp Hjk Hdiff.
  destruct (String.index 0 (pattern ++ " #") (pre ++ keyword ++ " #" ++ rest))
    as [m|] eqn:Hidx.
  - exfalso. apply Hdiff.
    pose proof (index_position _ _ _ _ _ Hpre Hkey Hrest Hidx) as Hm.
    rewrite (append_correct1 pattern " #") by lia.
    rewrite <- (index_some_get _ _ _ Hidx) by (rewrite length_append_string; lia).
    replace (String.length pattern - 1 - j + m)%nat
      with (String.length keyword - 1 - j + String.length pre)%nat by lia.
    rewrite <- append_correct2.
    by rewrite <- append_correct1 by lia.
  - destruct (pre ++ keyword ++ " #" ++ rest)%string as [|c r]; simp scanPattern;
      [reflexivity|].
    by rewrite Hidx.
Qed.

(** ToLower leaves the number signs and the digits where they are. *)
Lemma lower_ascii_hash (c : ascii) :
  Ascii.eqb (lower_ascii c) "#" = Ascii.eqb c "#".
Proof. by destruct c as [[] [] [] [] [] [] [] []]. Qed.

Lemma lower_ascii_digit (c : ascii) : is_digit (lower_ascii c) = is_digit c.
Proof. by destruct c as [[] [] [] [] [] [] [] []]. Qed.

Lemma ToLower_app (a b : string) : ToLower (a ++ b) = (ToLower a ++ ToLower b)%string.
Proof.
  induction a as [|c a IH]; [reflexivity|]. rewrite append_cons. simpl.
  by rewrite IH, append_cons.
Qed.

Lemma no_hash_ToLower (s : string) : no_hash (ToLower s) = no_hash s.
Proof.
  induction s as [|c s IH]; [reflexivity|]. simpl. by rewrite lower_ascii_hash, IH.
Qed.

Lemma starts_with_digit_ToLower (s : string) :
  starts_with_digit (ToLower s) = starts_with_digit s.
Proof. destruct s as [|c s]; [reflexivity|]. simpl. apply lower_ascii_digit. Qed.

Lemma digits_lower (d : Decimal.uint) :
  ToLower (NilEmpty.string_of_uint d) = NilEmpty.string_of_uint d
  /\ no_hash (NilEmpty.string_of_uint d) = true.
Proof.
  induction d as [|d [IH1 IH2]|d [IH1 IH2]|d [IH1 IH2]|d [IH1 IH2]|d [IH1 IH2]
                  |d [IH1 IH2]|d [IH1 IH2]|d [IH1 IH2]|d [IH1 IH2]|d [IH1 IH2]];
    simpl; rewrite ?IH1, ?IH2; by split.
Qed.

Lemma readNumber_range (rest : string) : forall num,
  - 2 ^ 63 <= num < 2 ^ 63 -> - 2 ^ 63 <= fst (readNumber num rest) < 2 ^ 63.
Proof.
  induction rest as [|c rest IH]; intros num Hnum; simpl; [exact Hnum|].
  destruct (is_digit c); [|exact Hnum].
  apply IH. unfold wrap64.
  pose proof (Z.mod_pos_bound (num * 10 + (Z.of_N (N_of_ascii c) - 48) + 2 ^ 63) (2 ^ 64)).
  lia.
Qed.

Lemma scanPattern_positive (pattern rest : string) :
  Forall (fun n => 0 < n < 2 ^ 63) (scanPattern pattern rest).
Proof.
  funelim (scanPattern pattern rest); [constructor|].
  destruct (String.index 0 (pattern ++ " #") (String c r)) as [idx|] eqn:Hidx;
    [|constructor].
  cbv zeta. apply Forall_app. split; [|by apply H].
  destruct (0 <? _) eqn:Hpos; [|constructor].
  apply Z.ltb_lt in Hpos. constructor; [|constructor].
  split; [exact Hpos|]. apply readNumber_range. lia.
Qed.

(** X22.  A body with one reference gives that issue: when the body is a
    text without number sign, one of the six keywords in any case, a
    space, a number sign, an issue number 0 < n < 2^63 in decimal and a
    text without number sign that does not go on with a digit,
    parseLinkedIssuesFromPR returns the number n, once. *)
Theorem parseLinkedIssuesFromPR_single_reference (before keyword after : string) (n : Z) :
  In (ToLower keyword) patterns ->
  no_hash before = true -> no_hash after = true -> starts_with_digit after = false ->
  0 < n < 2 ^ 63 ->
  parseLinkedIssuesFromPR (before ++ keyword ++ " #" ++ Sprintf_d n ++ after) = [n].
Proof.
  intros Hkey Hbefore Hafter Hdigit Hn.
  rewrite <- no_hash_ToLower in Hbefore, Hafter.
  rewrite <- starts_with_digit_ToLower in Hdigit.
  pose proof (readNumber_Sprintf_d n (ToLower after) Hn Hdigit) as Hread.
  assert (Hrest : no_hash (Sprintf_d n ++ ToLower after) = true).
  { destruct (Sprintf_d_digits n) as (d & -> & _); [lia|].
    rewrite no_hash_app, Hafter. by rewrite (proj2 (digits_lower d)). }
  unfold parseLinkedIssuesFromPR. rewrite !ToLower_app.
  replace (ToLower (Sprintf_d n)) with (Sprintf_d n)
    by (destruct (Sprintf_d_digits n) as (d & -> & _);
        [lia | by rewrite (proj1 (digits_lower d))]).
  change (ToLower " #") with " #"%string.
  remember (ToLower after) as tail eqn:Etail.
  remember (ToLower before) as pre eqn:Epre.
  remember (Sprintf_d n ++ tail)%string as rest eqn:Erest.
  clear Etail Epre Erest Hdigit.
  rename Hbefore into Hpre, Hafter into Htail.
  unfold patterns in *. cbn [flat_map].
  assert (Hn' : 0 < n) by lia.
  simpl in Hkey.
  destruct Hkey as [<-|[<-|[<-|[<-|[<-|[<-|[]]]]]]];
    repeat match goal with
      | |- context [scanPattern ?p (pre ++ ?k ++ " #" ++ rest)] =>
          first
            [ rewrite (scanPattern_hit pre k rest tail n Hpre eq_refl Hrest Htail Hread Hn')
            | rewrite (scanPattern_miss pre k rest p 0 Hpre eq_refl Hrest)
                by (simpl; first [lia | discriminate])
            | rewrite (scanPattern_miss pre k rest p 2 Hpre eq_refl Hrest)
                by (simpl; first [lia | discriminate]) ]
      end;
    reflexivity.
Qed.

(** X23.  parseLinkedIssuesFromPR returns issue numbers only: every
    number is positive and below 2^63 (a reference [#0], or one whose
    digits wrap around to zero or below, is left out), and a body
    without number sign gives no issue. *)
Theorem parseLinkedIssuesFromPR_numbers (prBody : string) :
  Forall (fun n => 0 < n < 2 ^ 63) (parseLinkedIssuesFromPR prBody)
  /\ (no_hash prBody = true -> parseLinkedIssuesFromPR prBody = []).
Proof.
  unfold parseLinkedIssuesFromPR. split.
  - induction patterns as [|pattern rest IH]; simpl; [constructor|].
    apply Forall_app. split; [apply scanPattern_positive | exact IH].
  - intros Hbody. rewrite <- no_hash_ToLower in Hbody.
    induction patterns as [|pattern rest IH]; simpl; [reflexivity|].
    by rewrite scanPattern_no_hash, IH.
Qed.

End ClientProperties.

(* ===================================================================== *)
(** * The further properties on a small registry *)
(* ===================================================================== *)

Module CoverageExamples.
Import db queries sync snapshots batch pulls client StoreExamples.

(** Organization acme, its repository acme/app and two labels of the
    configuration. *)
Definition org_registry : Registry :=
  fst (GetOrCreateOrg (clock_at 1) emptyRegistry "acme").

Definition registry : Registry :=
  fst (GetOrCreateRepo (clock_at 2) org_registry 1 "app" "acme/app").

Definition configured : list config.Label.t :=
  [config.Label.mk "priority: high" "d93f0b" "High priority";
   config.Label.mk "status: review" "0e8a16" "In review"].

Definition clock_by_statement (n : nat) : Clock := clock_at (Z.of_nat n + 3).
Definition rowid_by_statement (n : nat) : Z := Z.of_nat n + 1.

Definition labelled_registry : Registry :=
  cacheLabels clock_by_statement rowid_by_statement 0 registry 1 configured.

(** Pull request 7 of the repository, merged 26 hours after it was
    opened. *)
Definition merged_pr : PullRequest.t :=
  PullRequest.mk 0 1 7 "Fix login" "MERGED" false (hour 10) (hour 36)
                 (Some (hour 36)) (Some (hour 36)) "ana" 12 3 2 0 0.

Definition no_pulls : PRStore := mkPRStore [] 0 [].

Definition one_pull : PRStore := fst (UpsertPR (clock_at 50) registry no_pulls merged_pr).

Definition linked_pull : PRStore :=
  fst (LinkPRToIssue (clock_at 51) after_second_sync one_pull 1 1).

Lemma GetOrCreateRepo_returns_stored_witness :
  GetRepoLastSync (UpdateRepoSyncTime (clock_at 9) registry 1) 1 = Value (Some (hour 9)).
Proof.
  destruct (GetOrCreateRepo_returns_stored (clock_at 2) org_registry 1 "app" "acme/app"
              registry _ eq_refl)
    as (_ & _ & Hsync).
  exact (Hsync (clock_at 9)).
Defined.

Lemma labels_in_sync_after_caching_witness :
  LabelsNeedSync labelled_registry 1 (namesOf configured) (colorsOf configured)
    (descriptionsOf configured)
  = Some (false, None)
  /\ LabelsNeedSync registry 1 (namesOf configured) (colorsOf configured)
       (descriptionsOf configured)
     = Some (true, None).
Proof.
  destruct (labels_in_sync_after_caching clock_by_statement rowid_by_statement
              registry 1 configured)
    as (Hafter & Hbefore).
  - reflexivity.
  - apply (bool_decide_unpack (NoDup _)). vm_compute. exact I.
  - constructor.
  - split; [exact Hafter|]. apply Hbefore; [reflexivity | discriminate].
Defined.

Lemma UpsertLabel_upsert_witness :
  exists label',
    snd (UpsertLabel (clock_at 3) 1 registry
           (Label.mk 0 1 "priority: high" "d93f0b" "High priority" "" 0 0))
    = Value label'
    /\ Label.Category label' = "priority"%string.
Proof.
  eexists. split; [reflexivity|].
  exact (proj1 (UpsertLabel_upsert (clock_at 3) 1 registry
                  (Label.mk 0 1 "priority: high" "d93f0b" "High priority" "" 0 0)
                  _ _ eq_refl)).
Defined.

Lemma GetStatusCounts_counts_open_issues_witness :
  GetStatusCounts (fun groups => groups) after_second_sync 1 !! "in-progress"%string
  = Some 1
  /\ GetStatusCounts (fun groups => groups) after_second_sync 1 !! "review"%string
     = None.
Proof.
  assert (Hcount := GetStatusCounts_counts_open_issues (fun groups => groups)
                      after_second_sync 1).
  split; rewrite Hcount; try reflexivity;
    repeat constructor; simpl; discriminate.
Defined.

Lemma snapshot_of_status_counts_witness :
  cumulative_count
    <$> rows_of (SaveCFDSnapshot day_utc (clock_at 30) after_second_sync 1 (hour 30)
                   (map_to_list
                      (GetStatusCounts (fun groups => groups) after_second_sync 1)))
                1 (day_utc (hour 30)) "in-progress"
  = [1].
Proof.
  destruct (snapshot_of_status_counts day_utc (fun groups => groups) map_to_list
              (clock_at 30) after_second_sync 1 (hour 30))
    as (_ & Hrow & _).
  - reflexivity.
  - apply Hrow. vm_compute. reflexivity.
Defined.

Lemma LinkPRToIssue_round_trip_witness :
  42 ∈ GetLinkedIssues (fun l => l) after_second_sync linked_pull 1
  /\ LinkPRToIssue (clock_at 52) after_second_sync linked_pull 1 1 = (linked_pull, None).
Proof.
  destruct (LinkPRToIssue_round_trip (fun l => l) (clock_at 51) (clock_at 52)
              after_second_sync one_pull 1 1 linked_pull)
    as (Hnumber & _ & Hagain & _).
  - reflexivity.
  - reflexivity.
  - split; [|exact Hagain].
    destruct (issues after_second_sync) as [|i rest] eqn:Hissues; [discriminate|].
    injection Hissues as <- _.
    apply (Hnumber _ (or_introl eq_refl) eq_refl).
Defined.

Lemma UpsertPR_merge_time_witness :
  exists pr1,
    snd (UpsertPR (clock_at 50) registry no_pulls merged_pr) = Value pr1
    /\ PullRequest.MergeTimeHours pr1 = 26%float.
Proof.
  eexists. split; [reflexivity|].
  exact (proj1 (UpsertPR_merge_time (clock_at 50) registry no_pulls merged_pr _ _ eq_refl)).
Defined.

Lemma LabelsNeedSync_agrees_with_SyncLabels_witness :
  LabelsNeedSync labelled_registry 1 (namesOf configured) (colorsOf configured)
    (descriptionsOf configured)
  = Some (match SyncLabels configured configured with [] => false | _ :: _ => true end,
          None).
Proof.
  refine (LabelsNeedSync_agrees_with_SyncLabels labelled_registry 1 _ configured
            configured eq_refl _).
  intros name. rewrite <- !lookup_fmap. f_equal.
Defined.

Lemma parseLinkedIssuesFromPR_single_reference_witness :
  parseLinkedIssuesFromPR "This PR Fixes #123, thanks" = [123].
Proof.
  apply (parseLinkedIssuesFromPR_single_reference "This PR " "Fixes" ", thanks" 123).
  - right. right. left. reflexivity.
  - reflexivity.
  - reflexivity.
  - reflexivity.
  - lia.
Defined.

End CoverageExamples.
